(** * Descriptor-target attribution and statistics of the gender analysis

    A shallow embedding of [analysis/descr_pars.py], [analysis/fa_prn.py],
    [analysis/fa_per.py], [analysis/byd_mw.py], [analysis/helper.py] and the
    article loop of [analysis/main.py].

    A spaCy [Doc] is an arena of tokens: a token refers to its head by the
    head's position, and the children of a token are the other tokens whose
    head it is, in document order (spaCy yields the left children, then the
    right ones).  Python integers are [Z], Python floats are the kernel's
    binary64 floats, the lemma -> count dictionaries are [gmap string Z], and
    the small counter dictionaries, whose key order the code relies on, are
    association lists.  Logging does not change any state and is left out. *)

From Stdlib Require Import ZArith List Bool String Lia.
From Stdlib Require Import Floats.
From stdpp Require Import gmap strings list fin_maps.

Import ListNotations.
Local Open Scope Z_scope.
Local Open Scope string_scope.

(** ** Tokens and documents *)

(** The attributes of a [spacy.tokens.Token] the analysis reads.  [head] is
    the position of [token.head] in the document (a root is its own head),
    [morph_case] is [token.morph.get('Case')], [ent_type_] is the empty string
    when the token is in no entity, [gender] is the extension [token._.gender]
    ([None] by default). *)
Record Token := mkToken {
  lemma_ : string;
  pos_ : string;
  dep_ : string;
  head : nat;
  morph_case : list string;
  ent_type_ : string;
  gender : option string
}.

Abbreviation Doc := (list Token).

(** [x in {...}] on strings. *)
Definition str_in (x : string) (l : list string) : bool :=
  existsb (String.eqb x) l.

(** [tk.children]: the tokens other than [tk] whose head is [tk], in document
    order, each with its position. *)
Definition children (doc : Doc) (i : nat) : list (nat * Token) :=
  List.filter (fun c => Nat.eqb (head (snd c)) i && negb (Nat.eqb (fst c) i))
              (imap pair doc).

(** ** descr_pars.py *)

Definition SVP_DELIMITER : string := "".
Definition PER_F : string := "PER:weiblich".   (* PER_GENDER_MAPPING['PER:F'] *)
Definition PER_M : string := "PER:männlich".   (* PER_GENDER_MAPPING['PER:M'] *)
Definition TARGET_POS : list string := ["NOUN"; "PROPN"].

(** The gender distribution [{'f': _, 'm': _, 'ud': _}]. *)
Record Factors := mkFactors { f : Z; m : Z; ud : Z }.

Definition no_occurrences : Factors := mkFactors 0 0 0.

Definition add_f (v : Factors) : Factors := mkFactors (f v + 1) (m v) (ud v).
Definition add_m (v : Factors) : Factors := mkFactors (f v) (m v + 1) (ud v).
Definition add_ud (v : Factors) : Factors := mkFactors (f v) (m v) (ud v + 1).

(** [is_nom]: ['Nom' in t.morph.get('Case')]. *)
Definition is_nom (t : Token) : bool := str_in "Nom" (morph_case t).

(** The value bound by [g := t._.gender] when it is truthy: a gender tag that
    is neither [None] nor the empty string. *)
Definition gender_tag (t : Token) : option string :=
  match gender t with
  | Some g => if String.eqb g "" then None else Some g
  | None => None
  end.

(** Lines 34-48: the gender of the starting target. *)
Definition start_occurrences (t : Token) : Factors :=
  match gender_tag t with
  | Some g =>
      if String.eqb g "PRN:F" then add_f no_occurrences
      else if String.eqb g "PRN:M" then add_m no_occurrences
      else no_occurrences
  | None =>
      if String.prefix "PER:" (ent_type_ t) then
        let g := ent_type_ t in
        if String.eqb g PER_F then add_f no_occurrences
        else if String.eqb g PER_M then add_m no_occurrences
        else if String.eqb g "PER:NA" || String.eqb g "PER:AMB" then add_ud no_occurrences
        else no_occurrences
      else no_occurrences
  end.

(** Lines 59-77: the gender of a followed conjunct, added to [v]; the second
    component is [new_children] after the block (it was set to [True] just
    before, and the two [else] branches reset it). *)
Definition conjunct_occurrences (child : Token) (v : Factors) : Factors * bool :=
  match gender_tag child with
  | Some g =>
      if String.eqb g "PRN:F" then (add_f v, true)
      else if String.eqb g "PRN:M" then (add_m v, true)
      else (v, false)
  | None =>
      if String.prefix "PER:" (ent_type_ child) then
        let g := ent_type_ child in
        if String.eqb g PER_F then (add_f v, true)
        else if String.eqb g PER_M then (add_m v, true)
        else if String.eqb g "PER:NA" || String.eqb g "PER:AMB" then (add_ud v, true)
        else (v, false)
      else (v, true)
  end.

(** Line 56: [child.dep_ == 'cj' and child.pos_ in TARGET_POS and is_nom(child)]. *)
Definition is_target_conjunct (child : Token) : bool :=
  String.eqb (dep_ child) "cj" && str_in (pos_ child) TARGET_POS && is_nom child.

(** Lines 79 and 169: [child.dep_ == 'cd' and child.pos_ == 'CCONJ']. *)
Definition is_conjunction (child : Token) : bool :=
  String.eqb (dep_ child) "cd" && String.eqb (pos_ child) "CCONJ".

(** Lines 55-82: the child at which [for child in tk.children] stops, the
    first one that meets one of the two conditions of the loop body. *)
Definition next_conjunct (doc : Doc) (tk : nat) : option (nat * Token) :=
  List.find (fun c => is_target_conjunct (snd c) || is_conjunction (snd c))
            (children doc tk).

(** Lines 51-82: the [while new_children] loop.  One unit of fuel is one pass
    of the loop body; [None] is an exhausted fuel. *)
Fixpoint follow_conjuncts (fuel : nat) (doc : Doc) (tk : nat) (v : Factors)
  : option Factors :=
  match fuel with
  | O => None
  | S fuel' =>
      match next_conjunct doc tk with
      | None => Some v
      | Some (j, child) =>
          if is_target_conjunct child then
            let '(v', new_children) := conjunct_occurrences child v in
            if new_children then follow_conjuncts fuel' doc j v' else Some v'
          else follow_conjuncts fuel' doc j v
      end
  end.

(** [obtain_gender_occurrences(t, logger)].  [t] is [None] or the position of
    a token of [doc] (spaCy tokens are not empty, so [not t] holds for [None]
    only).  The walk moves from a token to one of its children, so on a
    dependency tree it takes at most [length doc] steps. *)
Definition obtain_gender_occurrences (doc : Doc) (t : option nat) : option Factors :=
  match t with
  | None => Some no_occurrences
  | Some i =>
      match doc !! i with
      | None => None
      | Some tok => follow_conjuncts (S (length doc)) doc i (start_occurrences tok)
      end
  end.

(** ** helper.py: the statistics *)

(** The integers Python converts to a float: those that round (to nearest,
    ties to even) to a finite binary64 float.  For every other integer the
    conversion, and with it [int * float], raises [OverflowError]. *)
Definition in_float_range (z : Z) : bool :=
  (Z.abs z <? 2 ^ 1024 - 2 ^ 970)%Z.

(** The conversion of [int * float] for an integer in the range of the
    floats: the nearest binary64 float (ties to even).  Outside that range
    Python raises [OverflowError]; [scaling_overflows] and
    [add_descriptor_call] below say where [add_descriptor] does. *)
Definition float_of_int (z : Z) : float :=
  SF2Prim (binary_normalize prec emax z 0 false).

Definition GLEAN_INIT : list float := [0%float; 0%float; 0%float; 0%float].

(** A counter dictionary with its keys in insertion order. *)
Abbreviation Counters := (list (string * Z)).

Record PER := mkPER {
  female_per : gmap string Z;
  male_per : gmap string Z;
  amb_per : gmap string Z;
  nh_per : gmap string Z;
  ud_per : gmap string Z;
  num_matches_per : Counters
}.

Record PRN := mkPRN {
  female_prn : gmap string Z;
  male_prn : gmap string Z;
  num_matches_prn : Counters
}.

Record DESCR := mkDESCR {
  female_descriptors : gmap string Z;
  male_descriptors : gmap string Z;
  ud_descriptors : gmap string Z;
  num_matches_descr : Counters;
  num_neg : Z
}.

Record GLEAN := mkGLEAN {
  female_glean : list float;
  male_glean : list float;
  ud_glean : list float;
  glean_not_found : Counters
}.

Record BYD_MW := mkBYD_MW {
  match_lists : gmap string (gmap string Z);
  num_matches : Counters
}.

Record Statistics := mkStatistics {
  per : PER;
  prn : PRN;
  descr : DESCR;
  glean : GLEAN;
  byd_mw : BYD_MW;
  token_num : Z;
  num_slashes : Z
}.

(** The [default_factory] values of the dataclasses.  The key of
    [num_matches_per] for male persons is spelled in helper.py with the bytes
    of a doubly encoded umlaut, and is kept so. *)
Definition num_matches_per_default : Counters :=
  [("PER:weiblich", 0); ("PER:mÃ¤nnlich", 0); ("PER:NA", 0); ("PER:AMB", 0)].
Definition num_matches_prn_default : Counters := [("PRN:F", 0); ("PRN:M", 0)].
Definition num_matches_descr_default : Counters :=
  [("DESCR:F", 0); ("DESCR:M", 0); ("DESCR:NA", 0)].
Definition glean_not_found_default : Counters :=
  [("DESCR:F", 0); ("DESCR:M", 0); ("DESCR:NA", 0)].

(** [Statistics.GLEAN()]. *)
Definition GLEAN_default : GLEAN :=
  mkGLEAN GLEAN_INIT GLEAN_INIT GLEAN_INIT glean_not_found_default.

(** [d[k] = d.get(k, 0) + n]. *)
Definition dict_incr (k : string) (n : Z) (d : gmap string Z) : gmap string Z :=
  <[k := default 0 (d !! k) + n]> d.

(** [d[key] += factor] for a key of [d]. *)
Definition counters_add (key : string) (factor : Z) (d : Counters) : Counters :=
  List.map (fun kv => if String.eqb (fst kv) key then (fst kv, snd kv + factor) else kv) d.

(** [for key, factor in zip(d.keys(), factors): d[key] += factor]. *)
Definition counters_add_zip (d : Counters) (factors : list Z) : Counters :=
  fold_left (fun d' kf => counters_add (fst kf) (snd kf) d')
            (combine (List.map fst d) factors) d.

(** [d[key]]; [None] stands for [KeyError]. *)
Definition counters_get (d : Counters) (key : string) : option Z :=
  snd <$> List.find (fun kv => String.eqb (fst kv) key) d.

Definition set_descr (d : DESCR) (st : Statistics) : Statistics :=
  mkStatistics (per st) (prn st) d (glean st) (byd_mw st) (token_num st) (num_slashes st).
Definition set_glean (g : GLEAN) (st : Statistics) : Statistics :=
  mkStatistics (per st) (prn st) (descr st) g (byd_mw st) (token_num st) (num_slashes st).
Definition set_prn (p : PRN) (st : Statistics) : Statistics :=
  mkStatistics (per st) p (descr st) (glean st) (byd_mw st) (token_num st) (num_slashes st).
Definition set_per (p : PER) (st : Statistics) : Statistics :=
  mkStatistics p (prn st) (descr st) (glean st) (byd_mw st) (token_num st) (num_slashes st).
Definition set_byd_mw (b : BYD_MW) (st : Statistics) : Statistics :=
  mkStatistics (per st) (prn st) (descr st) (glean st) b (token_num st) (num_slashes st).
Definition set_token_num (n : Z) (st : Statistics) : Statistics :=
  mkStatistics (per st) (prn st) (descr st) (glean st) (byd_mw st) n (num_slashes st).
Definition set_num_slashes (n : Z) (st : Statistics) : Statistics :=
  mkStatistics (per st) (prn st) (descr st) (glean st) (byd_mw st) (token_num st) n.

(** ** descr_pars.py: recording descriptors *)

Section Descriptors.

(** [str.lower]. *)
Variable str_lower : string -> string.
(** [glean.glean_norm_values], read from the lexicon file at import. *)
Variable glean_norm_values : gmap string (list float).

(** [[a + factor*b for a, b in zip(sums, entry)]]. *)
Definition add_scaled (factor : Z) (sums entry : list float) : list float :=
  zip_with (fun a b => (a + float_of_int factor * b)%float) sums entry.

(** [add_descriptor(descriptor, factors, statistics, logger)].  The lookup
    [glean_norm_values[descriptor]] of the first assignment of the [try] block
    decides between the block and its [except KeyError] handler. *)
Definition add_descriptor (descriptor : string) (factors : Factors) (st : Statistics)
  : Statistics :=
  let f_factor := f factors in
  let m_factor := m factors in
  let ud_factor := ud factors in
  let d := descr st in
  let d' := mkDESCR (dict_incr descriptor f_factor (female_descriptors d))
                    (dict_incr descriptor m_factor (male_descriptors d))
                    (dict_incr descriptor ud_factor (ud_descriptors d))
                    (counters_add_zip (num_matches_descr d) [f_factor; m_factor; ud_factor])
                    (num_neg d) in
  let g := glean st in
  let g' :=
    match glean_norm_values !! descriptor with
    | Some entry =>
        mkGLEAN (add_scaled f_factor (female_glean g) entry)
                (add_scaled m_factor (male_glean g) entry)
                (add_scaled ud_factor (ud_glean g) entry)
                (glean_not_found g)
    | None =>
        mkGLEAN (female_glean g) (male_glean g) (ud_glean g)
                (counters_add_zip (glean_not_found g) [f_factor; m_factor; ud_factor])
    end in
  set_glean g' (set_descr d' st).

(** [[a + factor*b for a, b in zip(sums, entry)]] raises [OverflowError] at
    its first element when [factor] does not convert to a float. *)
Definition scaling_overflows (factor : Z) (sums entry : list float) : bool :=
  negb (in_float_range factor)
  && match sums, entry with
     | _ :: _, _ :: _ => true
     | _, _ => false
     end.

(** The exception [add_descriptor] can leave with. *)
Inductive DescriptorError := OverflowError.

(** The call [add_descriptor(descriptor, factors, statistics, logger)] with
    its exception.  [add_descriptor] above gives the statistics of a call
    that returns.  For a lemma of the lexicon the call raises [OverflowError]
    when one of the three sums of the [try] block cannot be computed; the
    handler catches [KeyError] only, so the exception leaves the call (the
    dictionaries and counters are written by then) and ends the analysis.
    The vectors [parse_descriptors] hands over count tokens of the paragraph
    and are in the range of the floats. *)
Definition add_descriptor_call (descriptor : string) (factors : Factors) (st : Statistics)
  : DescriptorError + Statistics :=
  match glean_norm_values !! descriptor with
  | Some entry =>
      if scaling_overflows (f factors) (female_glean (glean st)) entry
         || scaling_overflows (m factors) (male_glean (glean st)) entry
         || scaling_overflows (ud factors) (ud_glean (glean st)) entry
      then inl OverflowError
      else inr (add_descriptor descriptor factors st)
  | None => inr (add_descriptor descriptor factors st)
  end.

(** Line 155: [child.dep_ == 'cj'] and [child.pos_] is ADJ, ADV or VERB. *)
Definition is_descr_conjunct (child : Token) : bool :=
  String.eqb (dep_ child) "cj"
  && (String.eqb (pos_ child) "ADJ" || String.eqb (pos_ child) "ADV"
      || String.eqb (pos_ child) "VERB").

(** Lines 162 and 133: [c.dep_ in {'mo', 'oc'} and c.pos_ in {'ADV', 'AUX'}]. *)
Definition is_adverbial (c : Token) : bool :=
  str_in (dep_ c) ["mo"; "oc"] && str_in (pos_ c) ["ADV"; "AUX"].

(** Lines 158-163: the children of a verb conjunct at position [j]; the state
    is [svp_c] and [nested_descr]. *)
Definition scan_conjunct_children (j : nat) (cs : list (nat * Token))
    (nested_descr : list string) : option string * list string :=
  fold_left
    (fun acc c =>
       if String.eqb (dep_ (snd c)) "svp" && Nat.eqb (head (snd c)) j
       then (Some (str_lower (lemma_ (snd c)) ++ SVP_DELIMITER), snd acc)
       else if is_adverbial (snd c)
       then (fst acc, (snd acc ++ [str_lower (lemma_ (snd c))])%list)
       else acc)
    cs (None, nested_descr).

(** [if svp_c:] holds for a particle prefix that is not the empty string. *)
Definition svp_prefix (svp_c : option string) : option string :=
  match svp_c with
  | Some s => if String.eqb s "" then None else Some s
  | None => None
  end.

(** Lines 154-172: the child at which [for child in tk.children] stops. *)
Definition next_descr_conjunct (doc : Doc) (tk : nat) : option (nat * Token) :=
  List.find (fun c => is_descr_conjunct (snd c) || is_conjunction (snd c))
            (children doc tk).

(** Lines 150-172: the [while new_children] loop over the conjuncts of a
    descriptor, with [nested_descr] as its state. *)
Fixpoint follow_descr_conjuncts (fuel : nat) (doc : Doc) (tk : nat)
    (nested_descr : list string) : option (list string) :=
  match fuel with
  | O => None
  | S fuel' =>
      match next_descr_conjunct doc tk with
      | None => Some nested_descr
      | Some (j, child) =>
          if is_descr_conjunct child then
            let '(svp_c, nested1) :=
              if String.eqb (pos_ child) "VERB"
              then scan_conjunct_children j (children doc j) nested_descr
              else (None, nested_descr) in
            let nested2 :=
              match svp_prefix svp_c with
              | Some s => (nested1 ++ [(s ++ str_lower (lemma_ child))%string])%list
              | None => (nested1 ++ [str_lower (lemma_ child)])%list
              end in
            follow_descr_conjuncts fuel' doc j nested2
          else follow_descr_conjuncts fuel' doc j nested_descr
      end
  end.

(** Lines 146-173: [nested_descr].  The list is emptied again before the walk
    from [adv], so with an [adv] the conjuncts found from [descriptor] are
    dropped; both walks are run. *)
Definition nested_descriptors (doc : Doc) (descriptor : nat) (adv : option nat)
  : option (list string) :=
  from_descr ← follow_descr_conjuncts (S (length doc)) doc descriptor [];
  match adv with
  | None => Some from_descr
  | Some a =>
      from_adv ← follow_descr_conjuncts (S (length doc)) doc a [];
      a_tok ← doc !! a;
      Some (from_adv ++ [str_lower (lemma_ a_tok)])%list
  end.

(** Lines 112-120: the subject [n] of the auxiliary [h] at position [hi],
    whose own head is [hh]. *)
Definition find_subject (doc : Doc) (hi : nat) (h hh : Token) : option nat :=
  if str_in (dep_ h) ["rc"; "oc"] && str_in (pos_ hh) TARGET_POS && is_nom hh
  then Some (head h)
  else fst <$> List.find
         (fun c => str_in (pos_ (snd c)) TARGET_POS && is_nom (snd c)
                   && str_in (dep_ (snd c)) ["sb"; "oc"])
         (children doc hi).

(** Lines 130-136: the children of the verb at position [hi]; the state is
    [svp] and [adv]. *)
Definition scan_verb_children (hi : nat) (cs : list (nat * Token))
    (svp : string) (adv : option nat) : string * option nat :=
  fold_left
    (fun acc c =>
       if String.eqb (dep_ (snd c)) "svp" && Nat.eqb (head (snd c)) hi
       then (str_lower (lemma_ (snd c)) ++ SVP_DELIMITER, snd acc)
       else if negb (bool_decide (is_Some (snd acc))) && is_adverbial (snd c)
       then (fst acc, Some (fst c))
       else acc)
    cs (svp, adv).

(** What lines 97-140 leave for one token. *)
Inductive Pattern :=
| Negation
| NoPattern
| Descriptor (factors : Factors) (descriptor : nat) (adv : option nat) (svp : string).

(** Lines 100-140 for the token [tok] at position [i], with its head [h] and
    the head [hh] of its head. *)
Definition classify (doc : Doc) (i : nat) (tok h hh : Token) : option Pattern :=
  if String.eqb (dep_ tok) "ng" && str_in (pos_ h) ["VERB"; "AUX"; "ADJ"] then
    Some Negation
  else if String.eqb (dep_ tok) "nk" && String.eqb (pos_ tok) "ADJ"
          && str_in (pos_ h) TARGET_POS then
    factors ← obtain_gender_occurrences doc (Some (head tok));
    Some (Descriptor factors i None "")
  else if str_in (dep_ tok) ["pd"; "oc"] && String.eqb (pos_ h) "AUX"
          && str_in (pos_ tok) ["ADV"; "VERB"] then
    factors ← obtain_gender_occurrences doc (find_subject doc (head tok) h hh);
    Some (Descriptor factors i None "")
  else if String.eqb (dep_ tok) "sb" && String.eqb (pos_ h) "VERB"
          && str_in (pos_ tok) TARGET_POS && is_nom tok then
    factors ← obtain_gender_occurrences doc (Some i);
    let adv := if String.eqb (dep_ h) "oc" && str_in (pos_ hh) ["ADV"; "AUX"]
               then Some (head h) else None in
    let '(svp, adv') := scan_verb_children (head tok) (children doc (head tok)) "" adv in
    Some (Descriptor factors (head tok) adv' svp)
  else Some NoPattern.

Definition all_zero (factors : Factors) : bool :=
  Z.eqb (f factors) 0 && Z.eqb (m factors) 0 && Z.eqb (ud factors) 0.

(** Lines 176-179: the descriptor lemmas handed to [add_descriptor], in order. *)
Definition recorded_descriptors (doc : Doc) (descriptor : nat) (adv : option nat)
    (svp : string) : option (list string) :=
  nested_descr ← nested_descriptors doc descriptor adv;
  d_tok ← doc !! descriptor;
  Some ((svp ++ str_lower (lemma_ d_tok)) :: nested_descr).

Definition add_descriptors (descrs : list string) (factors : Factors) (st : Statistics)
  : Statistics :=
  fold_left (fun st' descr => add_descriptor descr factors st') descrs st.

(** One pass of the [for token in doc] loop of [parse_descriptors], for the
    token at position [i].  [None] stands for a document that is no dependency
    tree (a head outside the document, or a walk that does not end). *)
Definition parse_token (doc : Doc) (i : nat) (st : Statistics) : option Statistics :=
  tok ← doc !! i;
  h ← doc !! head tok;
  hh ← doc !! head h;
  pattern ← classify doc i tok h hh;
  match pattern with
  | Negation =>
      let d := descr st in
      Some (set_descr (mkDESCR (female_descriptors d) (male_descriptors d)
                               (ud_descriptors d) (num_matches_descr d)
                               (num_neg d + 1)) st)
  | NoPattern => Some st
  | Descriptor factors descriptor adv svp =>
      if all_zero factors then Some st
      else
        descrs ← recorded_descriptors doc descriptor adv svp;
        Some (add_descriptors descrs factors st)
  end.

(** [parse_descriptors(doc, statistics, logger)]. *)
Definition parse_descriptors (doc : Doc) (st : Statistics) : option Statistics :=
  fold_left (fun acc i => st' ← acc; parse_token doc i st')
            (seq 0 (length doc)) (Some st).

End Descriptors.

(** ** fa_prn.py *)

Definition set_gender (g : option string) (t : Token) : Token :=
  mkToken (lemma_ t) (pos_ t) (dep_ t) (head t) (morph_case t) (ent_type_ t) g.

(** The pipeline component [gender_prn]; [prn_male] and [prn_female] are the
    lists [doc._.prn_male] and [doc._.prn_female] filled by [setup]. *)
Definition gender_prn_token (prn_male prn_female : list string) (token : Token) : Token :=
  if negb (String.eqb (pos_ token) "NOUN") && negb (String.eqb (pos_ token) "PROPN")
  then token
  else if str_in (lemma_ token) prn_male then set_gender (Some "PRN:M") token
  else if str_in (lemma_ token) prn_female then set_gender (Some "PRN:F") token
  else token.

Definition gender_prn (prn_male prn_female : list string) (doc : Doc) : Doc :=
  List.map (gender_prn_token prn_male prn_female) doc.

(** [True] and [False] added to an integer. *)
Definition Z_of_bool (b : bool) : Z := if b then 1 else 0.

(** [count_prn(doc, statistics, logger)] with a [statistics]; its result is
    not used by [analyze]. *)
Definition count_prn_token (token : Token) (p : PRN) : PRN :=
  match gender_tag token with
  | Some g =>
      mkPRN (dict_incr (lemma_ token) (Z_of_bool (String.eqb g "PRN:F")) (female_prn p))
            (dict_incr (lemma_ token) (Z_of_bool (String.eqb g "PRN:M")) (male_prn p))
            (counters_add g 1 (num_matches_prn p))
  | None => p
  end.

Definition count_prn (doc : Doc) (st : Statistics) : Statistics :=
  set_prn (fold_left (fun p token => count_prn_token token p) doc (prn st)) st.

(** [count_prn(doc)] without [statistics] (lines 36-42): a fresh dictionary,
    and for every tagged token each of its counters raised by [g == label]. *)
Definition count_prn_plain (doc : Doc) : Counters :=
  fold_left
    (fun num_matches_prn token =>
       match gender_tag token with
       | Some g =>
           fold_left
             (fun d label => counters_add label (Z_of_bool (String.eqb g label)) d)
             (List.map fst num_matches_prn) num_matches_prn
       | None => num_matches_prn
       end)
    doc [("PRN:F", 0); ("PRN:M", 0)].

(** The dictionary [count_prn(doc, statistics)] returns (line 34), read off
    the statistics after the loop; [None] stands for [KeyError]. *)
Definition count_prn_result (doc : Doc) (st : Statistics) : option Counters :=
  let st' := count_prn doc st in
  num_f ← counters_get (num_matches_prn (prn st')) "PRN:F";
  num_m ← counters_get (num_matches_prn (prn st')) "PRN:M";
  Some [("PRN:F", num_f); ("PRN:M", num_m)].

(** ** fa_per.py *)

(** An entity of [doc.ents]: [ent.text] and [ent.label_]. *)
Record Entity := mkEntity { ent_text : string; label_ : string }.

Definition PER_LABELS : list string := ["PER:weiblich"; "PER:männlich"; "PER:NA"; "PER:AMB"].

Definition count_per_ent (ent : Entity) (p : PER) : PER :=
  if negb (String.prefix "PER:" (label_ ent)) then p
  else
    mkPER (dict_incr (ent_text ent) (Z_of_bool (String.eqb (label_ ent) "PER:weiblich"))
                     (female_per p))
          (dict_incr (ent_text ent) (Z_of_bool (String.eqb (label_ ent) "PER:männlich"))
                     (male_per p))
          (dict_incr (ent_text ent) (Z_of_bool (String.eqb (label_ ent) "PER:AMB"))
                     (amb_per p))
          (dict_incr (ent_text ent ++ " {" ++ label_ ent ++ "}")
                     (Z_of_bool (negb (str_in (label_ ent) PER_LABELS))) (nh_per p))
          (dict_incr (ent_text ent) (Z_of_bool (String.eqb (label_ ent) "PER:NA"))
                     (ud_per p))
          (counters_add (label_ ent) 1 (num_matches_per p)).

(** [count_per(doc, statistics, logger)], on [doc.ents]. *)
Definition count_per (ents : list Entity) (st : Statistics) : Statistics :=
  set_per (fold_left (fun p ent => count_per_ent ent p) ents (per st)) st.

(** ** byd_mw.py *)

(** A string is held as the bytes of its UTF-8 encoding.  A byte 10xxxxxx
    continues a character; every other byte starts one. *)
Definition is_continuation (b : Ascii.ascii) : bool :=
  (128 <=? Ascii.nat_of_ascii b)%nat && (Ascii.nat_of_ascii b <? 192)%nat.

(** The characters of a Python string, each as the bytes that encode it. *)
Fixpoint characters (s : string) : list string :=
  match s with
  | EmptyString => []
  | String b s' =>
      match s' with
      | EmptyString => [String b EmptyString]
      | String b' _ =>
          if is_continuation b' then
            match characters s' with
            | c :: cs => String b c :: cs
            | [] => [String b EmptyString]
            end
          else String b EmptyString :: characters s'
      end
  end.

(** The string of a list of characters. *)
Definition join (cs : list string) : string :=
  fold_right String.append EmptyString cs.

(** [file_name[:-5]]: the name without its last five characters, the empty
    string for a name of at most five characters. *)
Definition strip_extension (file_name : string) : string :=
  let cs := characters file_name in
  join (take (length cs - 5) cs).

(** One match of the matcher [name] with text [span_text]. *)
Definition record_match (file_name name span_text : string) (b : BYD_MW) : BYD_MW :=
  let span := span_text ++ " {" ++ strip_extension file_name ++ "}" in
  mkBYD_MW (<[name := dict_incr span 1 (default ∅ (match_lists b !! name))]> (match_lists b))
           (counters_add name 1 (num_matches b)).

(** [match(file_name, matchers, doc, logger, statistics)]: [matchers] are the
    names of the matchers in their order, and [hits name] are the texts
    [doc[start:end].text] of the matches the matcher [name] finds in the
    paragraph. *)
Definition byd_match (file_name : string) (matchers : list string)
    (hits : string -> list string) (st : Statistics) : Statistics :=
  set_byd_mw
    (fold_left
       (fun b name =>
          fold_left (fun b' span_text => record_match file_name name span_text b')
                    (hits name) b)
       matchers (byd_mw st))
    st.

(** ** main.py *)

(** What the pipeline makes of one paragraph of an article: the number of
    slash forms [preprocess] finds, the annotated document [anno_par], its
    entities, and the matches of each matcher. *)
Record Paragraph := mkParagraph {
  slash_forms : nat;
  anno_par : Doc;
  ents : list Entity;
  hits : string -> list string
}.

(** An article file: [raw_text] is what [load_text] returns for it. *)
Record Article := mkArticle {
  file_name : string;
  raw_text : option (list Paragraph)
}.

(** ** main.py: the row of [stats_list] *)

(** A cell of a row of [stats_list]. *)
Inductive Cell := CStr (s : string) | CInt (n : Z) | CFloat (x : float).

(** The exceptions of a subscription. *)
Inductive LookupError := KeyError (key : string) | ListIndexError.

(** [d[key]] in a list display. *)
Definition counter_item (d : Counters) (key : string) : LookupError + Cell :=
  match counters_get d key with
  | Some v => inr (CInt v)
  | None => inl (KeyError key)
  end.

(** [l[i]] in a list display. *)
Definition glean_index (l : list float) (i : nat) : LookupError + Cell :=
  match l !! i with
  | Some x => inr (CFloat x)
  | None => inl ListIndexError
  end.

(** A list display [[e1, e2, ...]]: the elements are evaluated from left to
    right, and the first exception is the one raised. *)
Fixpoint display (es : list (LookupError + Cell)) : LookupError + list Cell :=
  match es with
  | [] => inr []
  | inl e :: _ => inl e
  | inr c :: es' =>
      match display es' with
      | inl e => inl e
      | inr cs => inr (c :: cs)
      end
  end.

(** Lines 269-281: the row [info] of an article, built from its statistics
    once [analyze] has returned. *)
Definition article_info (file_name : string) (st : Statistics) : LookupError + list Cell :=
  match display
          [ inr (CStr (strip_extension file_name));
            inr (CInt (token_num st));
            inr (CInt (num_slashes st));
            counter_item (num_matches_per (per st)) PER_F;
            counter_item (num_matches_per (per st)) PER_M;
            counter_item (num_matches_per (per st)) "PER:NA";
            counter_item (num_matches_per (per st)) "PER:AMB";
            counter_item (num_matches_prn (prn st)) "PRN:F";
            counter_item (num_matches_prn (prn st)) "PRN:M";
            counter_item (num_matches_descr (descr st)) "DESCR:F";
            counter_item (num_matches_descr (descr st)) "DESCR:M";
            counter_item (num_matches_descr (descr st)) "DESCR:NA";
            inr (CInt (num_neg (descr st)));
            glean_index (female_glean (glean st)) 0;
            glean_index (female_glean (glean st)) 1;
            glean_index (female_glean (glean st)) 2;
            glean_index (female_glean (glean st)) 3;
            glean_index (male_glean (glean st)) 0;
            glean_index (male_glean (glean st)) 1;
            glean_index (male_glean (glean st)) 2;
            glean_index (male_glean (glean st)) 3;
            glean_index (ud_glean (glean st)) 0;
            glean_index (ud_glean (glean st)) 1;
            glean_index (ud_glean (glean st)) 2;
            glean_index (ud_glean (glean st)) 3;
            counter_item (glean_not_found (glean st)) "DESCR:F";
            counter_item (glean_not_found (glean st)) "DESCR:M";
            counter_item (glean_not_found (glean st)) "DESCR:NA" ] with
  | inl e => inl e
  | inr info =>
      inr (info ++ List.map (fun kv => CInt (snd kv)) (num_matches (byd_mw st)))%list
  end.

Section Main.

Variable str_lower : string -> string.
Variable glean_norm_values : gmap string (list float).
(** The keys of [matchers]. *)
Variable matchers : list string.

(** One pass of the loop of [analyze]. *)
Definition analyze_paragraph (file_name : string) (par : Paragraph) (st : Statistics)
  : option Statistics :=
  let st1 := set_num_slashes (num_slashes st + Z.of_nat (slash_forms par)) st in
  let st2 := set_token_num (token_num st1 + Z.of_nat (length (anno_par par))) st1 in
  let st3 := byd_match file_name matchers (hits par) st2 in
  let st4 := count_per (ents par) st3 in
  let st5 := count_prn (anno_par par) st4 in
  parse_descriptors str_lower glean_norm_values (anno_par par) st5.

(** [analyze(nlp, file_name, article_content, statistics, matchers)]. *)
Definition analyze (file_name : string) (article_content : list Paragraph)
    (st : Statistics) : option Statistics :=
  fold_left (fun acc par => st' ← acc; analyze_paragraph file_name par st')
            article_content (Some st).

(** Lines 243-247: the statistics before the first article. *)
Definition initial_statistics : Statistics :=
  mkStatistics (mkPER ∅ ∅ ∅ ∅ ∅ num_matches_per_default)
               (mkPRN ∅ ∅ num_matches_prn_default)
               (mkDESCR ∅ ∅ ∅ num_matches_descr_default 0)
               GLEAN_default
               (mkBYD_MW ∅ (List.map (fun name => (name, 0)) matchers))
               0 0.

(** Lines 263-267: the statistics an article starts from. *)
Definition article_statistics (prev_stats : Statistics) : Statistics :=
  mkStatistics
    (mkPER (female_per (per prev_stats)) (male_per (per prev_stats))
           (amb_per (per prev_stats)) (nh_per (per prev_stats))
           (ud_per (per prev_stats)) num_matches_per_default)
    (mkPRN (female_prn (prn prev_stats)) (male_prn (prn prev_stats))
           num_matches_prn_default)
    (mkDESCR (female_descriptors (descr prev_stats)) (male_descriptors (descr prev_stats))
             (ud_descriptors (descr prev_stats)) num_matches_descr_default 0)
    GLEAN_default
    (mkBYD_MW (match_lists (byd_mw prev_stats)) (List.map (fun name => (name, 0)) matchers))
    0 0.



End Main.

(** ** helper.py: [flatten_article] *)

(** The value [json.load] returns for an article file.  A Python string is
    the list of its code points here, a [dict] the list of its items in their
    order. *)
#[local] Set Warnings "-register-all".
Inductive JSON :=
| JNull
| JBool (b : bool)
| JInt (n : Z)
| JFloat (x : float)
| JString (s : list N)
| JArray (elems : list JSON)
| JObject (items : list (list N * JSON)).
#[local] Set Warnings "register-all".

(** The exceptions [flatten_article] can raise: [TypeError] for iterating
    over a number, a truth value or [None], and [IndexError] for the first key
    of an empty [dict]. *)
Inductive FlattenError := TypeError | IndexError.

Definition SOFT_HYPHEN : N := 173%N.

(** [re.sub('\xad', '', elem)]. *)
Definition remove_soft_hyphens (s : list N) : list N :=
  List.filter (fun c => negb (N.eqb c SOFT_HYPHEN)) s.

(** What two stretches of a generator yield one after the other, or the
    first exception raised. *)
Definition yield_from (a b : FlattenError + list (list N)) : FlattenError + list (list N) :=
  match a with
  | inl e => inl e
  | inr xs =>
      match b with
      | inl e => inl e
      | inr ys => inr (xs ++ ys)%list
      end
  end.

(** [list(flatten_article(article_dict))]: the strings the generator yields
    when it is run to its end, or the exception it raises.  The loop runs over
    the values of a [dict], the elements of a list or the characters of a
    string; [for_elem] is its body. *)
Fixpoint flatten_article (article_dict : JSON) : FlattenError + list (list N) :=
  let for_elem (elem : JSON) : FlattenError + list (list N) :=
    match elem with
    | JString s => inr [remove_soft_hyphens s]
    | JObject [] => inl IndexError
    | JObject ((key, _) :: _) => yield_from (inr [key]) (flatten_article elem)
    | JNull => inr []
    | _ => flatten_article elem
    end in
  match article_dict with
  | JObject items =>
      (fix values (l : list (list N * JSON)) : FlattenError + list (list N) :=
         match l with
         | [] => inr []
         | (_, elem) :: l' => yield_from (for_elem elem) (values l')
         end) items
  | JArray elems =>
      (fix each (l : list JSON) : FlattenError + list (list N) :=
         match l with
         | [] => inr []
         | elem :: l' => yield_from (for_elem elem) (each l')
         end) elems
  | JString s => inr (List.map (fun c => remove_soft_hyphens [c]) s)
  | _ => inl TypeError
  end.

(** The body of the loop of [flatten_article] (lines 78-84) for one element. *)
Definition flatten_elem (elem : JSON) : FlattenError + list (list N) :=
  match elem with
  | JString s => inr [remove_soft_hyphens s]
  | JObject [] => inl IndexError
  | JObject ((key, _) :: _) => yield_from (inr [key]) (flatten_article elem)
  | JNull => inr []
  | _ => flatten_article elem
  end.

(** ** Dependency trees *)

(** The number of steps from the token at position [i] up to its root, found
    within [fuel] steps along the heads. *)
Fixpoint depth (fuel : nat) (doc : Doc) (i : nat) : option nat :=
  match doc !! i with
  | None => None
  | Some t =>
      if Nat.eqb (head t) i then Some 0%nat
      else match fuel with
           | O => None
           | S fuel' => S <$> depth fuel' doc (head t)
           end
  end.

(** The documents spaCy produces: every head is a token of the document and
    every token reaches a root, a token that is its own head. *)
Definition dependency_tree (doc : Doc) : bool :=
  forallb (fun i => bool_decide (is_Some (depth (length doc) doc i)))
          (seq 0 (length doc)).

(** ** Accumulation across articles *)

(** The sum of two lemma -> count dictionaries. *)
Definition dict_sum (a b : gmap string Z) : gmap string Z :=
  union_with (fun x y => Some (x + y)) a b.







(** ** Notions used in the properties *)

(** The order on gender distributions, leg by leg. *)
Definition Factors_le (p v : Factors) : Prop :=
  f p <= f v /\ m p <= m v /\ ud p <= ud v.

(** What the starting target itself contributes (lines 30-48). *)
Definition primary_occurrences (doc : Doc) (t : option nat) : Factors :=
  match t with
  | None => no_occurrences
  | Some i => from_option start_occurrences no_occurrences (doc !! i)
  end.

(** A target of [doc]: [None], or a position inside the document. *)
Definition target_of (doc : Doc) (t : option nat) : Prop :=
  match t with
  | None => True
  | Some i => (i < length doc)%nat
  end.

(** No sum of the list is the negative zero. *)
Definition no_neg_zero (sums : list float) : bool :=
  forallb (fun s => negb (PrimFloat.Leibniz.eqb s neg_zero)) sums.

(** A conjunct that cuts the chain (the two [else] branches of lines 66-67
    and 76-77): its gender tag is neither PRN:F nor PRN:M, or it has no gender
    tag and an entity label that starts with PER: and is none of the four
    counted labels. *)
Definition cuts_chain (child : Token) : Prop :=
  (exists g, gender_tag child = Some g /\ g <> "PRN:F" /\ g <> "PRN:M") \/
  (gender_tag child = None /\ String.prefix "PER:" (ent_type_ child) = true /\
   ent_type_ child <> PER_F /\ ent_type_ child <> PER_M /\
   ent_type_ child <> "PER:NA" /\ ent_type_ child <> "PER:AMB").

(** The separable-verb particle of the verb at position [verb]: its child in
    relation [svp] (the last one, should there be several), with its
    position. *)
Definition particle_of (doc : Doc) (verb : nat) : option (nat * Token) :=
  last (List.filter (fun c => String.eqb (dep_ (snd c)) "svp") (children doc verb)).

(** The adverb of line 127, before the children of the verb are looked at. *)
Definition head_adverb (tok h hh : Token) : option nat :=
  if String.eqb (dep_ h) "oc" && str_in (pos_ hh) ["ADV"; "AUX"]
  then Some (head h) else None.

(** What stands before the lowercased lemma of the token at position [j] in
    the lemma recorded for it: nothing, or the lowercased lemma of a particle
    (a child in relation [svp]) of that token. *)
Definition particle_prefix (str_lower : string -> string) (doc : Doc) (j : nat)
    (pre : string) : Prop :=
  pre = "" \/
  exists c, In c (children doc j) /\ dep_ (snd c) = "svp" /\
            pre = str_lower (lemma_ (snd c)).

(** The lemma [x] stems from a token that a walk over the conjuncts of a
    descriptor records, the walk having started at a token of depth [d]: a
    conjunct (relation cj) deeper than [d], or an adverbial child of a
    conjunct, which lies at least two steps deeper. *)
Definition walk_source (str_lower : string -> string) (doc : Doc) (d : nat) (x : string)
  : Prop :=
  exists j t dj pre,
    doc !! j = Some t /\ x = (pre ++ str_lower (lemma_ t))%string /\
    particle_prefix str_lower doc j pre /\
    (is_descr_conjunct t = true \/ is_adverbial t = true) /\
    depth (length doc) doc j = Some dj /\
    ((dj = S d /\ is_descr_conjunct t = true) \/ (S d < dj)%nat).

(** ** Example documents *)

(** Python's [str.lower] on the letters A to Z, for the examples. *)
Definition ascii_lower_char (a : Ascii.ascii) : Ascii.ascii :=
  let n := Ascii.nat_of_ascii a in
  if (65 <=? n)%nat && (n <=? 90)%nat then Ascii.ascii_of_nat (n + 32) else a.

Fixpoint ascii_lower (s : string) : string :=
  match s with
  | EmptyString => EmptyString
  | String a s' => String (ascii_lower_char a) (ascii_lower s')
  end.

(** "Die Ärztin und die Lehrerin kommen." *)
Definition two_teachers : Doc :=
  [ mkToken "der" "DET" "nk" 1 ["Nom"] "" None;
    mkToken "Ärztin" "NOUN" "sb" 5 ["Nom"] "" (Some "PRN:F");
    mkToken "und" "CCONJ" "cd" 1 [] "" None;
    mkToken "der" "DET" "nk" 4 ["Nom"] "" None;
    mkToken "Lehrerin" "NOUN" "cj" 2 ["Nom"] "" (Some "PRN:F");
    mkToken "kommen" "VERB" "ROOT" 5 [] "" None;
    mkToken "." "PUNCT" "punct" 5 [] "" None ].

(** "Die Ärztin, der Gast und die Lehrerin kommen.": the conjunct "Gast" has
    neither a gender tag nor an entity label. *)
Definition doctor_guest_teacher : Doc :=
  [ mkToken "der" "DET" "nk" 1 ["Nom"] "" None;
    mkToken "Ärztin" "NOUN" "sb" 8 ["Nom"] "" (Some "PRN:F");
    mkToken "," "PUNCT" "punct" 1 [] "" None;
    mkToken "der" "DET" "nk" 4 ["Nom"] "" None;
    mkToken "Gast" "NOUN" "cj" 1 ["Nom"] "" None;
    mkToken "und" "CCONJ" "cd" 4 [] "" None;
    mkToken "der" "DET" "nk" 7 ["Nom"] "" None;
    mkToken "Lehrerin" "NOUN" "cj" 5 ["Nom"] "" (Some "PRN:F");
    mkToken "kommen" "VERB" "ROOT" 8 [] "" None;
    mkToken "." "PUNCT" "punct" 8 [] "" None ].

(** "Das schöne Haus steht.": the target "Haus" of "schön" has no gender. *)
Definition nice_house : Doc :=
  [ mkToken "der" "DET" "nk" 2 ["Nom"] "" None;
    mkToken "schön" "ADJ" "nk" 2 ["Nom"] "" None;
    mkToken "Haus" "NOUN" "sb" 3 ["Nom"] "" None;
    mkToken "stehen" "VERB" "ROOT" 3 [] "" None;
    mkToken "." "PUNCT" "punct" 3 [] "" None ].

(** "Die Ärztin schläft nicht." *)
Definition doctor_sleeps_not : Doc :=
  [ mkToken "der" "DET" "nk" 1 ["Nom"] "" None;
    mkToken "Ärztin" "NOUN" "sb" 2 ["Nom"] "" (Some "PRN:F");
    mkToken "schlafen" "VERB" "ROOT" 2 [] "" None;
    mkToken "nicht" "PART" "ng" 2 [] "" None;
    mkToken "." "PUNCT" "punct" 2 [] "" None ].

(** "Die Ärztin steht auf." *)
Definition doctor_gets_up : Doc :=
  [ mkToken "der" "DET" "nk" 1 ["Nom"] "" None;
    mkToken "Ärztin" "NOUN" "sb" 2 ["Nom"] "" (Some "PRN:F");
    mkToken "stehen" "VERB" "ROOT" 2 [] "" None;
    mkToken "auf" "ADP" "svp" 2 [] "" None;
    mkToken "." "PUNCT" "punct" 2 [] "" None ].

(** "Die Ärztin steht auf." with the lemmas of the verb and of its particle
    in capitals. *)
Definition doctor_gets_up_capitals : Doc :=
  [ mkToken "der" "DET" "nk" 1 ["Nom"] "" None;
    mkToken "Ärztin" "NOUN" "sb" 2 ["Nom"] "" (Some "PRN:F");
    mkToken "STEHEN" "VERB" "ROOT" 2 [] "" None;
    mkToken "Auf" "ADP" "svp" 2 [] "" None;
    mkToken "." "PUNCT" "punct" 2 [] "" None ].

(** A lexicon with the one entry "aufstehen". *)
Definition lexicon_example : gmap string (list float) :=
  {[ "aufstehen" := [0.5; 0.25; 0.75; 0.125]%float ]}.

(** Two articles with the one paragraph "Die Ärztin steht auf.", without
    slash forms, entities and matches. *)
Definition paragraphs_example : list Paragraph :=
  [ mkParagraph 0 doctor_gets_up [] (fun _ => []) ].

Definition article_two : Article := mkArticle "zwei.json" (Some paragraphs_example).

(** ** Further notions *)

(** The total of the counts of a dictionary. *)
Definition dict_total (d : gmap string Z) : Z :=
  map_fold (fun _ v acc => v + acc) 0 d.

(** The test of line 101 for the token at position [i]. *)
Definition is_negation (doc : Doc) (i : nat) : bool :=
  match doc !! i with
  | Some tok =>
      match doc !! head tok with
      | Some h => String.eqb (dep_ tok) "ng" && str_in (pos_ h) ["VERB"; "AUX"; "ADJ"]
      | None => false
      end
  | None => false
  end.

(** The number of negation tokens of a document. *)
Definition negation_tokens (doc : Doc) : nat :=
  length (List.filter (is_negation doc) (seq 0 (length doc))).

(** The number of times the lemma [k] occurs in a list of lemmas. *)
Definition occurrences (k : string) (descrs : list string) : nat :=
  length (List.filter (String.eqb k) descrs).

(** The statistics after line 102. *)
Definition count_negation (st : Statistics) : Statistics :=
  set_descr (mkDESCR (female_descriptors (descr st)) (male_descriptors (descr st))
                     (ud_descriptors (descr st)) (num_matches_descr (descr st))
                     (num_neg (descr st) + 1)) st.

(** The number of tokens with the gender tag [g]. *)
Definition tagged (g : string) (doc : Doc) : nat :=
  length (List.filter
            (fun t => match gender_tag t with
                      | Some g' => String.eqb g' g
                      | None => false
                      end) doc).

(** A NOUN or PROPN. *)
Definition is_noun (t : Token) : bool :=
  String.eqb (pos_ t) "NOUN" || String.eqb (pos_ t) "PROPN".

(** The number of person entities in a list of entities. *)
Definition person_entities (es : list Entity) : nat :=
  length (List.filter (fun e => String.prefix "PER:" (label_ e)) es).

(** The total of the counts of the five dictionaries of persons. *)
Definition per_total (p : PER) : Z :=
  dict_total (female_per p) + dict_total (male_per p) + dict_total (amb_per p)
  + dict_total (nh_per p) + dict_total (ud_per p).

(** The statistics hold the counters that the passes of [analyze] look up by
    key: PRN:F and PRN:M, which [count_prn] returns, and one counter for each
    matcher, which [match] raises.  Without one of them the pass raises
    [KeyError]. *)
Definition has_counters (matchers : list string) (st : Statistics) : bool :=
  str_in "PRN:F" (List.map fst (num_matches_prn (prn st)))
  && str_in "PRN:M" (List.map fst (num_matches_prn (prn st)))
  && forallb (fun name => str_in name (List.map fst (num_matches (byd_mw st)))) matchers.

(** [len(s)]: the number of characters of a string. *)
Definition char_length (s : string) : nat := length (characters s).

(** A string that does not begin in the middle of a character (every Python
    string is one). *)
Definition whole_characters (s : string) : bool :=
  match s with
  | String b _ => negb (is_continuation b)
  | EmptyString => true
  end.

(** The elements an article is built of: strings, [None], lists of such
    elements, and dictionaries with at least one key whose values are such
    elements. *)
#[local] Set Warnings "-register-all".
Inductive article_elem : JSON -> Prop :=
| elem_string (s : list N) : article_elem (JString s)
| elem_null : article_elem JNull
| elem_array (elems : list JSON) :
    Forall article_elem elems -> article_elem (JArray elems)
| elem_object (item : list N * JSON) (items : list (list N * JSON)) :
    Forall (fun kv => article_elem (snd kv)) (item :: items) ->
    article_elem (JObject (item :: items)).
#[local] Set Warnings "register-all".

(** The element is a number or a truth value, or a list or dictionary that
    holds one at any depth. *)
Fixpoint holds_number (elem : JSON) : bool :=
  match elem with
  | JBool _ | JInt _ | JFloat _ => true
  | JArray elems =>
      (fix any (l : list JSON) : bool :=
         match l with
         | [] => false
         | e :: l' => holds_number e || any l'
         end) elems
  | JObject items =>
      (fix any (l : list (list N * JSON)) : bool :=
         match l with
         | [] => false
         | kv :: l' => holds_number (snd kv) || any l'
         end) items
  | _ => false
  end.

(** The element is an empty dictionary, or a list or dictionary that holds one
    at any depth. *)
Fixpoint holds_empty_dict (elem : JSON) : bool :=
  match elem with
  | JArray elems =>
      (fix any (l : list JSON) : bool :=
         match l with
         | [] => false
         | e :: l' => holds_empty_dict e || any l'
         end) elems
  | JObject items =>
      match items with
      | [] => true
      | _ :: _ =>
          (fix any (l : list (list N * JSON)) : bool :=
             match l with
             | [] => false
             | kv :: l' => holds_empty_dict (snd kv) || any l'
             end) items
      end
  | _ => false
  end.

(** The elements of an article: the values of a dictionary, the elements of
    a list. *)
Definition elements (article_dict : JSON) : list JSON :=
  match article_dict with
  | JObject items => List.map snd items
  | JArray elems => elems
  | _ => []
  end.

(** A number or a truth value, or an empty dictionary, among the elements of
    an article. *)
Definition number_among (article_dict : JSON) : bool :=
  existsb holds_number (elements article_dict).
Definition empty_dict_among (article_dict : JSON) : bool :=
  existsb holds_empty_dict (elements article_dict).

(** The first keys of the dictionaries of an article: its headings. *)
Fixpoint headings (j : JSON) : list (list N) :=
  match j with
  | JArray elems =>
      (fix each (l : list JSON) : list (list N) :=
         match l with
         | [] => []
         | elem :: l' => (headings elem ++ each l')%list
         end) elems
  | JObject items =>
      (match items with
       | (key, _) :: _ => [key]
       | [] => []
       end
       ++ (fix values (l : list (list N * JSON)) : list (list N) :=
             match l with
             | [] => []
             | (_, elem) :: l' => (headings elem ++ values l')%list
             end) items)%list
  | _ => []
  end.

(** Further example inputs. *)
Definition untagged_sentence : Doc :=
  [ mkToken "der" "DET" "nk" 1 ["Nom"] "" None;
    mkToken "Arzt" "NOUN" "sb" 4 ["Nom"] "" None;
    mkToken "und" "CCONJ" "cd" 1 [] "" None;
    mkToken "Lehrerin" "NOUN" "cj" 2 ["Nom"] "" None;
    mkToken "kommen" "VERB" "ROOT" 4 [] "" None ].

Definition hits_example (name : string) : list string :=
  if String.eqb name "gender_incl" then ["Leser*innen"; "Autor:in"] else [].

Definition paragraph_example : Paragraph :=
  mkParagraph 2 doctor_gets_up [mkEntity "Anna Muster" "PER:weiblich"] hits_example.

(** [{'Titel': ['Ein Ab\xadsatz', None, {'Über\xadschrift': ['Text']}]}]. *)
Definition json_example : JSON :=
  JObject
    [ ([84; 105; 116; 101; 108]%N,
       JArray
         [ JString [69; 105; 110; 32; 65; 98; 173; 115; 97; 116; 122]%N;
           JNull;
           JObject [ ([220; 98; 101; 114; 173; 115; 99; 104; 114; 105; 102; 116]%N,
                      JArray [JString [84; 101; 120; 116]%N]) ] ]) ].

(** * Properties *)

(** ** Children and depth *)

Lemma children_spec (doc : Doc) (i j : nat) (c : Token) :
  In (j, c) (children doc i) <-> doc !! j = Some c /\ head c = i /\ j <> i.
Proof.
  unfold children. rewrite filter_In, <- list_elem_of_In, elem_of_lookup_imap.
  simpl. rewrite andb_true_iff, negb_true_iff, Nat.eqb_eq, Nat.eqb_neq.
  split.
  - intros [(k & x & Heq & Hk) [Hh Hne]]. inversion Heq; subst. auto.
  - intros (Hj & Hh & Hne). split; [exists j, c|]; auto.
Qed.

Lemma find_child (doc : Doc) (i j : nat) (c : Token) (p : nat * Token -> bool) :
  List.find p (children doc i) = Some (j, c) ->
  doc !! j = Some c /\ head c = i /\ j <> i /\ p (j, c) = true.
Proof.
  intros Hf. apply find_some in Hf as [Hin Hp].
  apply children_spec in Hin. tauto.
Qed.

Lemma depth_le (fuel : nat) (doc : Doc) (i d : nat) :
  depth fuel doc i = Some d -> (d <= fuel)%nat.
Proof.
  revert i d. induction fuel as [|fuel IH]; intros i d; simpl.
  - destruct (doc !! i) as [t|]; [|discriminate].
    destruct (Nat.eqb (head t) i); [|discriminate].
    intros [= <-]. lia.
  - destruct (doc !! i) as [t|]; [|discriminate].
    destruct (Nat.eqb (head t) i).
    + intros [= <-]. lia.
    + destruct (depth fuel doc (head t)) as [d'|] eqn:Hd; simpl; [|discriminate].
      intros [= <-]. apply IH in Hd. lia.
Qed.

Lemma depth_mono (fuel fuel' : nat) (doc : Doc) (i d : nat) :
  depth fuel doc i = Some d -> (fuel <= fuel')%nat -> depth fuel' doc i = Some d.
Proof.
  revert fuel' i d. induction fuel as [|fuel IH]; intros fuel' i d; simpl.
  - destruct (doc !! i) as [t|] eqn:Ht; [|discriminate].
    destruct (Nat.eqb (head t) i) eqn:Hh; [|discriminate].
    intros [= <-] _. destruct fuel'; simpl; rewrite Ht, Hh; reflexivity.
  - destruct (doc !! i) as [t|] eqn:Ht; [|discriminate].
    destruct (Nat.eqb (head t) i) eqn:Hh.
    + intros [= <-] _. destruct fuel'; simpl; rewrite Ht, Hh; reflexivity.
    + destruct (depth fuel doc (head t)) as [d'|] eqn:Hd; simpl; [|discriminate].
      intros [= <-] Hle. destruct fuel' as [|fuel']; [lia|].
      simpl. rewrite Ht, Hh. erewrite IH; [reflexivity|eassumption|lia].
Qed.

Lemma tree_depth (doc : Doc) (i : nat) :
  dependency_tree doc = true -> (i < length doc)%nat ->
  exists d, depth (length doc) doc i = Some d.
Proof.
  unfold dependency_tree. rewrite forallb_forall. intros Hall Hi.
  specialize (Hall i). rewrite in_seq in Hall.
  assert (H : bool_decide (is_Some (depth (length doc) doc i)) = true) by (apply Hall; lia).
  apply bool_decide_eq_true in H. destruct H as [d Hd]. eauto.
Qed.

Lemma tree_head (doc : Doc) (i : nat) (t : Token) :
  dependency_tree doc = true -> doc !! i = Some t -> is_Some (doc !! head t).
Proof.
  intros Htree Ht.
  destruct (tree_depth doc i Htree) as [d Hd]; [eapply lookup_lt_Some; eauto|].
  destruct (length doc) as [|n]; simpl in Hd; rewrite Ht in Hd.
  - destruct (Nat.eqb (head t) i) eqn:Hh; [|discriminate].
    apply Nat.eqb_eq in Hh. rewrite Hh. eauto.
  - destruct (Nat.eqb (head t) i) eqn:Hh.
    + apply Nat.eqb_eq in Hh. rewrite Hh. eauto.
    + destruct (depth n doc (head t)) as [d'|] eqn:Hd'; [|discriminate].
      destruct n; simpl in Hd'; destruct (doc !! head t); eauto; discriminate.
Qed.

(** A child lies one step deeper than its parent. *)
Lemma child_depth (doc : Doc) (i j d : nat) (c : Token) :
  dependency_tree doc = true ->
  doc !! j = Some c -> head c = i -> j <> i ->
  depth (length doc) doc i = Some d ->
  depth (length doc) doc j = Some (S d).
Proof.
  intros Htree Hj Hh Hne Hd.
  destruct (tree_depth doc j Htree) as [dj Hdj]; [eapply lookup_lt_Some; eauto|].
  rewrite Hdj. f_equal.
  destruct (length doc) as [|n] eqn:Hn; simpl in Hdj; rewrite Hj in Hdj;
    (destruct (Nat.eqb (head c) j) eqn:Hhj; [apply Nat.eqb_eq in Hhj; congruence|]);
    [discriminate|].
  rewrite Hh in Hdj.
  destruct (depth n doc i) as [d'|] eqn:Hd'; simpl in Hdj; [|discriminate].
  injection Hdj as <-.
  apply (depth_mono n (S n)) in Hd'; [|lia]. congruence.
Qed.

(** ** The coordination-chain walk *)

(** On a dependency tree the walk ends: every pass moves one step deeper. *)
Lemma follow_conjuncts_ends (doc : Doc) (fuel tk d : nat) (v : Factors) :
  dependency_tree doc = true ->
  depth (length doc) doc tk = Some d ->
  (length doc < fuel + d)%nat ->
  is_Some (follow_conjuncts fuel doc tk v).
Proof.
  intros Htree. revert tk d v.
  induction fuel as [|fuel IH]; intros tk d v Hd Hlt.
  - apply depth_le in Hd. lia.
  - simpl. unfold next_conjunct.
    destruct (List.find _ (children doc tk)) as [[j child]|] eqn:Hfind; [|eauto].
    apply find_child in Hfind as (Hj & Hh & Hne & _).
    pose proof (child_depth doc tk j d child Htree Hj Hh Hne Hd) as Hdj.
    destruct (is_target_conjunct child).
    + destruct (conjunct_occurrences child v) as [v' new_children].
      destruct new_children; [|eauto].
      apply (IH j (S d)); [assumption|lia].
    + apply (IH j (S d)); [assumption|lia].
Qed.

Lemma obtain_gender_occurrences_total (doc : Doc) (i : nat) :
  dependency_tree doc = true -> (i < length doc)%nat ->
  is_Some (obtain_gender_occurrences doc (Some i)).
Proof.
  intros Htree Hi. unfold obtain_gender_occurrences.
  destruct (lookup_lt_is_Some_2 doc i Hi) as [tok ->].
  destruct (tree_depth doc i Htree Hi) as [d Hd].
  apply (follow_conjuncts_ends doc _ i d); [assumption..|lia].
Qed.

Lemma conjunct_occurrences_le (child : Token) (v : Factors) :
  Factors_le v (fst (conjunct_occurrences child v)).
Proof.
  unfold conjunct_occurrences, Factors_le.
  repeat (match goal with
          | |- context [match ?x with _ => _ end] => destruct x
          end; simpl); lia.
Qed.

Lemma follow_conjuncts_le (fuel : nat) (doc : Doc) (tk : nat) (p v : Factors) :
  follow_conjuncts fuel doc tk p = Some v -> Factors_le p v.
Proof.
  revert tk p. induction fuel as [|fuel IH]; intros tk p; simpl; [discriminate|].
  destruct (next_conjunct doc tk) as [[j child]|].
  - destruct (is_target_conjunct child).
    + pose proof (conjunct_occurrences_le child p) as Hle.
      destruct (conjunct_occurrences child p) as [v' new_children]. simpl in Hle.
      destruct new_children.
      * intros Hv. apply IH in Hv. unfold Factors_le in *. lia.
      * intros [= <-]. exact Hle.
    + apply IH.
  - intros [= <-]. unfold Factors_le. lia.
Qed.

(** The starting target adds one occurrence to at most one leg. *)
Lemma start_occurrences_cases (t : Token) :
  start_occurrences t = mkFactors 0 0 0 \/ start_occurrences t = mkFactors 1 0 0 \/
  start_occurrences t = mkFactors 0 1 0 \/ start_occurrences t = mkFactors 0 0 1.
Proof.
  unfold start_occurrences, add_f, add_m, add_ud, no_occurrences.
  repeat (match goal with
          | |- context [match ?x with _ => _ end] => destruct x
          end; simpl); auto.
Qed.

(** C9.  On every dependency tree [obtain_gender_occurrences] returns, for
    every target, a vector whose legs are not negative; the starting target
    itself adds one occurrence to at most one leg, and the conjuncts of the
    chain only add to that, so that a leg can exceed 1 (it is 2 in "Die
    Ärztin und die Lehrerin kommen."). *)
Theorem gender_vector_invariant :
  (forall (doc : Doc) (t : option nat),
      dependency_tree doc = true -> target_of doc t ->
      exists v,
        obtain_gender_occurrences doc t = Some v /\
        (0 <= f v /\ 0 <= m v /\ 0 <= ud v) /\
        (let p := primary_occurrences doc t in
         (p = mkFactors 0 0 0 \/ p = mkFactors 1 0 0 \/
          p = mkFactors 0 1 0 \/ p = mkFactors 0 0 1) /\
         Factors_le p v)) /\
  (exists (doc : Doc) (t : option nat) (v : Factors),
      dependency_tree doc = true /\
      obtain_gender_occurrences doc t = Some v /\ 1 < f v).
Proof.
  split.
  - intros doc [i|] Htree Ht; simpl in Ht.
    + destruct (obtain_gender_occurrences_total doc i Htree Ht) as [v Hv].
      exists v. split; [exact Hv|].
      unfold obtain_gender_occurrences in Hv. simpl.
      destruct (doc !! i) as [tok|]; [|discriminate]. simpl.
      apply follow_conjuncts_le in Hv.
      pose proof (start_occurrences_cases tok) as Hp.
      split; [|split; assumption].
      unfold Factors_le in Hv.
      destruct Hp as [Hp|[Hp|[Hp|Hp]]]; rewrite Hp in Hv; simpl in Hv; lia.
    + exists no_occurrences. simpl. unfold Factors_le. simpl.
      repeat split; auto; lia.
  - exists two_teachers, (Some 1%nat), (mkFactors 2 0 0).
    repeat split; vm_compute; reflexivity.
Qed.

Lemma gender_vector_invariant_witness :
  dependency_tree two_teachers = true /\
  target_of two_teachers (Some 1%nat) /\
  exists v,
    obtain_gender_occurrences two_teachers (Some 1%nat) = Some v /\
    (0 <= f v /\ 0 <= m v /\ 0 <= ud v) /\
    (let p := primary_occurrences two_teachers (Some 1%nat) in
     (p = mkFactors 0 0 0 \/ p = mkFactors 1 0 0 \/
      p = mkFactors 0 1 0 \/ p = mkFactors 0 0 1) /\
     Factors_le p v).
Proof.
  assert (Htree : dependency_tree two_teachers = true) by reflexivity.
  assert (Ht : target_of two_teachers (Some 1%nat)) by (simpl; lia).
  split; [exact Htree|]. split; [exact Ht|].
  exact (proj1 gender_vector_invariant two_teachers (Some 1%nat) Htree Ht).
Defined.

(** C10.  Without a target [obtain_gender_occurrences] returns the all-zero
    vector whatever the document is: no token is looked at. *)
Theorem no_target_no_occurrences (doc : Doc) :
  obtain_gender_occurrences doc None = Some (mkFactors 0 0 0).
Proof. reflexivity. Qed.

(** C1, as stated, fails: the walk from "Ärztin" follows the conjunct "Gast",
    which carries no gender information, goes on from it, and adds the later
    conjunct "Lehrerin"; the result is (2, 0, 0) and not (1, 0, 0). *)
Lemma untagged_conjunct_is_passed :
  exists gast,
    doctor_guest_teacher !! 4%nat = Some gast /\
    next_conjunct doctor_guest_teacher 1 = Some (4%nat, gast) /\
    is_target_conjunct gast = true /\
    gender_tag gast = None /\
    String.prefix "PER:" (ent_type_ gast) = false /\
    obtain_gender_occurrences doctor_guest_teacher (Some 1%nat) = Some (mkFactors 2 0 0) /\
    obtain_gender_occurrences doctor_guest_teacher (Some 1%nat) <> Some (mkFactors 1 0 0).
Proof.
  eexists. repeat split; try (vm_compute; reflexivity).
  vm_compute. discriminate.
Qed.

(** One pass of the walk at a child that is followed. *)
Lemma follow_conjuncts_step (fuel : nat) (doc : Doc) (tk : nat) (v : Factors)
    (j : nat) (child : Token) :
  next_conjunct doc tk = Some (j, child) ->
  follow_conjuncts (S fuel) doc tk v
  = if is_target_conjunct child then
      if snd (conjunct_occurrences child v)
      then follow_conjuncts fuel doc j (fst (conjunct_occurrences child v))
      else Some (fst (conjunct_occurrences child v))
    else follow_conjuncts fuel doc j v.
Proof.
  intros Hnext. simpl. rewrite Hnext.
  destruct (is_target_conjunct child); [|reflexivity].
  destruct (conjunct_occurrences child v) as [v' new_children]. reflexivity.
Qed.

(** C1, amended.  The walk stops at the first child that is a conjunct
    (relation cj, NOUN or PROPN, nominative) or a conjunction, and goes on
    from it.  A conjunction adds nothing.  A conjunct tagged PRN:F or labelled
    PER:weiblich adds 1 to the female leg, one tagged PRN:M or labelled
    PER:männlich 1 to the male leg, one labelled PER:NA or PER:AMB 1 to the
    undetermined leg, and a conjunct that carries no gender information (no
    gender tag and no PER: label) adds nothing; in all these cases the walk
    goes on from the conjunct, so that later conjuncts are still added.  The
    walk ends at a followed conjunct, with nothing added for it, exactly when
    the conjunct cuts the chain: its gender tag is neither PRN:F nor PRN:M, or
    it has no gender tag and a PER: label that is none of the four counted
    ones.  Every conjunct falls under exactly these cases. *)
Theorem conjunct_walk_step (fuel : nat) (doc : Doc) (tk : nat) (v : Factors)
    (j : nat) (child : Token) :
  next_conjunct doc tk = Some (j, child) ->
  (is_target_conjunct child = false ->
   follow_conjuncts (S fuel) doc tk v = follow_conjuncts fuel doc j v) /\
  (is_target_conjunct child = true ->
   (gender_tag child = Some "PRN:F" ->
    follow_conjuncts (S fuel) doc tk v = follow_conjuncts fuel doc j (add_f v)) /\
   (gender_tag child = Some "PRN:M" ->
    follow_conjuncts (S fuel) doc tk v = follow_conjuncts fuel doc j (add_m v)) /\
   (gender_tag child = None -> ent_type_ child = PER_F ->
    follow_conjuncts (S fuel) doc tk v = follow_conjuncts fuel doc j (add_f v)) /\
   (gender_tag child = None -> ent_type_ child = PER_M ->
    follow_conjuncts (S fuel) doc tk v = follow_conjuncts fuel doc j (add_m v)) /\
   (gender_tag child = None -> ent_type_ child = "PER:NA" \/ ent_type_ child = "PER:AMB" ->
    follow_conjuncts (S fuel) doc tk v = follow_conjuncts fuel doc j (add_ud v)) /\
   (gender_tag child = None -> String.prefix "PER:" (ent_type_ child) = false ->
    follow_conjuncts (S fuel) doc tk v = follow_conjuncts fuel doc j v) /\
   (cuts_chain child -> follow_conjuncts (S fuel) doc tk v = Some v) /\
   (snd (conjunct_occurrences child v) = false <-> cuts_chain child)) /\
  (cuts_chain child \/
   gender_tag child = Some "PRN:F" \/ gender_tag child = Some "PRN:M" \/
   (gender_tag child = None /\
    (ent_type_ child = PER_F \/ ent_type_ child = PER_M \/
     ent_type_ child = "PER:NA" \/ ent_type_ child = "PER:AMB" \/
     String.prefix "PER:" (ent_type_ child) = false))).
Proof.
  intros Hnext.
  pose proof (follow_conjuncts_step fuel doc tk v j child Hnext) as Hstep.
  split; [intros Hcj; rewrite Hstep, Hcj; reflexivity|].
  split.
  - intros Hcj. rewrite Hcj in Hstep. rewrite Hstep. clear Hstep Hnext.
    unfold conjunct_occurrences, cuts_chain.
    repeat split.
    + intros ->. reflexivity.
    + intros ->. reflexivity.
    + intros -> ->. reflexivity.
    + intros -> ->. reflexivity.
    + intros -> [-> | ->]; reflexivity.
    + intros -> ->. reflexivity.
    + intros [(g & -> & HF & HM)|(-> & -> & HF & HM & HNA & HAMB)].
      * apply String.eqb_neq in HF, HM. rewrite HF, HM. reflexivity.
      * apply String.eqb_neq in HF, HM, HNA, HAMB. rewrite HF, HM, HNA, HAMB. reflexivity.
    + destruct (gender_tag child) as [g|].
      * destruct (String.eqb_spec g "PRN:F"); [discriminate|].
        destruct (String.eqb_spec g "PRN:M"); [discriminate|].
        intros _. left. exists g. repeat split; auto.
      * destruct (String.prefix "PER:" (ent_type_ child)); [|discriminate].
        destruct (String.eqb_spec (ent_type_ child) PER_F); [discriminate|].
        destruct (String.eqb_spec (ent_type_ child) PER_M); [discriminate|].
        destruct (String.eqb_spec (ent_type_ child) "PER:NA"); [discriminate|].
        destruct (String.eqb_spec (ent_type_ child) "PER:AMB"); [discriminate|].
        intros _. right. repeat split; auto.
    + intros [(g & -> & HF & HM)|(-> & -> & HF & HM & HNA & HAMB)].
      * apply String.eqb_neq in HF, HM. rewrite HF, HM. reflexivity.
      * apply String.eqb_neq in HF, HM, HNA, HAMB. rewrite HF, HM, HNA, HAMB. reflexivity.
  - clear Hstep Hnext. unfold cuts_chain.
    destruct (gender_tag child) as [g|].
    + destruct (String.eqb_spec g "PRN:F") as [->|HF]; [auto|].
      destruct (String.eqb_spec g "PRN:M") as [->|HM]; [auto|].
      left. left. exists g. repeat split; auto.
    + destruct (String.prefix "PER:" (ent_type_ child)) eqn:Hper;
        [|right; right; right; split; [reflexivity|]; auto 6].
      destruct (String.eqb_spec (ent_type_ child) PER_F) as [HF|HF];
        [right; right; right; auto|].
      destruct (String.eqb_spec (ent_type_ child) PER_M) as [HM|HM];
        [right; right; right; auto|].
      destruct (String.eqb_spec (ent_type_ child) "PER:NA") as [HNA|HNA];
        [right; right; right; auto 6|].
      destruct (String.eqb_spec (ent_type_ child) "PER:AMB") as [HAMB|HAMB];
        [right; right; right; auto 6|].
      left. right. repeat split; auto.
Qed.

(** In "Die Ärztin, der Gast und die Lehrerin kommen." the walk from "Ärztin"
    passes the conjunct "Gast", which carries no gender information, and the
    conjunction "und", and adds the conjunct "Lehrerin", tagged PRN:F. *)
Lemma conjunct_walk_step_witness :
  follow_conjuncts 12 doctor_guest_teacher 1 (mkFactors 1 0 0)
  = follow_conjuncts 9 doctor_guest_teacher 7 (mkFactors 2 0 0).
Proof.
  transitivity (follow_conjuncts 11 doctor_guest_teacher 4 (mkFactors 1 0 0)).
  { apply (proj1 (proj2 (proj2 (proj2 (proj2 (proj2
             (proj1 (proj2 (conjunct_walk_step 11 doctor_guest_teacher 1 (mkFactors 1 0 0) 4
                              (mkToken "Gast" "NOUN" "cj" 1 ["Nom"] "" None) eq_refl))
                eq_refl))))))); reflexivity. }
  transitivity (follow_conjuncts 10 doctor_guest_teacher 5 (mkFactors 1 0 0)).
  { apply (proj1 (conjunct_walk_step 10 doctor_guest_teacher 4 (mkFactors 1 0 0) 5
                    (mkToken "und" "CCONJ" "cd" 4 [] "" None) eq_refl)); reflexivity. }
  apply (proj1 (proj1 (proj2 (conjunct_walk_step 9 doctor_guest_teacher 5 (mkFactors 1 0 0) 7
                                (mkToken "Lehrerin" "NOUN" "cj" 5 ["Nom"] "" (Some "PRN:F"))
                                eq_refl))
                  eq_refl)); reflexivity.
Defined.

(** ** [add_descriptor] *)

Lemma counters_add_zip_descr (a b c x y z : Z) :
  counters_add_zip [("DESCR:F", a); ("DESCR:M", b); ("DESCR:NA", c)] [x; y; z]
  = [("DESCR:F", a + x); ("DESCR:M", b + y); ("DESCR:NA", c + z)].
Proof. reflexivity. Qed.

(** A finite float is a zero or a signed mantissa with an exponent. *)
Lemma finite_cases (b : float) :
  is_finite b = true ->
  (exists s, Prim2SF b = S754_zero s) \/ (exists s mm e, Prim2SF b = S754_finite s mm e).
Proof.
  unfold is_finite. rewrite negb_true_iff, orb_false_iff. intros [Hn Hi].
  unfold Prim2SF. rewrite Hn, Hi.
  destruct (is_zero b); [left; eauto|].
  destruct (Z.frexp b) as [r e].
  destruct (shr_fexp _ _ _ _ _) as [sh e'].
  destruct (shr_m sh); [left; eauto|right; eauto|left; eauto].
Qed.

(** [s + 0*b] is [s] for a finite [b], unless [s] is the negative zero (which
    a positive zero turns into the positive zero). *)
Lemma add_zero_scaled (s b : float) :
  is_finite b = true -> s <> neg_zero ->
  (s + float_of_int 0 * b)%float = s.
Proof.
  intros Hb Hs. apply Prim2SF_inj.
  rewrite add_spec, mul_spec.
  assert (Hz : exists sz, SF64mul (Prim2SF (float_of_int 0)) (Prim2SF b) = S754_zero sz).
  { change (Prim2SF (float_of_int 0)) with (S754_zero false).
    destruct (finite_cases b Hb) as [[sb ->]|(sb & mm & e & ->)]; simpl; eauto. }
  destruct Hz as [sz ->].
  destruct (Prim2SF s) as [ss| | |] eqn:Hps; try reflexivity.
  destruct ss; simpl.
  - exfalso. apply Hs. apply Prim2SF_inj. rewrite Hps. reflexivity.
  - destruct sz; reflexivity.
Qed.

Lemma add_scaled_zero (sums entry : list float) :
  forallb is_finite entry = true -> no_neg_zero sums = true ->
  (length sums <= length entry)%nat ->
  add_scaled 0 sums entry = sums.
Proof.
  unfold add_scaled, no_neg_zero. revert entry.
  induction sums as [|s sums IH]; intros [|b entry]; simpl; try reflexivity; try lia.
  rewrite !andb_true_iff, negb_true_iff. intros [Hb Hbs] [Hs Hss] Hlen.
  rewrite add_zero_scaled, IH; auto; [lia|].
  intros ->. rewrite (proj2 (FloatAxioms.Leibniz.eqb_spec neg_zero neg_zero)) in Hs by reflexivity.
  discriminate.
Qed.

(** C3.  For a lemma that is not in the lexicon, [add_descriptor] adds the
    three legs of the vector to the three not-found counters and leaves the
    three sentiment sums as they are. *)
Theorem add_descriptor_lexicon_miss (glean_norm_values : gmap string (list float))
    (descriptor : string) (factors : Factors) (st : Statistics) (nf nm nud : Z) :
  glean_norm_values !! descriptor = None ->
  glean_not_found (glean st) = [("DESCR:F", nf); ("DESCR:M", nm); ("DESCR:NA", nud)] ->
  let g' := glean (add_descriptor glean_norm_values descriptor factors st) in
  glean_not_found g'
  = [("DESCR:F", nf + f factors); ("DESCR:M", nm + m factors); ("DESCR:NA", nud + ud factors)]
  /\ female_glean g' = female_glean (glean st)
  /\ male_glean g' = male_glean (glean st)
  /\ ud_glean g' = ud_glean (glean st).
Proof.
  intros Hmiss Hnf. unfold add_descriptor. simpl. rewrite Hmiss. simpl.
  rewrite Hnf, counters_add_zip_descr. auto.
Qed.

(** [add_descriptor("zzznotfound", (1,1,0))] on fresh statistics, with a
    lexicon that has no such entry. *)
Lemma add_descriptor_lexicon_miss_witness :
  let lexicon : gmap string (list float) := {[ "klug" := [1; 2; 3; 4]%float ]} in
  let g' := glean (add_descriptor lexicon "zzznotfound" (mkFactors 1 1 0)
                     (initial_statistics [])) in
  glean_not_found g' = [("DESCR:F", 1); ("DESCR:M", 1); ("DESCR:NA", 0)]
  /\ female_glean g' = GLEAN_INIT /\ male_glean g' = GLEAN_INIT /\ ud_glean g' = GLEAN_INIT.
Proof.
  exact (add_descriptor_lexicon_miss {[ "klug" := [1; 2; 3; 4]%float ]} "zzznotfound"
           (mkFactors 1 1 0) (initial_statistics []) 0 0 0 eq_refl eq_refl).
Defined.

(** The range of the conversion: the largest integer that converts is the
    last one below [2^1024 - 2^970], which rounds to the largest finite float;
    the next one rounds to infinity. *)
Lemma float_range_boundary :
  in_float_range (2 ^ 1024 - 2 ^ 970 - 1) = true /\
  is_finite (float_of_int (2 ^ 1024 - 2 ^ 970 - 1)) = true /\
  in_float_range (2 ^ 1024 - 2 ^ 970) = false /\
  is_finite (float_of_int (2 ^ 1024 - 2 ^ 970)) = false /\
  in_float_range (- (2 ^ 1024 - 2 ^ 970)) = false /\
  is_finite (float_of_int (- (2 ^ 1024 - 2 ^ 970))) = false.
Proof. repeat split; vm_compute; reflexivity. Qed.

(** A leg outside the range of the floats: on a lexicon hit the call raises
    [OverflowError]. *)
Lemma add_descriptor_overflow :
  add_descriptor_call {[ "schön" := [0.5; 0.25; 0.75; 0.125]%float ]} "schön"
    (mkFactors (10 ^ 400) 0 0) (initial_statistics [])
  = inl OverflowError.
Proof. vm_compute. reflexivity. Qed.

(** C4.  For a lemma with a lexicon entry and a vector whose legs are in the
    range of the floats, the call [add_descriptor] returns, and it has added
    the entry, scaled by the female, male and undetermined leg, to the
    female, male and undetermined sentiment sum, component by component.  A
    leg that is zero adds nothing: the sum stays as it is when the entry is
    finite (and the sum has an entry for each of its components and no
    negative zero). *)
Theorem add_descriptor_lexicon_hit (glean_norm_values : gmap string (list float))
    (descriptor : string) (factors : Factors) (st : Statistics) (entry : list float) :
  glean_norm_values !! descriptor = Some entry ->
  in_float_range (f factors) = true ->
  in_float_range (m factors) = true ->
  in_float_range (ud factors) = true ->
  let g := glean st in
  let g' := glean (add_descriptor glean_norm_values descriptor factors st) in
  add_descriptor_call glean_norm_values descriptor factors st
  = inr (add_descriptor glean_norm_values descriptor factors st)
  /\ (female_glean g'
      = zip_with (fun a b => (a + float_of_int (f factors) * b)%float) (female_glean g) entry
      /\ male_glean g'
         = zip_with (fun a b => (a + float_of_int (m factors) * b)%float) (male_glean g) entry
      /\ ud_glean g'
         = zip_with (fun a b => (a + float_of_int (ud factors) * b)%float) (ud_glean g) entry)
  /\ (forallb is_finite entry = true ->
      (f factors = 0 -> no_neg_zero (female_glean g) = true ->
       (length (female_glean g) <= length entry)%nat -> female_glean g' = female_glean g)
      /\ (m factors = 0 -> no_neg_zero (male_glean g) = true ->
          (length (male_glean g) <= length entry)%nat -> male_glean g' = male_glean g)
      /\ (ud factors = 0 -> no_neg_zero (ud_glean g) = true ->
          (length (ud_glean g) <= length entry)%nat -> ud_glean g' = ud_glean g)).
Proof.
  intros Hhit Hf Hm Hud. split.
  { unfold add_descriptor_call, scaling_overflows. rewrite Hhit, Hf, Hm, Hud. reflexivity. }
  unfold add_descriptor. simpl. rewrite Hhit. simpl.
  split; [auto|].
  intros Hfin. repeat split; intros -> Hnz Hlen; apply add_scaled_zero; assumption.
Qed.

(** [add_descriptor("schön", (2,0,1))] with the entry (0.5, 0.25, 0.75, 0.125):
    the call returns, twice the entry goes to the female sum, once the entry
    to the undetermined sum, and the male sum is unchanged. *)
Lemma add_descriptor_lexicon_hit_witness :
  let lexicon : gmap string (list float) := {[ "schön" := [0.5; 0.25; 0.75; 0.125]%float ]} in
  let g' := glean (add_descriptor lexicon "schön" (mkFactors 2 0 1) (initial_statistics [])) in
  add_descriptor_call lexicon "schön" (mkFactors 2 0 1) (initial_statistics [])
  = inr (add_descriptor lexicon "schön" (mkFactors 2 0 1) (initial_statistics []))
  /\ female_glean g' = [1; 0.5; 1.5; 0.25]%float
  /\ ud_glean g' = [0.5; 0.25; 0.75; 0.125]%float
  /\ male_glean g' = [0; 0; 0; 0]%float.
Proof.
  pose proof (add_descriptor_lexicon_hit {[ "schön" := [0.5; 0.25; 0.75; 0.125]%float ]}
                "schön" (mkFactors 2 0 1) (initial_statistics [])
                [0.5; 0.25; 0.75; 0.125]%float eq_refl eq_refl eq_refl eq_refl)
    as (Hcall & (Hf & _ & Hud) & Hzero).
  split; [exact Hcall|]. split; [exact Hf|]. split; [exact Hud|].
  apply (proj1 (proj2 (Hzero eq_refl))); reflexivity.
Defined.

(** The instance of the lexicon scaling for "schön" and the vector (2, 0, 1). *)
Lemma add_descriptor_schoen (glean_norm_values : gmap string (list float))
    (st : Statistics) (a v i c f1 f2 f3 f4 u1 u2 u3 u4 : float) :
  glean_norm_values !! "schön" = Some [a; v; i; c] ->
  female_glean (glean st) = [f1; f2; f3; f4] ->
  ud_glean (glean st) = [u1; u2; u3; u4] ->
  let g' := glean (add_descriptor glean_norm_values "schön" (mkFactors 2 0 1) st) in
  female_glean g' = [f1 + 2 * a; f2 + 2 * v; f3 + 2 * i; f4 + 2 * c]%float
  /\ ud_glean g' = [u1 + 1 * a; u2 + 1 * v; u3 + 1 * i; u4 + 1 * c]%float
  /\ male_glean g'
     = zip_with (fun s b => (s + 0 * b)%float) (male_glean (glean st)) [a; v; i; c].
Proof.
  intros Hhit Hf Hu. unfold add_descriptor. simpl. rewrite Hhit. simpl.
  rewrite Hf, Hu. repeat split.
Qed.

(** ** [parse_descriptors] *)

Lemma str_in_In (x : string) (l : list string) : str_in x l = true <-> In x l.
Proof.
  unfold str_in. rewrite existsb_exists. split.
  - intros (y & Hin & Heq). apply String.eqb_eq in Heq. congruence.
  - intros Hin. exists x. split; [assumption|apply String.eqb_refl].
Qed.

Lemma string_app_nil_r (s : string) : (s ++ "")%string = s.
Proof.
  induction s as [|a s IH]; [reflexivity|].
  change (String a (s ++ "") = String a s). rewrite IH. reflexivity.
Qed.

Lemma children_lt (doc : Doc) (i : nat) (c : nat * Token) :
  In c (children doc i) -> (fst c < length doc)%nat /\ head (snd c) = i.
Proof.
  destruct c as [j c]. intros Hin. apply children_spec in Hin as (Hj & Hh & _).
  split; [eapply lookup_lt_Some; eauto|assumption].
Qed.

Section DescriptorProperties.

Variable str_lower : string -> string.
Variable glean_norm_values : gmap string (list float).

Lemma follow_descr_conjuncts_ends (doc : Doc) (fuel tk d : nat) (nested : list string) :
  dependency_tree doc = true ->
  depth (length doc) doc tk = Some d ->
  (length doc < fuel + d)%nat ->
  is_Some (follow_descr_conjuncts str_lower fuel doc tk nested).
Proof.
  intros Htree. revert tk d nested.
  induction fuel as [|fuel IH]; intros tk d nested Hd Hlt.
  - apply depth_le in Hd. lia.
  - simpl. unfold next_descr_conjunct.
    destruct (List.find _ (children doc tk)) as [[j child]|] eqn:Hfind; [|eauto].
    apply find_child in Hfind as (Hj & Hh & Hne & _).
    pose proof (child_depth doc tk j d child Htree Hj Hh Hne Hd) as Hdj.
    destruct (is_descr_conjunct child).
    + destruct (if String.eqb (pos_ child) "VERB" then _ else _) as [svp_c nested1].
      apply (IH j (S d)); [assumption|lia].
    + apply (IH j (S d)); [assumption|lia].
Qed.

Lemma nested_descriptors_total (doc : Doc) (descriptor : nat) (adv : option nat) :
  dependency_tree doc = true ->
  (descriptor < length doc)%nat ->
  (forall a, adv = Some a -> (a < length doc)%nat) ->
  is_Some (nested_descriptors str_lower doc descriptor adv).
Proof.
  intros Htree Hd Hadv. unfold nested_descriptors.
  destruct (tree_depth doc descriptor Htree Hd) as [d Hdepth].
  destruct (follow_descr_conjuncts_ends doc (S (length doc)) descriptor d [] Htree Hdepth)
    as [from_descr Hfd]; [lia|].
  rewrite Hfd. destruct adv as [a|]; [|simpl; eauto].
  specialize (Hadv a eq_refl).
  destruct (tree_depth doc a Htree Hadv) as [da Hda].
  destruct (follow_descr_conjuncts_ends doc (S (length doc)) a da [] Htree Hda)
    as [from_adv Hfa]; [lia|].
  destruct (lookup_lt_is_Some_2 doc a Hadv) as [a_tok Ha].
  rewrite Hfa, Ha. simpl. eauto.
Qed.

Lemma scan_verb_children_adv (hi n : nat) (cs : list (nat * Token)) (svp : string)
    (adv : option nat) :
  (forall c, In c cs -> (fst c < n)%nat) ->
  (forall a, adv = Some a -> (a < n)%nat) ->
  forall a, snd (scan_verb_children str_lower hi cs svp adv) = Some a -> (a < n)%nat.
Proof.
  unfold scan_verb_children. revert svp adv.
  induction cs as [|c cs IH]; intros svp adv Hcs Hadv; simpl; [exact Hadv|].
  destruct (String.eqb (dep_ (snd c)) "svp" && Nat.eqb (head (snd c)) hi).
  - apply IH; [intros; apply Hcs; right; assumption|exact Hadv].
  - destruct (negb (bool_decide (is_Some adv)) && is_adverbial (snd c)).
    + apply IH; [intros; apply Hcs; right; assumption|].
      intros a [= <-]. apply Hcs. left. reflexivity.
    + apply IH; [intros; apply Hcs; right; assumption|exact Hadv].
Qed.

(** The particle prefix lines 130-132 leave in [svp]. *)
Lemma scan_verb_children_svp (hi : nat) (cs : list (nat * Token)) (svp : string)
    (adv : option nat) :
  (forall c, In c cs -> head (snd c) = hi) ->
  fst (scan_verb_children str_lower hi cs svp adv)
  = match last (List.filter (fun c => String.eqb (dep_ (snd c)) "svp") cs) with
    | Some c => str_lower (lemma_ (snd c))
    | None => svp
    end.
Proof.
  unfold scan_verb_children. revert svp adv.
  induction cs as [|c cs IH] using rev_ind; intros svp adv Hcs; [reflexivity|].
  rewrite fold_left_app, List.filter_app. simpl.
  assert (Hc : head (snd c) = hi) by (apply Hcs, in_or_app; right; left; reflexivity).
  rewrite Hc, Nat.eqb_refl, andb_true_r.
  destruct (String.eqb (dep_ (snd c)) "svp").
  - rewrite last_snoc. simpl. unfold SVP_DELIMITER. apply string_app_nil_r.
  - rewrite app_nil_r.
    rewrite <- (IH svp adv) by (intros; apply Hcs, in_or_app; left; assumption).
    destruct (negb _ && _); reflexivity.
Qed.

Lemma obtain_gender_occurrences_target (doc : Doc) (t : option nat) :
  dependency_tree doc = true ->
  (forall i, t = Some i -> (i < length doc)%nat) ->
  is_Some (obtain_gender_occurrences doc t).
Proof.
  intros Htree Ht. destruct t as [i|]; [|simpl; eauto].
  apply obtain_gender_occurrences_total; auto.
Qed.

Lemma find_subject_lt (doc : Doc) (hi : nat) (h hh : Token) (n : nat) :
  (head h < length doc)%nat ->
  find_subject doc hi h hh = Some n -> (n < length doc)%nat.
Proof.
  unfold find_subject. intros Hh.
  destruct (_ && _); [intros [= <-]; exact Hh|].
  destruct (List.find _ (children doc hi)) as [[j c]|] eqn:Hfind; simpl; [|discriminate].
  intros [= <-]. apply find_some in Hfind as [Hin _].
  apply children_lt in Hin. tauto.
Qed.

(** On a dependency tree lines 100-140 yield a pattern for every token, with
    a descriptor and an adverb inside the document. *)
Lemma classify_total (doc : Doc) (i : nat) (tok h hh : Token) :
  dependency_tree doc = true ->
  doc !! i = Some tok -> doc !! head tok = Some h -> doc !! head h = Some hh ->
  exists pattern,
    classify str_lower doc i tok h hh = Some pattern /\
    match pattern with
    | Descriptor _ descriptor adv _ =>
        (descriptor < length doc)%nat /\ forall a, adv = Some a -> (a < length doc)%nat
    | _ => True
    end.
Proof.
  intros Htree Htok Hh Hhh.
  assert (Hi : (i < length doc)%nat) by (eapply lookup_lt_Some; eauto).
  assert (Hhi : (head tok < length doc)%nat) by (eapply lookup_lt_Some; eauto).
  assert (Hhhi : (head h < length doc)%nat) by (eapply lookup_lt_Some; eauto).
  unfold classify.
  destruct (_ && _); [exists Negation; auto|].
  destruct (_ && _).
  { destruct (obtain_gender_occurrences_total doc (head tok) Htree Hhi) as [v ->].
    simpl. eexists. split; [reflexivity|]. split; [exact Hi|discriminate]. }
  destruct (_ && _).
  { destruct (obtain_gender_occurrences_target doc (find_subject doc (head tok) h hh) Htree)
      as [v ->].
    - intros n Hn. eapply find_subject_lt; eauto.
    - simpl. eexists. split; [reflexivity|]. split; [exact Hi|discriminate]. }
  destruct (_ && _); [|exists NoPattern; auto].
  destruct (obtain_gender_occurrences_total doc i Htree Hi) as [v ->]. simpl.
  destruct (scan_verb_children _ _ _ _ _) as [svp adv] eqn:Hscan.
  eexists. split; [reflexivity|]. split; [exact Hhi|].
  intros a Ha.
  eapply (scan_verb_children_adv (head tok) (length doc)); [| |rewrite Hscan; exact Ha].
  - intros c Hc. apply children_lt in Hc. tauto.
  - intros a'. destruct (_ && _); [intros [= <-]; exact Hhhi|discriminate].
Qed.

(** On a dependency tree every pass of the loop of [parse_descriptors] yields
    statistics. *)
Lemma parse_token_total (doc : Doc) (i : nat) (st : Statistics) :
  dependency_tree doc = true -> (i < length doc)%nat ->
  is_Some (parse_token str_lower glean_norm_values doc i st).
Proof.
  intros Htree Hi.
  destruct (lookup_lt_is_Some_2 doc i Hi) as [tok Htok].
  destruct (tree_head doc i tok Htree Htok) as [h Hh].
  destruct (tree_head doc (head tok) h Htree Hh) as [hh Hhh].
  destruct (classify_total doc i tok h hh Htree Htok Hh Hhh) as (pattern & Hcl & Hpat).
  unfold parse_token. rewrite Htok. simpl. rewrite Hh. simpl. rewrite Hhh. simpl.
  rewrite Hcl. simpl.
  destruct pattern as [| |factors descriptor adv svp]; eauto.
  destruct (all_zero factors); eauto.
  destruct Hpat as [Hd Hadv].
  unfold recorded_descriptors.
  destruct (nested_descriptors_total doc descriptor adv Htree Hd Hadv) as [nested ->].
  destruct (lookup_lt_is_Some_2 doc descriptor Hd) as [d_tok ->]. simpl. eauto.
Qed.

Lemma parse_descriptors_total (doc : Doc) (st : Statistics) :
  dependency_tree doc = true ->
  is_Some (parse_descriptors str_lower glean_norm_values doc st).
Proof.
  intros Htree. unfold parse_descriptors.
  assert (Hl : forall i, In i (seq 0 (length doc)) -> (i < length doc)%nat)
    by (intros i Hin; apply in_seq in Hin; lia).
  revert Hl. generalize (seq 0 (length doc)) as l. intros l. revert st.
  induction l as [|i l IH]; intros st Hl; simpl; [eauto|].
  destruct (parse_token_total doc i st Htree) as [st' ->]; [apply Hl; left; reflexivity|].
  apply IH. intros j Hj. apply Hl. right. exact Hj.
Qed.

(** C6.  A token in relation [ng] whose head is a VERB, AUX or ADJ adds 1 to
    the negation counter and changes nothing else of the statistics. *)
Theorem negation_only_counts (doc : Doc) (i : nat) (tok h hh : Token) (st : Statistics) :
  doc !! i = Some tok -> doc !! head tok = Some h -> doc !! head h = Some hh ->
  dep_ tok = "ng" -> In (pos_ h) ["VERB"; "AUX"; "ADJ"] ->
  parse_token str_lower glean_norm_values doc i st
  = Some (mkStatistics
            (per st) (prn st)
            (mkDESCR (female_descriptors (descr st)) (male_descriptors (descr st))
                     (ud_descriptors (descr st)) (num_matches_descr (descr st))
                     (num_neg (descr st) + 1))
            (glean st) (byd_mw st) (token_num st) (num_slashes st)).
Proof.
  intros Htok Hh Hhh Hdep Hpos. unfold parse_token.
  rewrite Htok. simpl. rewrite Hh. simpl. rewrite Hhh. simpl.
  unfold classify. rewrite Hdep. apply str_in_In in Hpos. rewrite Hpos. reflexivity.
Qed.

(** C5.  A token that matches a descriptor pattern and whose computed vector
    is all-zero leaves the statistics as they are: [parse_token] returns them
    unchanged, which is a result and no error. *)
Theorem zero_vector_is_skipped (doc : Doc) (i : nat) (tok h hh : Token)
    (factors : Factors) (descriptor : nat) (adv : option nat) (svp : string)
    (st : Statistics) :
  doc !! i = Some tok -> doc !! head tok = Some h -> doc !! head h = Some hh ->
  classify str_lower doc i tok h hh = Some (Descriptor factors descriptor adv svp) ->
  f factors = 0 -> m factors = 0 -> ud factors = 0 ->
  parse_token str_lower glean_norm_values doc i st = Some st.
Proof.
  intros Htok Hh Hhh Hcl Hf Hm Hud. unfold parse_token.
  rewrite Htok. simpl. rewrite Hh. simpl. rewrite Hhh. simpl. rewrite Hcl. simpl.
  unfold all_zero. rewrite Hf, Hm, Hud. reflexivity.
Qed.

(** The vector of a descriptor pattern is the one [obtain_gender_occurrences]
    computes for its target. *)
Lemma classify_factors (doc : Doc) (i : nat) (tok h hh : Token)
    (factors : Factors) (descriptor : nat) (adv : option nat) (svp : string) :
  classify str_lower doc i tok h hh = Some (Descriptor factors descriptor adv svp) ->
  exists t, obtain_gender_occurrences doc t = Some factors.
Proof.
  unfold classify.
  repeat match goal with
         | |- context [if ?b then _ else _] => destruct b
         end; try discriminate;
  match goal with
  | |- context [obtain_gender_occurrences doc ?t] =>
      destruct (obtain_gender_occurrences doc t) as [v|] eqn:Hv; simpl; [|discriminate];
      try destruct (scan_verb_children _ _ _ _ _);
      intros [= <- _ _ _]; exists t; exact Hv
  end.
Qed.

(** Lines 111-122: a predicate of an auxiliary for which no subject is found
    gets the all-zero vector of [obtain_gender_occurrences(None)], and the
    token is skipped. *)
Lemma predicate_without_subject (doc : Doc) (i : nat) (tok h hh : Token) (st : Statistics) :
  doc !! i = Some tok -> doc !! head tok = Some h -> doc !! head h = Some hh ->
  In (dep_ tok) ["pd"; "oc"] -> pos_ h = "AUX" -> In (pos_ tok) ["ADV"; "VERB"] ->
  find_subject doc (head tok) h hh = None ->
  classify str_lower doc i tok h hh = Some (Descriptor (mkFactors 0 0 0) i None "") /\
  parse_token str_lower glean_norm_values doc i st = Some st.
Proof.
  intros Htok Hh Hhh Hdep Hpos Hptok Hnone.
  assert (Hcl : classify str_lower doc i tok h hh
                = Some (Descriptor (mkFactors 0 0 0) i None "")).
  { unfold classify. rewrite Hpos, Hnone. apply str_in_In in Hptok. rewrite Hptok.
    destruct Hdep as [<-|[<-|[]]]; reflexivity. }
  split; [exact Hcl|].
  unfold parse_token. rewrite Htok. simpl. rewrite Hh. simpl. rewrite Hhh. simpl.
  rewrite Hcl. reflexivity.
Qed.

(** Lines 125-137: the pattern of a nominative NOUN/PROPN subject of a verb. *)
Lemma classify_subject (doc : Doc) (i : nat) (tok h hh : Token) :
  dep_ tok = "sb" -> pos_ h = "VERB" -> str_in (pos_ tok) TARGET_POS = true ->
  is_nom tok = true ->
  classify str_lower doc i tok h hh
  = match obtain_gender_occurrences doc (Some i) with
    | Some factors =>
        let '(svp, adv) :=
          scan_verb_children str_lower (head tok) (children doc (head tok)) ""
            (if String.eqb (dep_ h) "oc" && str_in (pos_ hh) ["ADV"; "AUX"]
             then Some (head h) else None) in
        Some (Descriptor factors (head tok) adv svp)
    | None => None
    end.
Proof.
  intros Hdep Hpos Htarget Hnom. unfold classify.
  rewrite Hdep, Hpos, Htarget, Hnom. reflexivity.
Qed.

(** The adverb lines 127-136 leave in [adv]: the one found before, or an
    adverbial child of the verb. *)
Lemma scan_verb_children_adv_source (hi : nat) (cs : list (nat * Token)) (svp : string)
    (adv : option nat) (a : nat) :
  snd (scan_verb_children str_lower hi cs svp adv) = Some a ->
  adv = Some a \/ exists c, In (a, c) cs /\ is_adverbial c = true.
Proof.
  unfold scan_verb_children. revert svp adv.
  induction cs as [|c cs IH]; intros svp adv; simpl; [auto|].
  destruct (String.eqb (dep_ (snd c)) "svp" && Nat.eqb (head (snd c)) hi).
  - intros H. apply IH in H as [H|(c' & Hin & Hc')]; [auto|right; eauto].
  - destruct (negb (bool_decide (is_Some adv)) && is_adverbial (snd c)) eqn:Hcond.
    + intros H. apply IH in H as [[= <-]|(c' & Hin & Hc')]; [|right; eauto].
      right. exists (snd c). apply andb_true_iff in Hcond as [_ Hadvl].
      split; [left; destruct c; reflexivity|exact Hadvl].
    + intros H. apply IH in H as [H|(c' & Hin & Hc')]; [auto|right; eauto].
Qed.

(** The lemmas lines 158-163 append: those of adverbial children of the
    conjunct. *)
Lemma scan_conjunct_children_sources (doc : Doc) (j dj : nat) (cs : list (nat * Token))
    (nested : list string) :
  dependency_tree doc = true -> depth (length doc) doc j = Some dj ->
  (forall c, In c cs -> In c (children doc j)) ->
  exists extra,
    snd (scan_conjunct_children str_lower j cs nested) = (nested ++ extra)%list /\
    Forall (fun x => exists q t,
                doc !! q = Some t /\ x = str_lower (lemma_ t) /\
                is_adverbial t = true /\ depth (length doc) doc q = Some (S dj)) extra.
Proof.
  intros Htree Hdj. unfold scan_conjunct_children.
  generalize (@None string) as svp. revert nested.
  induction cs as [|c cs IH]; intros nested svp Hcs; simpl.
  - exists []. rewrite app_nil_r. split; [reflexivity|constructor].
  - destruct (String.eqb (dep_ (snd c)) "svp" && Nat.eqb (head (snd c)) j).
    + apply IH. intros; apply Hcs; right; assumption.
    + destruct (is_adverbial (snd c)) eqn:Hadv.
      * destruct (IH (nested ++ [str_lower (lemma_ (snd c))])%list svp)
          as (extra & Heq & Hall); [intros; apply Hcs; right; assumption|].
        exists (str_lower (lemma_ (snd c)) :: extra). split.
        -- rewrite Heq, <- app_assoc. reflexivity.
        -- constructor; [|exact Hall].
           destruct c as [q t]. specialize (Hcs (q, t) (or_introl eq_refl)).
           apply children_spec in Hcs as (Hq & Hh & Hne).
           exists q, t. repeat split; auto. eapply child_depth; eauto.
      * apply IH. intros; apply Hcs; right; assumption.
Qed.

(** The particle prefix lines 158-161 leave in [svp_c]. *)
Lemma scan_conjunct_children_prefix (j : nat) (all cs : list (nat * Token))
    (acc : option string * list string) (s : string) :
  (forall c, In c cs -> In c all) ->
  (forall s0, fst acc = Some s0 ->
              exists c, In c all /\ dep_ (snd c) = "svp" /\
                        s0 = str_lower (lemma_ (snd c))) ->
  fst (fold_left
         (fun acc c =>
            if String.eqb (dep_ (snd c)) "svp" && Nat.eqb (head (snd c)) j
            then (Some (str_lower (lemma_ (snd c)) ++ SVP_DELIMITER)%string, snd acc)
            else if is_adverbial (snd c)
            then (fst acc, (snd acc ++ [str_lower (lemma_ (snd c))])%list)
            else acc)
         cs acc) = Some s ->
  exists c, In c all /\ dep_ (snd c) = "svp" /\ s = str_lower (lemma_ (snd c)).
Proof.
  revert acc.
  induction cs as [|c cs IH]; intros acc Hcs Hacc; [apply Hacc|].
  cbn [fold_left]. apply IH; [intros; apply Hcs; right; assumption|].
  destruct (String.eqb (dep_ (snd c)) "svp" && Nat.eqb (head (snd c)) j) eqn:Hsvp.
  - cbn [fst]. intros s0 [= <-]. exists c.
    split; [apply Hcs; left; reflexivity|].
    apply andb_true_iff in Hsvp as [Hsvp _]. apply String.eqb_eq in Hsvp.
    split; [exact Hsvp|]. unfold SVP_DELIMITER. apply string_app_nil_r.
  - destruct (is_adverbial (snd c)); cbn [fst]; exact Hacc.
Qed.

Lemma walk_source_deeper (doc : Doc) (d : nat) (x : string) :
  walk_source str_lower doc (S d) x -> walk_source str_lower doc d x.
Proof.
  intros (j & t & dj & pre & Hj & Hx & Hpre & Hkind & Hdj & Hdeep).
  exists j, t, dj, pre. repeat split; auto; try (right; lia).
Qed.

(** The lemmas a walk over the conjuncts of a descriptor appends stem from
    tokens below the token the walk starts at. *)
Lemma follow_descr_conjuncts_sources (doc : Doc) (fuel tk d : nat)
    (nested r : list string) :
  dependency_tree doc = true -> depth (length doc) doc tk = Some d ->
  follow_descr_conjuncts str_lower fuel doc tk nested = Some r ->
  exists extra, r = (nested ++ extra)%list /\ Forall (walk_source str_lower doc d) extra.
Proof.
  intros Htree. revert tk d nested.
  induction fuel as [|fuel IH]; intros tk d nested Hd; simpl; [discriminate|].
  unfold next_descr_conjunct.
  destruct (List.find _ (children doc tk)) as [[j child]|] eqn:Hfind.
  2:{ intros [= <-]. exists []. rewrite app_nil_r. split; [reflexivity|constructor]. }
  apply find_child in Hfind as (Hj & Hh & Hne & _).
  pose proof (child_depth doc tk j d child Htree Hj Hh Hne Hd) as Hdj.
  destruct (is_descr_conjunct child) eqn:Hconj.
  - assert (Hscan : exists extra1,
               snd (if String.eqb (pos_ child) "VERB"
                    then scan_conjunct_children str_lower j (children doc j) nested
                    else (None, nested)) = (nested ++ extra1)%list /\
               Forall (walk_source str_lower doc d) extra1 /\
               forall pre,
                 svp_prefix (fst (if String.eqb (pos_ child) "VERB"
                                  then scan_conjunct_children str_lower j (children doc j)
                                         nested
                                  else (None, nested))) = Some pre ->
                 particle_prefix str_lower doc j pre).
    { destruct (String.eqb (pos_ child) "VERB").
      - destruct (scan_conjunct_children_sources doc j (S d) (children doc j) nested
                    Htree Hdj) as (extra1 & Heq & Hall); [auto|].
        exists extra1. split; [exact Heq|]. split.
        + eapply Forall_impl; [exact Hall|]. simpl.
          intros x (q & t & Hq & Hx & Hadv & Hdq).
          exists q, t, (S (S d)), EmptyString.
          repeat split; auto; try (left; reflexivity); try (right; lia).
        + intros pre Hpre. right.
          destruct (fst (scan_conjunct_children str_lower j (children doc j) nested))
            as [s|] eqn:Hs; [|discriminate].
          simpl in Hpre. destruct (String.eqb s ""); [discriminate|].
          injection Hpre as <-.
          apply (scan_conjunct_children_prefix j (children doc j) (children doc j)
                   (None, nested) s); [auto|discriminate|exact Hs].
      - exists []. rewrite app_nil_r. split; [reflexivity|].
        split; [constructor|discriminate]. }
    destruct (if String.eqb (pos_ child) "VERB" then _ else _) as [svp_c nested1].
    destruct Hscan as (extra1 & Heq1 & Hall1 & Hprefix). simpl in Heq1, Hprefix.
    subst nested1.
    intros Hrest. apply (IH j (S d)) in Hrest as (extra2 & -> & Hall2); [|exact Hdj].
    assert (Hentry : forall pre,
               particle_prefix str_lower doc j pre ->
               walk_source str_lower doc d (pre ++ str_lower (lemma_ child))%string).
    { intros pre Hpre. exists j, child, (S d), pre. repeat split; auto. }
    destruct (svp_prefix svp_c) as [pre|].
    + exists (extra1 ++ [(pre ++ str_lower (lemma_ child))%string] ++ extra2)%list.
      split; [rewrite <- !app_assoc; reflexivity|].
      apply Forall_app. split; [exact Hall1|].
      apply Forall_app. split; [constructor; [apply Hentry; auto|constructor]|].
      eapply Forall_impl; [exact Hall2|]. apply walk_source_deeper.
    + exists (extra1 ++ [str_lower (lemma_ child)] ++ extra2)%list.
      split; [rewrite <- !app_assoc; reflexivity|].
      apply Forall_app. split; [exact Hall1|].
      apply Forall_app.
      split; [constructor; [apply (Hentry EmptyString); left; reflexivity|constructor]|].
      eapply Forall_impl; [exact Hall2|]. apply walk_source_deeper.
  - intros Hrest. apply (IH j (S d)) in Hrest as (extra2 & -> & Hall2); [|exact Hdj].
    exists extra2. split; [reflexivity|].
    eapply Forall_impl; [exact Hall2|]. apply walk_source_deeper.
Qed.

(** The count of a lemma after a list of lemmas has been handed to
    [add_descriptor]: a lemma of the list has an entry, the other entries are
    as before. *)
Lemma add_descriptors_entry (descrs : list string) (factors : Factors) (st : Statistics)
    (k : string) :
  let st' := add_descriptors glean_norm_values descrs factors st in
  let n := occurrences k descrs in
  female_descriptors (descr st') !! k
  = (if (0 <? n)%nat
     then Some (default 0 (female_descriptors (descr st) !! k) + Z.of_nat n * f factors)
     else female_descriptors (descr st) !! k)
  /\ male_descriptors (descr st') !! k
     = (if (0 <? n)%nat
        then Some (default 0 (male_descriptors (descr st) !! k) + Z.of_nat n * m factors)
        else male_descriptors (descr st) !! k)
  /\ ud_descriptors (descr st') !! k
     = (if (0 <? n)%nat
        then Some (default 0 (ud_descriptors (descr st) !! k) + Z.of_nat n * ud factors)
        else ud_descriptors (descr st) !! k).
Proof.
  unfold add_descriptors, occurrences. revert st.
  induction descrs as [|d descrs IH]; intros st; [simpl; auto|].
  cbn [fold_left List.filter].
  destruct (IH (add_descriptor glean_norm_values d factors st)) as (Hf & Hm & Hud).
  cbn zeta in Hf, Hm, Hud. cbn zeta.
  rewrite Hf, Hm, Hud. clear Hf Hm Hud IH.
  unfold add_descriptor. cbn [descr set_glean set_descr female_descriptors
                               male_descriptors ud_descriptors].
  unfold dict_incr.
  destruct (String.eqb_spec k d) as [->|Hne].
  - rewrite !lookup_insert_eq. cbn [length default].
    destruct (length (List.filter (String.eqb d) descrs)) as [|n'] eqn:Hn.
    + cbn [Nat.ltb Nat.leb]. repeat split; apply f_equal; lia.
    + cbn [Nat.ltb Nat.leb]. unfold id. repeat split; apply f_equal; lia.
  - rewrite !lookup_insert_ne by congruence. auto.
Qed.

(** C7.  For a nominative NOUN/PROPN subject of a verb that has a particle
    child, the lemma recorded for the verb is the lowercased lemma of the
    particle directly followed by the lowercased lemma of the verb.  When the
    vector of the subject is not all-zero, each descriptor dictionary gets an
    entry for this lemma and for the lemmas of the conjuncts and adverbs of
    the verb, raised by the leg of the vector for each time the lemma is
    recorded, and every other entry is as before.  Each lemma of the
    conjuncts and adverbs is the lowercased lemma of a token other than the
    verb and its particle, behind the lowercased lemma of a particle of that
    token if it has one: the verb and its particle are recorded together, as
    one lemma, and not on their own. *)
Theorem particle_prefixes_verb (doc : Doc) (i q : nat) (tok h hh p : Token)
    (st : Statistics) :
  dependency_tree doc = true ->
  doc !! i = Some tok -> doc !! head tok = Some h -> doc !! head h = Some hh ->
  dep_ tok = "sb" -> pos_ h = "VERB" -> In (pos_ tok) TARGET_POS -> is_nom tok = true ->
  particle_of doc (head tok) = Some (q, p) ->
  let descriptor := (str_lower (lemma_ p) ++ str_lower (lemma_ h))%string in
  let adv := snd (scan_verb_children str_lower (head tok) (children doc (head tok)) ""
                    (head_adverb tok h hh)) in
  exists factors nested_descr st',
    obtain_gender_occurrences doc (Some i) = Some factors /\
    nested_descriptors str_lower doc (head tok) adv = Some nested_descr /\
    Forall (fun x => exists j t pre,
                doc !! j = Some t /\ j <> head tok /\ j <> q /\
                particle_prefix str_lower doc j pre /\
                x = (pre ++ str_lower (lemma_ t))%string) nested_descr /\
    parse_token str_lower glean_norm_values doc i st = Some st' /\
    (all_zero factors = true -> st' = st) /\
    (all_zero factors = false ->
     forall k,
       let n := occurrences k (descriptor :: nested_descr) in
       female_descriptors (descr st') !! k
       = (if (0 <? n)%nat
          then Some (default 0 (female_descriptors (descr st) !! k) + Z.of_nat n * f factors)
          else female_descriptors (descr st) !! k)
       /\ male_descriptors (descr st') !! k
          = (if (0 <? n)%nat
             then Some (default 0 (male_descriptors (descr st) !! k) + Z.of_nat n * m factors)
             else male_descriptors (descr st) !! k)
       /\ ud_descriptors (descr st') !! k
          = (if (0 <? n)%nat
             then Some (default 0 (ud_descriptors (descr st) !! k) + Z.of_nat n * ud factors)
             else ud_descriptors (descr st) !! k)).
Proof.
  intros Htree Htok Hh Hhh Hdep Hpos Htarget Hnom Hp descriptor adv.
  assert (Hi : (i < length doc)%nat) by (eapply lookup_lt_Some; eauto).
  assert (Hhi : (head tok < length doc)%nat) by (eapply lookup_lt_Some; eauto).
  assert (Hhhi : (head h < length doc)%nat) by (eapply lookup_lt_Some; eauto).
  destruct (obtain_gender_occurrences_total doc i Htree Hi) as [factors Hfactors].
  destruct (scan_verb_children str_lower (head tok) (children doc (head tok)) ""
              (head_adverb tok h hh)) as [svp adv'] eqn:Hscan.
  assert (Hadv' : adv = adv') by reflexivity.
  clearbody adv. subst adv'.
  (* the particle *)
  assert (Hq : doc !! q = Some p /\ head p = head tok /\ q <> head tok /\ dep_ p = "svp").
  { unfold particle_of in Hp. apply last_Some in Hp as (l' & Hl').
    assert (Hin : In (q, p) (List.filter (fun c => String.eqb (dep_ (snd c)) "svp")
                                         (children doc (head tok)))).
    { rewrite Hl'. apply in_or_app. right. left. reflexivity. }
    apply filter_In in Hin as [Hin Hsvp]. apply children_spec in Hin as (? & ? & ?).
    apply String.eqb_eq in Hsvp. auto. }
  destruct Hq as (Hq & Hqh & Hqne & Hqdep).
  assert (Hsvp : svp = str_lower (lemma_ p)).
  { pose proof (scan_verb_children_svp (head tok) (children doc (head tok)) ""
                  (head_adverb tok h hh)) as Hs.
    rewrite Hscan in Hs. simpl in Hs. rewrite Hs.
    - unfold particle_of in Hp. rewrite Hp. reflexivity.
    - intros c Hc. apply children_lt in Hc. tauto. }
  assert (Hadv : forall a, adv = Some a -> (a < length doc)%nat).
  { intros a Ha.
    apply (scan_verb_children_adv (head tok) (length doc) (children doc (head tok)) ""
             (head_adverb tok h hh)).
    - intros c Hc. apply children_lt in Hc. tauto.
    - unfold head_adverb. intros a'. destruct (_ && _); [intros [= <-]; exact Hhhi|discriminate].
    - rewrite Hscan. exact Ha. }
  destruct (nested_descriptors_total doc (head tok) adv Htree Hhi Hadv) as [nested Hnested].
  exists factors, nested.
  assert (Hclass : classify str_lower doc i tok h hh
                   = Some (Descriptor factors (head tok) adv svp)).
  { apply str_in_In in Htarget. rewrite classify_subject by assumption.
    rewrite Hfactors. fold (head_adverb tok h hh). rewrite Hscan. reflexivity. }
  assert (Hrec : recorded_descriptors str_lower doc (head tok) adv svp
                 = Some (descriptor :: nested)).
  { unfold recorded_descriptors. rewrite Hnested, Hh, Hsvp. reflexivity. }
  assert (Hparse : parse_token str_lower glean_norm_values doc i st
                   = Some (if all_zero factors then st
                           else add_descriptors glean_norm_values (descriptor :: nested)
                                  factors st)).
  { unfold parse_token. rewrite Htok. simpl. rewrite Hh. simpl. rewrite Hhh. simpl.
    rewrite Hclass. simpl.
    destruct (all_zero factors); [reflexivity|].
    rewrite Hrec. reflexivity. }
  exists (if all_zero factors then st
          else add_descriptors glean_norm_values (descriptor :: nested) factors st).
  split; [exact Hfactors|]. split; [exact Hnested|].
  split; [|split; [exact Hparse|split]].
  - (* the sources of the nested lemmas *)
    destruct (tree_depth doc (head tok) Htree Hhi) as [dh Hdh].
    pose proof (child_depth doc (head tok) q dh p Htree Hq Hqh Hqne Hdh) as Hdq.
    assert (Hnotp : is_descr_conjunct p = false /\ is_adverbial p = false).
    { unfold is_descr_conjunct, is_adverbial. rewrite Hqdep. split; reflexivity. }
    assert (Hwalk : forall d x,
               walk_source str_lower doc d x ->
               (dh <= d)%nat \/ (S d = dh /\ is_descr_conjunct h = false) ->
               exists j t pre,
                 doc !! j = Some t /\ j <> head tok /\ j <> q /\
                 particle_prefix str_lower doc j pre /\
                 x = (pre ++ str_lower (lemma_ t))%string).
    { intros d x (j & t & dj & pre & Hj & Hx & Hpre & Hkind & Hdj & Hdeep) Hd.
      exists j, t, pre. repeat split; auto.
      - intros ->. rewrite Hh in Hj. injection Hj as <-.
        rewrite Hdh in Hdj. injection Hdj as <-.
        destruct Hd as [Hd|[Hd Hnc]]; destruct Hdeep as [[Hdeep Hc]|Hdeep];
          try lia; congruence.
      - intros ->. rewrite Hq in Hj. injection Hj as <-.
        destruct Hnotp. destruct Hkind; congruence. }
    unfold nested_descriptors in Hnested.
    destruct (follow_descr_conjuncts str_lower (S (length doc)) doc (head tok) [])
      as [from_descr|] eqn:Hfd; [|discriminate].
    destruct adv as [a|].
    + destruct (follow_descr_conjuncts str_lower (S (length doc)) doc a [])
        as [from_adv|] eqn:Hfa; [|discriminate].
      destruct (doc !! a) as [a_tok|] eqn:Ha; [|discriminate].
      injection Hnested as <-.
      destruct (tree_depth doc a Htree (Hadv a eq_refl)) as [da Hda].
      apply (follow_descr_conjuncts_sources doc _ a da [] from_adv Htree Hda) in Hfa
        as (extra & -> & Hall).
      pose proof (scan_verb_children_adv_source (head tok) (children doc (head tok)) ""
                    (head_adverb tok h hh) a) as Hsrc.
      rewrite Hscan in Hsrc. specialize (Hsrc eq_refl).
      assert (Hcase : a <> head tok /\ a <> q /\
                      ((dh <= da)%nat \/ (S da = dh /\ is_descr_conjunct h = false))).
      { destruct Hsrc as [Hhead|(c & Hin & Hc)].
        - unfold head_adverb in Hhead.
          destruct (String.eqb (dep_ h) "oc" && str_in (pos_ hh) ["ADV"; "AUX"]) eqn:Hcond;
            [|discriminate].
          injection Hhead as <-.
          apply andb_true_iff in Hcond as [Hoc Hhhpos]. apply String.eqb_eq in Hoc.
          assert (Hne : head tok <> head h).
          { intros Heq. rewrite <- Heq, Hh in Hhh. injection Hhh as <-.
            rewrite Hpos in Hhhpos. discriminate. }
          pose proof (child_depth doc (head h) (head tok) da h Htree Hh eq_refl Hne Hda)
            as Hdh'.
          rewrite Hdh in Hdh'. injection Hdh' as ->.
          split; [congruence|]. split.
          + intros Heq. rewrite Heq, Hdq in Hda. injection Hda as Hda. lia.
          + right. split; [reflexivity|].
            unfold is_descr_conjunct. rewrite Hoc. reflexivity.
        - apply children_spec in Hin as (Hac & Hch & Hane).
          pose proof (child_depth doc (head tok) a dh c Htree Hac Hch Hane Hdh) as Hda'.
          rewrite Hda in Hda'. injection Hda' as ->.
          split; [exact Hane|]. split; [|left; lia].
          intros ->. rewrite Hq in Hac. injection Hac as <-.
          destruct Hnotp. congruence. }
      destruct Hcase as (Hane & Haq & Hd).
      apply Forall_app. split.
      * simpl. eapply Forall_impl; [exact Hall|]. simpl. intros x Hx. eapply Hwalk; eauto.
      * constructor; [|constructor].
        exists a, a_tok, EmptyString. repeat split; auto. left. reflexivity.
    + injection Hnested as <-.
      apply (follow_descr_conjuncts_sources doc _ (head tok) dh [] from_descr Htree Hdh)
        in Hfd as (extra & -> & Hall).
      simpl. eapply Forall_impl; [exact Hall|]. simpl. intros x Hx.
      eapply Hwalk; eauto.
  - intros ->. reflexivity.
  - intros Hz k. rewrite Hz. apply add_descriptors_entry.
Qed.

End DescriptorProperties.

Lemma negation_only_counts_witness :
  parse_token ascii_lower ∅ doctor_sleeps_not 3 (initial_statistics [])
  = Some (mkStatistics
            (mkPER ∅ ∅ ∅ ∅ ∅ num_matches_per_default)
            (mkPRN ∅ ∅ num_matches_prn_default)
            (mkDESCR ∅ ∅ ∅ num_matches_descr_default (0 + 1))
            GLEAN_default (mkBYD_MW ∅ []) 0 0).
Proof.
  apply (negation_only_counts ascii_lower ∅ doctor_sleeps_not 3
           (mkToken "nicht" "PART" "ng" 2 [] "" None)
           (mkToken "schlafen" "VERB" "ROOT" 2 [] "" None)
           (mkToken "schlafen" "VERB" "ROOT" 2 [] "" None)
           (initial_statistics []));
    try reflexivity.
  simpl. auto.
Defined.

Lemma zero_vector_is_skipped_witness :
  obtain_gender_occurrences nice_house (Some 2%nat) = Some (mkFactors 0 0 0) /\
  parse_token ascii_lower ∅ nice_house 1 (initial_statistics []) = Some (initial_statistics []).
Proof.
  split; [reflexivity|].
  apply (zero_vector_is_skipped ascii_lower ∅ nice_house 1
           (mkToken "schön" "ADJ" "nk" 2 ["Nom"] "" None)
           (mkToken "Haus" "NOUN" "sb" 3 ["Nom"] "" None)
           (mkToken "stehen" "VERB" "ROOT" 3 [] "" None)
           (mkFactors 0 0 0) 1 None "" (initial_statistics []));
    reflexivity.
Defined.

(** "Die Ärztin steht auf." with the lemmas "STEHEN" and "Auf": the one lemma
    "aufstehen" is recorded, once for a female target, and neither "stehen"
    nor "auf". *)
Lemma particle_prefixes_verb_witness :
  exists st',
    parse_token ascii_lower ∅ doctor_gets_up_capitals 1 (initial_statistics []) = Some st' /\
    female_descriptors (descr st') !! "aufstehen" = Some 1 /\
    male_descriptors (descr st') !! "aufstehen" = Some 0 /\
    ud_descriptors (descr st') !! "aufstehen" = Some 0 /\
    female_descriptors (descr st') !! "stehen" = None /\
    female_descriptors (descr st') !! "auf" = None.
Proof.
  destruct (particle_prefixes_verb ascii_lower ∅ doctor_gets_up_capitals 1 3
              (mkToken "Ärztin" "NOUN" "sb" 2 ["Nom"] "" (Some "PRN:F"))
              (mkToken "STEHEN" "VERB" "ROOT" 2 [] "" None)
              (mkToken "STEHEN" "VERB" "ROOT" 2 [] "" None)
              (mkToken "Auf" "ADP" "svp" 2 [] "" None)
              (initial_statistics [])
              eq_refl eq_refl eq_refl eq_refl eq_refl eq_refl (or_introl eq_refl)
              eq_refl eq_refl)
    as (factors & nested & st' & Hf & Hn & _ & Hparse & _ & Hnz).
  vm_compute in Hf. injection Hf as <-.
  vm_compute in Hn. injection Hn as <-.
  specialize (Hnz eq_refl).
  exists st'. split; [exact Hparse|].
  split; [exact (proj1 (Hnz "aufstehen"))|].
  split; [exact (proj1 (proj2 (Hnz "aufstehen")))|].
  split; [exact (proj2 (proj2 (Hnz "aufstehen")))|].
  split; [exact (proj1 (Hnz "stehen"))|exact (proj1 (Hnz "auf"))].
Defined.

(** "Die Ärztin steht auf." records the one descriptor "aufstehen", once for
    a female target; neither "stehen" nor "auf" is recorded. *)
Lemma doctor_gets_up_descriptors :
  exists st,
    parse_descriptors ascii_lower ∅ doctor_gets_up (initial_statistics []) = Some st /\
    female_descriptors (descr st) = {[ "aufstehen" := 1 ]} /\
    male_descriptors (descr st) = {[ "aufstehen" := 0 ]} /\
    ud_descriptors (descr st) = {[ "aufstehen" := 0 ]} /\
    num_matches_descr (descr st) = [("DESCR:F", 1); ("DESCR:M", 0); ("DESCR:NA", 0)].
Proof.
  eexists. split; [vm_compute; reflexivity|].
  repeat split; apply map_eq; intros k; vm_compute; reflexivity.
Qed.

(** ** [gender_prn] *)

Lemma gender_prn_lookup (prn_male prn_female : list string) (doc : Doc) (i : nat) :
  gender_prn prn_male prn_female doc !! i
  = gender_prn_token prn_male prn_female <$> doc !! i.
Proof.
  unfold gender_prn. revert i.
  induction doc as [|t doc IH]; intros [|i]; simpl; auto.
Qed.

Lemma str_in_elem_of (x : string) (l : list string) : str_in x l = true <-> x ∈ l.
Proof. rewrite str_in_In, list_elem_of_In. reflexivity. Qed.

(** C8.  [gender_prn] keeps the tokens of the document and writes nothing
    but the gender tag: a NOUN or PROPN whose lemma is in the male list is
    tagged PRN:M (also when the lemma is in the female list as well), one
    whose lemma is only in the female list is tagged PRN:F, and every other
    token keeps the tag it had, which is none on the documents of the
    pipeline. *)
Theorem gender_prn_tags (prn_male prn_female : list string) (doc : Doc) (i : nat)
    (token : Token) :
  doc !! i = Some token ->
  length (gender_prn prn_male prn_female doc) = length doc /\
  exists token',
    gender_prn prn_male prn_female doc !! i = Some token' /\
    lemma_ token' = lemma_ token /\ pos_ token' = pos_ token /\
    dep_ token' = dep_ token /\ head token' = head token /\
    morph_case token' = morph_case token /\ ent_type_ token' = ent_type_ token /\
    gender token'
    = if decide (pos_ token = "NOUN" \/ pos_ token = "PROPN") then
        if decide (lemma_ token ∈ prn_male) then Some "PRN:M"
        else if decide (lemma_ token ∈ prn_female) then Some "PRN:F"
        else gender token
      else gender token.
Proof.
  intros Htok. split; [apply length_map|].
  exists (gender_prn_token prn_male prn_female token).
  rewrite gender_prn_lookup, Htok. split; [reflexivity|].
  unfold gender_prn_token.
  destruct (String.eqb_spec (pos_ token) "NOUN") as [HN|HN];
    destruct (String.eqb_spec (pos_ token) "PROPN") as [HP|HP]; simpl.
  all: destruct (decide (pos_ token = "NOUN" \/ pos_ token = "PROPN")) as [Hpos|Hpos];
    try (exfalso; tauto); try (repeat split; reflexivity).
  all: destruct (str_in (lemma_ token) prn_male) eqn:Hm;
    [apply str_in_elem_of in Hm; rewrite decide_True by assumption; repeat split; reflexivity|].
  all: assert (Hm' : lemma_ token ∉ prn_male)
    by (rewrite <- str_in_elem_of, Hm; discriminate);
    rewrite decide_False by assumption.
  all: destruct (str_in (lemma_ token) prn_female) eqn:Hf;
    [apply str_in_elem_of in Hf; rewrite decide_True by assumption; repeat split; reflexivity|].
  all: assert (Hf' : lemma_ token ∉ prn_female)
    by (rewrite <- str_in_elem_of, Hf; discriminate);
    rewrite decide_False by assumption; repeat split; reflexivity.
Qed.

(** "Arzt" is in both lists and is tagged PRN:M. *)
Lemma gender_prn_tags_witness :
  let doc := [ mkToken "der" "DET" "nk" 1 ["Nom"] "" None;
               mkToken "Arzt" "NOUN" "sb" 2 ["Nom"] "" None;
               mkToken "kommen" "VERB" "ROOT" 2 [] "" None ] in
  let tagged := gender_prn ["Arzt"; "Lehrer"] ["Ärztin"; "Arzt"] doc in
  length tagged = length doc /\
  exists token',
    tagged !! 1%nat = Some token' /\
    lemma_ token' = "Arzt" /\ pos_ token' = "NOUN" /\ dep_ token' = "sb" /\
    head token' = 2%nat /\ morph_case token' = ["Nom"] /\ ent_type_ token' = "" /\
    gender token' = Some "PRN:M".
Proof.
  exact (gender_prn_tags ["Arzt"; "Lehrer"] ["Ärztin"; "Arzt"]
           [ mkToken "der" "DET" "nk" 1 ["Nom"] "" None;
             mkToken "Arzt" "NOUN" "sb" 2 ["Nom"] "" None;
             mkToken "kommen" "VERB" "ROOT" 2 [] "" None ]
           1 (mkToken "Arzt" "NOUN" "sb" 2 ["Nom"] "" None) eq_refl).
Defined.

(** ** The loop over the articles *)

Lemma dict_sum_lookup (a b : gmap string Z) (k : string) :
  dict_sum a b !! k = union_with (fun x y => Some (x + y)) (a !! k) (b !! k).
Proof. apply lookup_union_with. Qed.

(** A count of the sum is the sum of the counts. *)
Lemma dict_sum_get (a b : gmap string Z) (k : string) :
  default 0 (dict_sum a b !! k) = default 0 (a !! k) + default 0 (b !! k).
Proof.
  rewrite dict_sum_lookup. destruct (a !! k), (b !! k); simpl; lia.
Qed.






Section ArticleProperties.

Variable str_lower : string -> string.
Variable glean_norm_values : gmap string (list float).
Variable matchers : list string.












End ArticleProperties.



(** * Further properties *)

(** ** Dictionaries and counters *)

Lemma dict_total_insert_fresh (k : string) (v : Z) (d : gmap string Z) :
  d !! k = None -> dict_total (<[k := v]> d) = v + dict_total d.
Proof.
  intros Hk. unfold dict_total.
  apply (map_fold_insert_L (fun (_ : string) (x acc : Z) => x + acc)); [|exact Hk].
  intros. lia.
Qed.

(** [d[k] = d.get(k, 0) + n] raises the total of the counts by [n]. *)
Lemma dict_total_incr (k : string) (n : Z) (d : gmap string Z) :
  dict_total (dict_incr k n d) = dict_total d + n.
Proof.
  unfold dict_incr. destruct (d !! k) as [v|] eqn:Hk; simpl.
  - rewrite <- (insert_delete_eq d k (v + n)).
    rewrite <- (insert_delete_id d k v Hk) at 2.
    rewrite !dict_total_insert_fresh by apply lookup_delete_eq. lia.
  - rewrite dict_total_insert_fresh by assumption. lia.
Qed.

Lemma obtain_gender_occurrences_nonneg (doc : Doc) (t : option nat) (v : Factors) :
  obtain_gender_occurrences doc t = Some v -> 0 <= f v /\ 0 <= m v /\ 0 <= ud v.
Proof.
  unfold obtain_gender_occurrences. destruct t as [i|].
  - destruct (doc !! i) as [tok|]; [|discriminate].
    intros Hv. apply follow_conjuncts_le in Hv. unfold Factors_le in Hv.
    destruct (start_occurrences_cases tok) as [Hp|[Hp|[Hp|Hp]]];
      rewrite Hp in Hv; simpl in Hv; lia.
  - intros [= <-]. simpl. lia.
Qed.

Section FurtherDescriptorProperties.

Variable str_lower : string -> string.
Variable glean_norm_values : gmap string (list float).

(** A relation between statistics that holds across every update of
    [parse_descriptors] holds across [parse_descriptors]. *)
Lemma parse_token_rel (R : Statistics -> Statistics -> Prop) (doc : Doc) (i : nat)
    (st st' : Statistics) :
  (forall st0, R st0 st0) ->
  (forall st0 st1 st2, R st0 st1 -> R st1 st2 -> R st0 st2) ->
  (forall st0, R st0 (count_negation st0)) ->
  (forall descriptor factors st0,
      0 <= f factors -> 0 <= m factors -> 0 <= ud factors ->
      R st0 (add_descriptor glean_norm_values descriptor factors st0)) ->
  parse_token str_lower glean_norm_values doc i st = Some st' -> R st st'.
Proof.
  intros Hrefl Htrans Hneg Hadd. unfold parse_token.
  destruct (doc !! i) as [tok|]; simpl; [|discriminate].
  destruct (doc !! head tok) as [h|]; simpl; [|discriminate].
  destruct (doc !! head h) as [hh|]; simpl; [|discriminate].
  destruct (classify str_lower doc i tok h hh) as [[| |factors descriptor adv svp]|] eqn:Hcl;
    simpl; try discriminate.
  - intros [= <-]. apply Hneg.
  - intros [= <-]. apply Hrefl.
  - destruct (all_zero factors); [intros [= <-]; apply Hrefl|].
    destruct (recorded_descriptors str_lower doc descriptor adv svp) as [descrs|];
      simpl; [|discriminate].
    intros [= <-].
    apply classify_factors in Hcl as [t Ht].
    apply obtain_gender_occurrences_nonneg in Ht as (Hf & Hm & Hud).
    unfold add_descriptors. generalize st.
    induction descrs as [|d descrs IH]; intros st0; simpl; [apply Hrefl|].
    eapply Htrans; [|apply IH]. apply Hadd; assumption.
Qed.

Lemma parse_descriptors_cons (doc : Doc) (i : nat) (l : list nat) (st : Statistics) :
  fold_left (fun acc j => st' ← acc; parse_token str_lower glean_norm_values doc j st')
            (i :: l) (Some st)
  = match parse_token str_lower glean_norm_values doc i st with
    | Some st1 =>
        fold_left (fun acc j => st' ← acc; parse_token str_lower glean_norm_values doc j st')
                  l (Some st1)
    | None => None
    end.
Proof.
  simpl. destruct (parse_token str_lower glean_norm_values doc i st); [reflexivity|].
  induction l as [|j l IH]; [reflexivity|exact IH].
Qed.

Lemma parse_descriptors_rel (R : Statistics -> Statistics -> Prop) (doc : Doc)
    (st st' : Statistics) :
  (forall st0, R st0 st0) ->
  (forall st0 st1 st2, R st0 st1 -> R st1 st2 -> R st0 st2) ->
  (forall st0, R st0 (count_negation st0)) ->
  (forall descriptor factors st0,
      0 <= f factors -> 0 <= m factors -> 0 <= ud factors ->
      R st0 (add_descriptor glean_norm_values descriptor factors st0)) ->
  parse_descriptors str_lower glean_norm_values doc st = Some st' -> R st st'.
Proof.
  intros Hrefl Htrans Hneg Hadd. unfold parse_descriptors.
  generalize (seq 0 (length doc)) as l. intros l. revert st.
  induction l as [|i l IH]; intros st.
  - intros [= <-]. apply Hrefl.
  - rewrite parse_descriptors_cons.
    destruct (parse_token str_lower glean_norm_values doc i st) as [st1|] eqn:Htok;
      [|discriminate].
    intros Hrest. eapply Htrans; [|apply IH; exact Hrest].
    eapply parse_token_rel; eauto.
Qed.

(** X1.  [parse_descriptors] writes to the descriptor and the sentiment part
    of the statistics only: the PER, PRN and match-list parts and the token
    and slash counters are as before. *)
Theorem parse_descriptors_frame (doc : Doc) (st st' : Statistics) :
  parse_descriptors str_lower glean_norm_values doc st = Some st' ->
  per st' = per st /\ prn st' = prn st /\ byd_mw st' = byd_mw st /\
  token_num st' = token_num st /\ num_slashes st' = num_slashes st.
Proof.
  apply (parse_descriptors_rel
           (fun st0 st1 => per st1 = per st0 /\ prn st1 = prn st0 /\ byd_mw st1 = byd_mw st0 /\
                           token_num st1 = token_num st0 /\ num_slashes st1 = num_slashes st0)).
  - auto.
  - intros st0 st1 st2 (-> & -> & -> & -> & ->) (-> & -> & -> & -> & ->). auto.
  - intros st0. simpl. auto.
  - intros descriptor factors st0 _ _ _. simpl. auto.
Qed.

(** X2.  Within one call of [parse_descriptors] each match counter grows by
    exactly as much as the total of the counts of its descriptor dictionary:
    no occurrence is counted without being booked under a lemma. *)
Theorem parse_descriptors_counters_match_dictionaries (doc : Doc) (st st' : Statistics)
    (a b c : Z) :
  num_matches_descr (descr st) = [("DESCR:F", a); ("DESCR:M", b); ("DESCR:NA", c)] ->
  parse_descriptors str_lower glean_norm_values doc st = Some st' ->
  exists a' b' c',
    num_matches_descr (descr st') = [("DESCR:F", a'); ("DESCR:M", b'); ("DESCR:NA", c')] /\
    a' - a = dict_total (female_descriptors (descr st'))
             - dict_total (female_descriptors (descr st)) /\
    b' - b = dict_total (male_descriptors (descr st'))
             - dict_total (male_descriptors (descr st)) /\
    c' - c = dict_total (ud_descriptors (descr st'))
             - dict_total (ud_descriptors (descr st)).
Proof.
  intros Hshape Hparse. revert a b c Hshape.
  apply (parse_descriptors_rel
           (fun st0 st1 =>
              forall a b c,
                num_matches_descr (descr st0)
                = [("DESCR:F", a); ("DESCR:M", b); ("DESCR:NA", c)] ->
                exists a' b' c',
                  num_matches_descr (descr st1)
                  = [("DESCR:F", a'); ("DESCR:M", b'); ("DESCR:NA", c')] /\
                  a' - a = dict_total (female_descriptors (descr st1))
                           - dict_total (female_descriptors (descr st0)) /\
                  b' - b = dict_total (male_descriptors (descr st1))
                           - dict_total (male_descriptors (descr st0)) /\
                  c' - c = dict_total (ud_descriptors (descr st1))
                           - dict_total (ud_descriptors (descr st0)))
           doc st st'); [| | | |exact Hparse].
  - intros st0 a b c H. exists a, b, c. split; [exact H|lia].
  - intros st0 st1 st2 H01 H12 a b c H.
    destruct (H01 a b c H) as (a1 & b1 & c1 & H1 & Ha1 & Hb1 & Hc1).
    destruct (H12 a1 b1 c1 H1) as (a2 & b2 & c2 & H2 & Ha2 & Hb2 & Hc2).
    exists a2, b2, c2. split; [exact H2|lia].
  - intros st0 a b c H. exists a, b, c. simpl. split; [exact H|lia].
  - intros descriptor factors st0 _ _ _ a b c H.
    exists (a + f factors), (b + m factors), (c + ud factors). simpl.
    rewrite H, counters_add_zip_descr, !dict_total_incr. split; [reflexivity|lia].
Qed.

(** X3.  Within one call of [parse_descriptors] no match counter and no
    not-found counter goes down, and a not-found counter grows by at most as
    much as the match counter of its gender. *)
Theorem parse_descriptors_not_found_bounded (doc : Doc) (st st' : Statistics)
    (a b c na nb nc : Z) :
  num_matches_descr (descr st) = [("DESCR:F", a); ("DESCR:M", b); ("DESCR:NA", c)] ->
  glean_not_found (glean st) = [("DESCR:F", na); ("DESCR:M", nb); ("DESCR:NA", nc)] ->
  parse_descriptors str_lower glean_norm_values doc st = Some st' ->
  exists a' b' c' na' nb' nc',
    num_matches_descr (descr st') = [("DESCR:F", a'); ("DESCR:M", b'); ("DESCR:NA", c')] /\
    glean_not_found (glean st') = [("DESCR:F", na'); ("DESCR:M", nb'); ("DESCR:NA", nc')] /\
    0 <= na' - na <= a' - a /\ 0 <= nb' - nb <= b' - b /\ 0 <= nc' - nc <= c' - c.
Proof.
  intros Hshape Hnf Hparse. revert a b c na nb nc Hshape Hnf.
  apply (parse_descriptors_rel
           (fun st0 st1 =>
              forall a b c na nb nc,
                num_matches_descr (descr st0)
                = [("DESCR:F", a); ("DESCR:M", b); ("DESCR:NA", c)] ->
                glean_not_found (glean st0)
                = [("DESCR:F", na); ("DESCR:M", nb); ("DESCR:NA", nc)] ->
                exists a' b' c' na' nb' nc',
                  num_matches_descr (descr st1)
                  = [("DESCR:F", a'); ("DESCR:M", b'); ("DESCR:NA", c')] /\
                  glean_not_found (glean st1)
                  = [("DESCR:F", na'); ("DESCR:M", nb'); ("DESCR:NA", nc')] /\
                  0 <= na' - na <= a' - a /\ 0 <= nb' - nb <= b' - b /\
                  0 <= nc' - nc <= c' - c)
           doc st st'); [| | | |exact Hparse].
  - intros st0 a b c na nb nc H Hn. exists a, b, c, na, nb, nc.
    split; [exact H|]. split; [exact Hn|lia].
  - intros st0 st1 st2 H01 H12 a b c na nb nc H Hn.
    destruct (H01 a b c na nb nc H Hn) as (a1 & b1 & c1 & na1 & nb1 & nc1 & H1 & Hn1 & ?).
    destruct (H12 a1 b1 c1 na1 nb1 nc1 H1 Hn1)
      as (a2 & b2 & c2 & na2 & nb2 & nc2 & H2 & Hn2 & ?).
    exists a2, b2, c2, na2, nb2, nc2. split; [exact H2|]. split; [exact Hn2|lia].
  - intros st0 a b c na nb nc H Hn. exists a, b, c, na, nb, nc. simpl.
    split; [exact H|]. split; [exact Hn|lia].
  - intros descriptor factors st0 Hf Hm Hud a b c na nb nc H Hn.
    unfold add_descriptor. simpl. rewrite H, counters_add_zip_descr.
    destruct (glean_norm_values !! descriptor); simpl.
    + exists (a + f factors), (b + m factors), (c + ud factors), na, nb, nc.
      split; [reflexivity|]. split; [exact Hn|lia].
    + rewrite Hn, counters_add_zip_descr.
      exists (a + f factors), (b + m factors), (c + ud factors),
        (na + f factors), (nb + m factors), (nc + ud factors).
      split; [reflexivity|]. split; [reflexivity|lia].
Qed.

Lemma classify_negation (doc : Doc) (i : nat) (tok h hh : Token) :
  classify str_lower doc i tok h hh = Some Negation
  <-> String.eqb (dep_ tok) "ng" && str_in (pos_ h) ["VERB"; "AUX"; "ADJ"] = true.
Proof.
  unfold classify. destruct (String.eqb (dep_ tok) "ng" && _); [tauto|].
  split; [|discriminate].
  repeat match goal with
         | |- context [if ?b then _ else _] => destruct b
         end; try discriminate;
  match goal with
  | |- context [obtain_gender_occurrences doc ?t] =>
      destruct (obtain_gender_occurrences doc t); simpl; [|discriminate];
      try destruct (scan_verb_children _ _ _ _ _); discriminate
  end.
Qed.

Lemma add_descriptors_num_neg (descrs : list string) (factors : Factors) (st : Statistics) :
  num_neg (descr (add_descriptors glean_norm_values descrs factors st)) = num_neg (descr st).
Proof.
  unfold add_descriptors. revert st.
  induction descrs as [|d descrs IH]; intros st; simpl; [reflexivity|].
  rewrite IH. reflexivity.
Qed.

Lemma parse_token_num_neg (doc : Doc) (i : nat) (st st' : Statistics) :
  parse_token str_lower glean_norm_values doc i st = Some st' ->
  num_neg (descr st') = num_neg (descr st) + Z_of_bool (is_negation doc i).
Proof.
  intros Hp. unfold parse_token in Hp.
  destruct (doc !! i) as [tok|] eqn:Htok; simpl in Hp; [|discriminate].
  destruct (doc !! head tok) as [h|] eqn:Hh; simpl in Hp; [|discriminate].
  destruct (doc !! head h) as [hh|] eqn:Hhh; simpl in Hp; [|discriminate].
  assert (Hisneg : is_negation doc i
                   = String.eqb (dep_ tok) "ng" && str_in (pos_ h) ["VERB"; "AUX"; "ADJ"])
    by (unfold is_negation; rewrite Htok, Hh; reflexivity).
  rewrite Hisneg.
  pose proof (classify_negation doc i tok h hh) as Hneg.
  destruct (String.eqb (dep_ tok) "ng" && str_in (pos_ h) ["VERB"; "AUX"; "ADJ"]).
  - rewrite (proj2 Hneg eq_refl) in Hp. simpl in Hp. injection Hp as <-. reflexivity.
  - destruct (classify str_lower doc i tok h hh) as [[| |factors descriptor adv svp]|];
      simpl in Hp; try discriminate.
    + discriminate (proj1 Hneg eq_refl).
    + injection Hp as <-. simpl. lia.
    + destruct (all_zero factors); [injection Hp as <-; simpl; lia|].
      destruct (recorded_descriptors str_lower doc descriptor adv svp) as [descrs|];
        simpl in Hp; [|discriminate].
      injection Hp as <-. rewrite add_descriptors_num_neg. simpl. lia.
Qed.

(** X4.  [parse_descriptors] raises the negation counter by the number of
    negation tokens of the document, whatever else the document holds. *)
Theorem parse_descriptors_counts_negations (doc : Doc) (st st' : Statistics) :
  parse_descriptors str_lower glean_norm_values doc st = Some st' ->
  num_neg (descr st') = num_neg (descr st) + Z.of_nat (negation_tokens doc).
Proof.
  unfold parse_descriptors, negation_tokens.
  generalize (seq 0 (length doc)) as l. intros l. revert st.
  induction l as [|i l IH]; intros st.
  - intros [= <-]. simpl. lia.
  - rewrite parse_descriptors_cons.
    destruct (parse_token str_lower glean_norm_values doc i st) as [st1|] eqn:Htok;
      [|discriminate].
    intros Hrest. apply IH in Hrest. apply parse_token_num_neg in Htok.
    rewrite Hrest, Htok. simpl.
    destruct (is_negation doc i); simpl length; simpl Z_of_bool; lia.
Qed.

Lemma dict_incr_lookup (k k' : string) (n : Z) (d : gmap string Z) :
  default 0 (dict_incr k n d !! k')
  = default 0 (d !! k') + (if String.eqb k' k then n else 0).
Proof.
  unfold dict_incr. destruct (String.eqb_spec k' k) as [->|Hne].
  - rewrite lookup_insert_eq. reflexivity.
  - rewrite lookup_insert_ne by congruence. lia.
Qed.

Lemma add_descriptors_keeps_entries (descrs : list string) (factors : Factors)
    (st : Statistics) (k : string) :
  is_Some (female_descriptors (descr st) !! k)
  /\ is_Some (male_descriptors (descr st) !! k)
  /\ is_Some (ud_descriptors (descr st) !! k) ->
  let st' := add_descriptors glean_norm_values descrs factors st in
  is_Some (female_descriptors (descr st') !! k)
  /\ is_Some (male_descriptors (descr st') !! k)
  /\ is_Some (ud_descriptors (descr st') !! k).
Proof.
  unfold add_descriptors. revert st.
  induction descrs as [|d descrs IH]; intros st Hhere; simpl; [exact Hhere|].
  apply IH. simpl. unfold dict_incr.
  destruct (decide (d = k)) as [->|Hne].
  - rewrite !lookup_insert_eq. eauto.
  - rewrite !lookup_insert_ne by assumption. exact Hhere.
Qed.

(** X5.  After a list of lemmas has been handed to [add_descriptor] with one
    vector, the count of every lemma in each dictionary is its former count
    plus the leg of the vector times the number of times the lemma is in the
    list; a lemma of the list has an entry in all three dictionaries, also
    where the leg is zero. *)
Theorem add_descriptors_lookup (descrs : list string) (factors : Factors) (st : Statistics)
    (k : string) :
  let st' := add_descriptors glean_norm_values descrs factors st in
  (default 0 (female_descriptors (descr st') !! k)
   = default 0 (female_descriptors (descr st) !! k)
     + Z.of_nat (occurrences k descrs) * f factors
   /\ default 0 (male_descriptors (descr st') !! k)
      = default 0 (male_descriptors (descr st) !! k)
        + Z.of_nat (occurrences k descrs) * m factors
   /\ default 0 (ud_descriptors (descr st') !! k)
      = default 0 (ud_descriptors (descr st) !! k)
        + Z.of_nat (occurrences k descrs) * ud factors)
  /\ (In k descrs ->
      is_Some (female_descriptors (descr st') !! k)
      /\ is_Some (male_descriptors (descr st') !! k)
      /\ is_Some (ud_descriptors (descr st') !! k)).
Proof.
  unfold add_descriptors, occurrences. revert st.
  induction descrs as [|d descrs IH]; intros st; simpl.
  - split; [lia|]. intros [].
  - destruct (IH (add_descriptor glean_norm_values d factors st)) as [(Hf & Hm & Hud) Hin].
    split.
    + rewrite Hf, Hm, Hud. simpl. rewrite !dict_incr_lookup.
      destruct (String.eqb k d); simpl length; lia.
    + intros [->|Hk]; [|auto].
      apply add_descriptors_keeps_entries. simpl. unfold dict_incr.
      rewrite !lookup_insert_eq. eauto.
Qed.

End FurtherDescriptorProperties.

(** ** The bound of the gender vector *)

(** The heads from a token up to its root are distinct tokens of the
    document, so a depth is smaller than the length of the document. *)
Lemma depth_path (fuel : nat) (doc : Doc) (i d : nat) :
  depth fuel doc i = Some d ->
  exists l : list nat,
    length l = S d /\ NoDup l /\
    forall j, j ∈ l ->
      (j < length doc)%nat /\ exists k, (k <= d)%nat /\ depth fuel doc j = Some k.
Proof.
  revert i d. induction fuel as [|fuel IH]; intros i d Hd.
  - simpl in Hd. destruct (doc !! i) as [t|] eqn:Ht; [|discriminate].
    destruct (Nat.eqb (head t) i) eqn:Hh; [|discriminate]. injection Hd as <-.
    exists [i]. split; [reflexivity|]. split; [apply NoDup_singleton|].
    intros j Hj. apply list_elem_of_singleton in Hj as ->.
    split; [eapply lookup_lt_Some; eauto|].
    exists 0%nat. split; [lia|]. simpl. rewrite Ht, Hh. reflexivity.
  - pose proof Hd as Hd0. simpl in Hd.
    destruct (doc !! i) as [t|] eqn:Ht; [|discriminate].
    destruct (Nat.eqb (head t) i) eqn:Hh.
    + injection Hd as <-.
      exists [i]. split; [reflexivity|]. split; [apply NoDup_singleton|].
      intros j Hj. apply list_elem_of_singleton in Hj as ->.
      split; [eapply lookup_lt_Some; eauto|].
      exists 0%nat. split; [lia|exact Hd0].
    + destruct (depth fuel doc (head t)) as [d'|] eqn:Hd'; simpl in Hd; [|discriminate].
      injection Hd as <-.
      destruct (IH (head t) d' Hd') as (l & Hlen & Hnd & Hl).
      exists (i :: l). split; [simpl; lia|]. split.
      * apply NoDup_cons. split; [|exact Hnd].
        intros Hin. destruct (Hl i Hin) as (_ & k & Hk & Hdk).
        apply (depth_mono fuel (S fuel)) in Hdk; [|lia].
        rewrite Hd0 in Hdk. injection Hdk as <-. lia.
      * intros j Hj. apply elem_of_cons in Hj as [->|Hj].
        -- split; [eapply lookup_lt_Some; eauto|].
           exists (S d'). split; [lia|exact Hd0].
        -- destruct (Hl j Hj) as (Hlt & k & Hk & Hdk).
           split; [exact Hlt|]. exists k. split; [lia|].
           apply (depth_mono fuel (S fuel)); [exact Hdk|lia].
Qed.

Lemma depth_lt (fuel : nat) (doc : Doc) (i d : nat) :
  depth fuel doc i = Some d -> (d < length doc)%nat.
Proof.
  intros Hd. destruct (depth_path fuel doc i d Hd) as (l & Hlen & Hnd & Hl).
  assert (Hsub : l ⊆+ seq 0 (length doc)).
  { apply NoDup_submseteq; [exact Hnd|].
    intros j Hj. apply elem_of_seq. destruct (Hl j Hj) as [Hlt _]. lia. }
  apply submseteq_length in Hsub. rewrite length_seq in Hsub. lia.
Qed.

Lemma conjunct_occurrences_sum (child : Token) (v : Factors) :
  let v' := fst (conjunct_occurrences child v) in
  f v' + m v' + ud v' <= f v + m v + ud v + 1.
Proof.
  unfold conjunct_occurrences.
  repeat (match goal with
          | |- context [match ?x with _ => _ end] => destruct x
          end; simpl); lia.
Qed.

Lemma follow_conjuncts_sum (doc : Doc) (fuel tk d : nat) (v v' : Factors) :
  dependency_tree doc = true ->
  depth (length doc) doc tk = Some d ->
  follow_conjuncts fuel doc tk v = Some v' ->
  f v' + m v' + ud v' <= f v + m v + ud v + (Z.of_nat (length doc) - 1 - Z.of_nat d).
Proof.
  intros Htree. revert tk d v.
  induction fuel as [|fuel IH]; intros tk d v Hd; simpl; [discriminate|].
  pose proof (depth_lt _ _ _ _ Hd) as Hlt.
  unfold next_conjunct.
  destruct (List.find _ (children doc tk)) as [[j child]|] eqn:Hfind;
    [|intros [= <-]; lia].
  apply find_child in Hfind as (Hj & Hh & Hne & _).
  pose proof (child_depth doc tk j d child Htree Hj Hh Hne Hd) as Hdj.
  pose proof (depth_lt _ _ _ _ Hdj) as Hltj.
  destruct (is_target_conjunct child).
  - pose proof (conjunct_occurrences_sum child v) as Hsum.
    destruct (conjunct_occurrences child v) as [v1 new_children]. simpl in Hsum.
    destruct new_children.
    + intros Hv. apply (IH j (S d)) in Hv; [lia|exact Hdj].
    + intros [= <-]. lia.
  - intros Hv. apply (IH j (S d)) in Hv; [lia|exact Hdj].
Qed.

(** X6.  On a dependency tree the occurrences of a gender vector add up to
    at most the number of tokens of the document: the walk counts a token at
    most once. *)
Theorem gender_vector_bounded (doc : Doc) (t : option nat) (v : Factors) :
  dependency_tree doc = true ->
  obtain_gender_occurrences doc t = Some v ->
  f v + m v + ud v <= Z.of_nat (length doc).
Proof.
  intros Htree. unfold obtain_gender_occurrences. destruct t as [i|].
  - destruct (doc !! i) as [tok|] eqn:Htok; [|discriminate].
    destruct (tree_depth doc i Htree) as [d Hd]; [eapply lookup_lt_Some; eauto|].
    intros Hv. apply (follow_conjuncts_sum doc _ i d) in Hv; [|assumption..].
    destruct (start_occurrences_cases tok) as [Hp|[Hp|[Hp|Hp]]];
      rewrite Hp in Hv; simpl in Hv; lia.
  - intros [= <-]. simpl. lia.
Qed.

(** ** [gender_prn] and [count_prn] *)

Lemma gender_prn_token_idemp (prn_male prn_female : list string) (t : Token) :
  gender_prn_token prn_male prn_female (gender_prn_token prn_male prn_female t)
  = gender_prn_token prn_male prn_female t.
Proof.
  unfold gender_prn_token.
  destruct (String.eqb (pos_ t) "NOUN") eqn:HN, (String.eqb (pos_ t) "PROPN") eqn:HP,
    (str_in (lemma_ t) prn_male) eqn:Hm, (str_in (lemma_ t) prn_female) eqn:Hf;
    simpl; rewrite ?HN, ?HP, ?Hm, ?Hf; reflexivity.
Qed.

(** X7.  Tagging is idempotent: a second run of [gender_prn] over a tagged
    document changes nothing. *)
Theorem gender_prn_idempotent (prn_male prn_female : list string) (doc : Doc) :
  gender_prn prn_male prn_female (gender_prn prn_male prn_female doc)
  = gender_prn prn_male prn_female doc.
Proof.
  unfold gender_prn. rewrite List.map_map.
  apply List.map_ext. intros t. apply gender_prn_token_idemp.
Qed.

Lemma gender_prn_token_head (prn_male prn_female : list string) (t : Token) :
  head (gender_prn_token prn_male prn_female t) = head t.
Proof.
  unfold gender_prn_token.
  repeat match goal with |- context [if ?b then _ else _] => destruct b end; reflexivity.
Qed.

Lemma gender_prn_depth (prn_male prn_female : list string) (doc : Doc) (fuel i : nat) :
  depth fuel (gender_prn prn_male prn_female doc) i = depth fuel doc i.
Proof.
  revert i. induction fuel as [|fuel IH]; intros i; simpl;
    rewrite gender_prn_lookup; destruct (doc !! i) as [t|]; simpl; try reflexivity;
    rewrite gender_prn_token_head; [reflexivity|].
  destruct (Nat.eqb (head t) i); [reflexivity|]. rewrite IH. reflexivity.
Qed.

Lemma children_map_aux (G : Token -> Token) (Hhead : forall t, head (G t) = head t)
    (i : nat) (l : list Token) (g : nat -> nat) (F : nat -> Token -> nat * Token) :
  (forall k t, F k t = (g k, t)) ->
  List.filter (fun c => Nat.eqb (head (snd c)) i && negb (Nat.eqb (fst c) i))
              (imap F (List.map G l))
  = List.map (fun c => (fst c, G (snd c)))
      (List.filter (fun c => Nat.eqb (head (snd c)) i && negb (Nat.eqb (fst c) i))
                   (imap F l)).
Proof.
  revert g F. induction l as [|t l IH]; intros g F HF; simpl; [reflexivity|].
  rewrite !HF. simpl. rewrite Hhead.
  rewrite (IH (fun k => g (S k)) (F ∘ S)) by (intros k t'; apply HF).
  destruct (Nat.eqb (head t) i && negb (Nat.eqb (g 0%nat) i)); reflexivity.
Qed.

(** X8.  Tagging keeps the dependency structure: the tagged document is a
    dependency tree exactly when the document is one, and every token keeps
    its children (up to their tags). *)
Theorem gender_prn_keeps_tree (prn_male prn_female : list string) (doc : Doc) :
  dependency_tree (gender_prn prn_male prn_female doc) = dependency_tree doc
  /\ forall i,
       children (gender_prn prn_male prn_female doc) i
       = List.map (fun c => (fst c, gender_prn_token prn_male prn_female (snd c)))
                  (children doc i).
Proof.
  split.
  - unfold dependency_tree.
    replace (length (gender_prn prn_male prn_female doc)) with (length doc)
      by (symmetry; apply length_map).
    induction (seq 0 (length doc)) as [|i l IH]; simpl; [reflexivity|].
    rewrite gender_prn_depth, IH. reflexivity.
  - intros i. unfold children, gender_prn.
    apply (children_map_aux (gender_prn_token prn_male prn_female)
             (gender_prn_token_head prn_male prn_female) i doc (fun k => k) pair).
    reflexivity.
Qed.

Lemma counters_add_prn (g : string) (a b : Z) :
  counters_add g 1 [("PRN:F", a); ("PRN:M", b)]
  = [("PRN:F", a + Z_of_bool (String.eqb g "PRN:F"));
     ("PRN:M", b + Z_of_bool (String.eqb g "PRN:M"))].
Proof.
  unfold counters_add. cbn [List.map fst snd].
  rewrite (String.eqb_sym "PRN:F" g), (String.eqb_sym "PRN:M" g).
  destruct (String.eqb g "PRN:F"), (String.eqb g "PRN:M"); cbn [Z_of_bool];
    repeat f_equal; lia.
Qed.

Lemma counters_add_each_prn (g : string) (a b : Z) :
  fold_left (fun d label => counters_add label (Z_of_bool (String.eqb g label)) d)
            (List.map fst [("PRN:F", a); ("PRN:M", b)]) [("PRN:F", a); ("PRN:M", b)]
  = [("PRN:F", a + Z_of_bool (String.eqb g "PRN:F"));
     ("PRN:M", b + Z_of_bool (String.eqb g "PRN:M"))].
Proof.
  cbn [fold_left List.map fst].
  destruct (String.eqb g "PRN:F"), (String.eqb g "PRN:M"); reflexivity.
Qed.

Lemma counters2_eq (k1 k2 : string) (a a' b b' : Z) :
  a = a' -> b = b' -> [(k1, a); (k2, b)] = [(k1, a'); (k2, b')].
Proof. intros -> ->. reflexivity. Qed.

Lemma count_prn_fold (doc : Doc) (p : PRN) (a b : Z) :
  num_matches_prn p = [("PRN:F", a); ("PRN:M", b)] ->
  let p' := fold_left (fun p0 token => count_prn_token token p0) doc p in
  num_matches_prn p'
  = [("PRN:F", a + Z.of_nat (tagged "PRN:F" doc)); ("PRN:M", b + Z.of_nat (tagged "PRN:M" doc))]
  /\ dict_total (female_prn p') = dict_total (female_prn p) + Z.of_nat (tagged "PRN:F" doc)
  /\ dict_total (male_prn p') = dict_total (male_prn p) + Z.of_nat (tagged "PRN:M" doc).
Proof.
  unfold tagged. revert p a b.
  induction doc as [|t doc IH]; intros p a b Hp; cbn [fold_left List.filter].
  - simpl. rewrite Hp, !Z.add_0_r. auto.
  - destruct (gender_tag t) as [g|] eqn:Hg.
    + assert (Hstep : count_prn_token t p
                      = mkPRN (dict_incr (lemma_ t) (Z_of_bool (String.eqb g "PRN:F"))
                                         (female_prn p))
                              (dict_incr (lemma_ t) (Z_of_bool (String.eqb g "PRN:M"))
                                         (male_prn p))
                              (counters_add g 1 (num_matches_prn p)))
        by (unfold count_prn_token; rewrite Hg; reflexivity).
      rewrite Hstep.
      destruct (IH (mkPRN (dict_incr (lemma_ t) (Z_of_bool (String.eqb g "PRN:F")) (female_prn p))
                          (dict_incr (lemma_ t) (Z_of_bool (String.eqb g "PRN:M")) (male_prn p))
                          (counters_add g 1 (num_matches_prn p)))
                   (a + Z_of_bool (String.eqb g "PRN:F"))
                   (b + Z_of_bool (String.eqb g "PRN:M")))
        as (Hc & Hf & Hm);
        [cbn [num_matches_prn]; rewrite Hp; apply counters_add_prn|].
      rewrite Hc, Hf, Hm. cbn [female_prn male_prn]. rewrite !dict_total_incr.
      destruct (String.eqb g "PRN:F"), (String.eqb g "PRN:M"); cbn [length Z_of_bool];
        (split; [apply counters2_eq; lia|split; lia]).
    + assert (Hstep : count_prn_token t p = p)
        by (unfold count_prn_token; rewrite Hg; reflexivity).
      rewrite Hstep. apply (IH p a b Hp).
Qed.

(** X9.  [count_prn] raises the counters PRN:F and PRN:M by the number of
    tokens tagged so, raises the totals of the two dictionaries of nouns by
    the same numbers, and leaves the rest of the statistics alone. *)
Theorem count_prn_counts_tags (doc : Doc) (st : Statistics) (a b : Z) :
  num_matches_prn (prn st) = [("PRN:F", a); ("PRN:M", b)] ->
  let st' := count_prn doc st in
  num_matches_prn (prn st')
  = [("PRN:F", a + Z.of_nat (tagged "PRN:F" doc)); ("PRN:M", b + Z.of_nat (tagged "PRN:M" doc))]
  /\ dict_total (female_prn (prn st'))
     = dict_total (female_prn (prn st)) + Z.of_nat (tagged "PRN:F" doc)
  /\ dict_total (male_prn (prn st'))
     = dict_total (male_prn (prn st)) + Z.of_nat (tagged "PRN:M" doc)
  /\ per st' = per st /\ descr st' = descr st /\ glean st' = glean st
  /\ byd_mw st' = byd_mw st /\ token_num st' = token_num st
  /\ num_slashes st' = num_slashes st.
Proof.
  intros Hp. simpl.
  destruct (count_prn_fold doc (prn st) a b Hp) as (Hc & Hf & Hm).
  repeat split; assumption.
Qed.

Lemma count_prn_plain_fold (doc : Doc) (a b : Z) :
  fold_left
    (fun num_matches_prn token =>
       match gender_tag token with
       | Some g =>
           fold_left
             (fun d label => counters_add label (Z_of_bool (String.eqb g label)) d)
             (List.map fst num_matches_prn) num_matches_prn
       | None => num_matches_prn
       end)
    doc [("PRN:F", a); ("PRN:M", b)]
  = [("PRN:F", a + Z.of_nat (tagged "PRN:F" doc)); ("PRN:M", b + Z.of_nat (tagged "PRN:M" doc))].
Proof.
  unfold tagged. revert a b.
  induction doc as [|t doc IH]; intros a b; cbn [fold_left List.filter].
  - cbn [length]. rewrite !Z.add_0_r. reflexivity.
  - destruct (gender_tag t) as [g|].
    + rewrite counters_add_each_prn, IH.
      destruct (String.eqb g "PRN:F"), (String.eqb g "PRN:M"); cbn [length Z_of_bool];
        apply counters2_eq; lia.
    + apply IH.
Qed.

(** X10.  The two branches of [count_prn] agree: on statistics with fresh
    counters the dictionary returned with [statistics] is the one returned
    without, the numbers of tokens tagged PRN:F and PRN:M. *)
Theorem count_prn_branches_agree (doc : Doc) (st : Statistics) :
  num_matches_prn (prn st) = num_matches_prn_default ->
  count_prn_result doc st = Some (count_prn_plain doc)
  /\ count_prn_plain doc
     = [("PRN:F", Z.of_nat (tagged "PRN:F" doc)); ("PRN:M", Z.of_nat (tagged "PRN:M" doc))].
Proof.
  intros Hp. unfold count_prn_result, count_prn_plain.
  destruct (count_prn_fold doc (prn st) 0 0 Hp) as (Hc & _ & _).
  simpl. rewrite Hc, count_prn_plain_fold. split; reflexivity.
Qed.

Lemma gender_prn_token_tag (prn_male prn_female : list string) (t : Token) :
  gender t = None ->
  gender_tag (gender_prn_token prn_male prn_female t)
  = if is_noun t then
      if str_in (lemma_ t) prn_male then Some "PRN:M"
      else if str_in (lemma_ t) prn_female then Some "PRN:F"
      else None
    else None.
Proof.
  intros Hg. unfold gender_prn_token, is_noun, gender_tag.
  destruct (String.eqb (pos_ t) "NOUN"), (String.eqb (pos_ t) "PROPN"); simpl;
    try (rewrite Hg; reflexivity);
    destruct (str_in (lemma_ t) prn_male); simpl; try reflexivity;
    destruct (str_in (lemma_ t) prn_female); simpl; try reflexivity;
    rewrite Hg; reflexivity.
Qed.

(** X11.  On a document that comes untagged, [gender_prn] followed by
    [count_prn] counts under PRN:M the nouns and proper nouns whose lemma is
    in the male list, and under PRN:F those whose lemma is in the female list
    and not in the male list. *)
Theorem count_prn_after_gender_prn (prn_male prn_female : list string) (doc : Doc) :
  Forall (fun t => gender t = None) doc ->
  count_prn_plain (gender_prn prn_male prn_female doc)
  = [("PRN:F",
      Z.of_nat (length (List.filter
                          (fun t => is_noun t && negb (str_in (lemma_ t) prn_male)
                                    && str_in (lemma_ t) prn_female) doc)));
     ("PRN:M",
      Z.of_nat (length (List.filter
                          (fun t => is_noun t && str_in (lemma_ t) prn_male) doc)))].
Proof.
  intros Hdoc. unfold count_prn_plain. rewrite count_prn_plain_fold. simpl.
  unfold tagged, gender_prn.
  assert (H : forall g (sel : Token -> bool),
             (forall t, gender t = None ->
                        match gender_tag (gender_prn_token prn_male prn_female t) with
                        | Some g' => String.eqb g' g
                        | None => false
                        end = sel t) ->
             length (List.filter
                       (fun t => match gender_tag t with
                                 | Some g' => String.eqb g' g
                                 | None => false
                                 end)
                       (List.map (gender_prn_token prn_male prn_female) doc))
             = length (List.filter sel doc)).
  { intros g sel Hsel. induction Hdoc as [|t doc Ht Hdoc IH]; simpl; [reflexivity|].
    rewrite (Hsel t Ht). destruct (sel t); simpl; rewrite IH; reflexivity. }
  rewrite (H "PRN:F" (fun t => is_noun t && negb (str_in (lemma_ t) prn_male)
                               && str_in (lemma_ t) prn_female)),
    (H "PRN:M" (fun t => is_noun t && str_in (lemma_ t) prn_male)); [reflexivity| |].
  - intros t Ht. rewrite gender_prn_token_tag by assumption.
    destruct (is_noun t), (str_in (lemma_ t) prn_male), (str_in (lemma_ t) prn_female);
      reflexivity.
  - intros t Ht. rewrite gender_prn_token_tag by assumption.
    destruct (is_noun t), (str_in (lemma_ t) prn_male), (str_in (lemma_ t) prn_female);
      reflexivity.
Qed.

(** ** [count_per] *)

Lemma count_per_ent_total (e : Entity) (p : PER) :
  per_total (count_per_ent e p)
  = per_total p + Z_of_bool (String.prefix "PER:" (label_ e)).
Proof.
  unfold count_per_ent, per_total.
  destruct (String.prefix "PER:" (label_ e)); cbn [negb Z_of_bool]; [|lia].
  cbn [female_per male_per amb_per nh_per ud_per]. rewrite !dict_total_incr.
  unfold PER_LABELS, str_in. cbn [existsb].
  destruct (String.eqb_spec (label_ e) "PER:weiblich") as [Heq|?];
    [rewrite ?Heq; vm_compute Z_of_bool; lia|].
  destruct (String.eqb_spec (label_ e) "PER:männlich") as [Heq|?];
    [rewrite ?Heq; vm_compute Z_of_bool; lia|].
  destruct (String.eqb_spec (label_ e) "PER:NA") as [Heq|?];
    [rewrite ?Heq; vm_compute Z_of_bool; lia|].
  destruct (String.eqb_spec (label_ e) "PER:AMB") as [Heq|?];
    [rewrite ?Heq; vm_compute Z_of_bool; lia|].
  cbn [orb negb Z_of_bool]. lia.
Qed.

(** X12.  [count_per] books every person entity (label starting with PER:)
    under exactly one of its five dictionaries - female, male, ambiguous,
    undetermined, or the remaining labels - and skips every other entity: the
    counts of the five dictionaries together grow by the number of person
    entities. *)
Theorem count_per_books_each_person_once (es : list Entity) (st : Statistics) :
  per_total (per (count_per es st))
  = per_total (per st) + Z.of_nat (person_entities es).
Proof.
  unfold count_per, person_entities. cbn [per set_per].
  generalize (per st) as p.
  induction es as [|e es IH]; intros p; cbn [fold_left List.filter].
  - simpl. lia.
  - rewrite IH, count_per_ent_total.
    destruct (String.prefix "PER:" (label_ e)); cbn [length Z_of_bool]; lia.
Qed.

(** X13.  The counters of [num_matches_per] are raised by key: an entity
    labelled PER:weiblich, PER:NA or PER:AMB raises its counter by 1, but for
    an entity labelled PER:männlich, as [gender_ner] and [count_per] spell the
    label, no key of the dictionary built in helper.py is equal to the label,
    so that no counter moves - while the entity is booked in [male_per]. *)
Theorem count_per_male_counter_stays (e : Entity) (p : PER) (a b c d : Z) :
  num_matches_per p
  = [("PER:weiblich", a); ("PER:mÃ¤nnlich", b); ("PER:NA", c); ("PER:AMB", d)] ->
  (label_ e = "PER:männlich" ->
   num_matches_per (count_per_ent e p) = num_matches_per p /\
   default 0 (male_per (count_per_ent e p) !! ent_text e)
   = default 0 (male_per p !! ent_text e) + 1) /\
  (label_ e = "PER:weiblich" ->
   num_matches_per (count_per_ent e p)
   = [("PER:weiblich", a + 1); ("PER:mÃ¤nnlich", b); ("PER:NA", c); ("PER:AMB", d)]) /\
  (label_ e = "PER:NA" ->
   num_matches_per (count_per_ent e p)
   = [("PER:weiblich", a); ("PER:mÃ¤nnlich", b); ("PER:NA", c + 1); ("PER:AMB", d)]) /\
  (label_ e = "PER:AMB" ->
   num_matches_per (count_per_ent e p)
   = [("PER:weiblich", a); ("PER:mÃ¤nnlich", b); ("PER:NA", c); ("PER:AMB", d + 1)]).
Proof.
  intros Hp. unfold count_per_ent.
  split; [|split; [|split]]; intros Hl; rewrite Hl; simpl; rewrite ?Hp;
    try reflexivity.
  split; [reflexivity|].
  unfold dict_incr. rewrite lookup_insert_eq. reflexivity.
Qed.

(** ** [match] of byd_mw.py *)

Lemma characters_nonempty (b : Ascii.ascii) (s : string) :
  characters (String b s) <> [].
Proof.
  simpl. destruct s as [|b' s]; [discriminate|].
  destruct (is_continuation b'); [|discriminate].
  destruct (characters (String b' s)); discriminate.
Qed.

Lemma characters_app (s ext : string) :
  whole_characters ext = true ->
  characters (s ++ ext) = (characters s ++ characters ext)%list.
Proof.
  intros Hext. induction s as [|b s IH]; [reflexivity|].
  change (String b s ++ ext)%string with (String b (s ++ ext)).
  destruct s as [|b' s].
  - change (EmptyString ++ ext)%string with ext in *.
    destruct ext as [|e ext]; [reflexivity|].
    simpl in Hext. apply negb_true_iff in Hext.
    change (characters (String b (String e ext)))
      with (if is_continuation e
            then match characters (String e ext) with
                 | c :: cs => String b c :: cs
                 | [] => [String b EmptyString]
                 end
            else String b EmptyString :: characters (String e ext)).
    rewrite Hext. reflexivity.
  - change (String b' s ++ ext)%string with (String b' (s ++ ext)) in *.
    change (characters (String b (String b' (s ++ ext))))
      with (if is_continuation b'
            then match characters (String b' (s ++ ext)) with
                 | c :: cs => String b c :: cs
                 | [] => [String b EmptyString]
                 end
            else String b EmptyString :: characters (String b' (s ++ ext))).
    change (characters (String b (String b' s)))
      with (if is_continuation b'
            then match characters (String b' s) with
                 | c :: cs => String b c :: cs
                 | [] => [String b EmptyString]
                 end
            else String b EmptyString :: characters (String b' s)).
    rewrite IH.
    destruct (is_continuation b'); [|reflexivity].
    pose proof (characters_nonempty b' s) as Hne.
    destruct (characters (String b' s)) as [|c cs]; [congruence|reflexivity].
Qed.

Lemma join_characters (s : string) : join (characters s) = s.
Proof.
  induction s as [|b s IH]; [reflexivity|].
  destruct s as [|b' s]; [reflexivity|].
  change (characters (String b (String b' s)))
    with (if is_continuation b'
          then match characters (String b' s) with
               | c :: cs => String b c :: cs
               | [] => [String b EmptyString]
               end
          else String b EmptyString :: characters (String b' s)).
  pose proof (characters_nonempty b' s) as Hne.
  destruct (is_continuation b').
  - destruct (characters (String b' s)) as [|c cs]; [congruence|].
    unfold join in *. cbn [fold_right] in *.
    change (String b c ++ fold_right String.append EmptyString cs)%string
      with (String b (c ++ fold_right String.append EmptyString cs)).
    rewrite IH. reflexivity.
  - unfold join in *. cbn [fold_right].
    change (String b EmptyString
            ++ fold_right String.append EmptyString (characters (String b' s)))%string
      with (String b (fold_right String.append EmptyString (characters (String b' s)))).
    rewrite IH. reflexivity.
Qed.

(** X14.  [file_name[:-5]] cuts an extension of five characters such as
    ".json" off a file name and gives the name back, whatever characters the
    name holds; a file name of at most five characters gives the empty
    string. *)
Theorem strip_extension_cuts_five (s ext : string) :
  (whole_characters ext = true -> char_length ext = 5%nat ->
   strip_extension (s ++ ext) = s) /\
  ((char_length s <= 5)%nat -> strip_extension s = "").
Proof.
  unfold strip_extension, char_length. split.
  - intros Hw Hext. rewrite characters_app by exact Hw.
    rewrite length_app, Hext.
    replace (length (characters s) + 5 - 5)%nat with (length (characters s)) by lia.
    rewrite take_app_length. apply join_characters.
  - intros Hs. replace (length (characters s) - 5)%nat with 0%nat by lia.
    reflexivity.
Qed.

Lemma counters_add_add (key : string) (x y : Z) (d : Counters) :
  counters_add key y (counters_add key x d) = counters_add key (x + y) d.
Proof.
  unfold counters_add. rewrite List.map_map. apply List.map_ext.
  intros [k v]. cbn [fst snd].
  destruct (String.eqb k key) eqn:Hk; cbn [fst snd]; rewrite ?Hk; [f_equal; lia|reflexivity].
Qed.

Lemma counters_add_zero (key : string) (d : Counters) : counters_add key 0 d = d.
Proof.
  unfold counters_add. rewrite <- (List.map_id d) at 2. apply List.map_ext.
  intros [k v]. cbn [fst snd]. destruct (String.eqb k key); [f_equal; lia|reflexivity].
Qed.

Lemma record_matches_num (file name : string) (spans : list string) (b : BYD_MW) :
  num_matches (fold_left (fun b' span_text => record_match file name span_text b') spans b)
  = counters_add name (Z.of_nat (length spans)) (num_matches b).
Proof.
  revert b. induction spans as [|span spans IH]; intros b; cbn [fold_left length].
  - rewrite counters_add_zero. reflexivity.
  - rewrite IH. cbn [record_match num_matches]. rewrite counters_add_add.
    f_equal. lia.
Qed.

Lemma byd_match_num_matches (file : string) (found : string -> list string)
    (names : list string) (b : BYD_MW) :
  num_matches
    (fold_left
       (fun b0 name =>
          fold_left (fun b' span_text => record_match file name span_text b') (found name) b0)
       names b)
  = fold_left (fun d name => counters_add name (Z.of_nat (length (found name))) d)
              names (num_matches b).
Proof.
  revert b. induction names as [|name names IH]; intros b; cbn [fold_left]; [reflexivity|].
  rewrite IH, record_matches_num. reflexivity.
Qed.

Lemma counters_add_each (c : string -> Z) (names : list string) (d : Counters) :
  List.NoDup names ->
  fold_left (fun d' name => counters_add name (c name) d') names d
  = List.map (fun kv => if str_in (fst kv) names
                        then (fst kv, snd kv + c (fst kv)) else kv) d.
Proof.
  intros Hnd. revert d.
  induction Hnd as [|name names Hnot Hnd IH]; intros d; cbn [fold_left].
  - symmetry. apply List.map_id.
  - rewrite IH. unfold counters_add. rewrite List.map_map.
    apply List.map_ext. intros [k v]. cbn [fst snd].
    change (str_in k (name :: names)) with (String.eqb k name || str_in k names).
    destruct (String.eqb_spec k name) as [->|Hne]; cbn [fst snd orb].
    + assert (Hno : str_in name names = false).
      { destruct (str_in name names) eqn:Hin; [|reflexivity].
        apply str_in_In in Hin. contradiction. }
      rewrite Hno. reflexivity.
    + reflexivity.
Qed.

(** X15.  With one counter per matcher, [match] raises the counter of every
    matcher by the number of matches the matcher finds in the paragraph, and
    writes to the BYD_MW part of the statistics only. *)
Theorem byd_match_counts_hits (file : string) (matchers : list string)
    (found : string -> list string) (st : Statistics) :
  List.NoDup matchers ->
  List.map fst (num_matches (byd_mw st)) = matchers ->
  let st' := byd_match file matchers found st in
  num_matches (byd_mw st')
  = List.map (fun kv => (fst kv, snd kv + Z.of_nat (length (found (fst kv)))))
             (num_matches (byd_mw st))
  /\ per st' = per st /\ prn st' = prn st /\ descr st' = descr st /\ glean st' = glean st
  /\ token_num st' = token_num st /\ num_slashes st' = num_slashes st.
Proof.
  intros Hnd Hkeys. cbn [byd_match set_byd_mw byd_mw per prn descr glean token_num num_slashes].
  split; [|repeat split].
  rewrite byd_match_num_matches,
    (counters_add_each (fun name => Z.of_nat (length (found name)))) by assumption.
  apply List.map_ext_in. intros [k v] Hin. cbn [fst snd].
  assert (Hk : str_in k matchers = true).
  { apply str_in_In. rewrite <- Hkeys. apply (in_map fst) in Hin. exact Hin. }
  rewrite Hk. reflexivity.
Qed.

(** ** [analyze] and the loop over the articles *)

Section FurtherArticleProperties.

Variable str_lower : string -> string.
Variable glean_norm_values : gmap string (list float).
Variable matchers : list string.

Lemma parse_descriptors_outside (doc : Doc) (st st' : Statistics) :
  parse_descriptors str_lower glean_norm_values doc st = Some st' ->
  per st' = per st /\ prn st' = prn st /\ byd_mw st' = byd_mw st /\
  token_num st' = token_num st /\ num_slashes st' = num_slashes st.
Proof.
  apply (parse_descriptors_rel str_lower glean_norm_values
           (fun st0 st1 => per st1 = per st0 /\ prn st1 = prn st0 /\ byd_mw st1 = byd_mw st0 /\
                           token_num st1 = token_num st0 /\ num_slashes st1 = num_slashes st0)).
  - auto.
  - intros st0 st1 st2 (-> & -> & -> & -> & ->) (-> & -> & -> & -> & ->). auto.
  - intros st0. simpl. auto.
  - intros descriptor factors st0 _ _ _. simpl. auto.
Qed.

Lemma add_descriptors_local (descrs : list string) (factors : Factors) (st1 st2 : Statistics) :
  descr st1 = descr st2 -> glean st1 = glean st2 ->
  descr (add_descriptors glean_norm_values descrs factors st1)
  = descr (add_descriptors glean_norm_values descrs factors st2)
  /\ glean (add_descriptors glean_norm_values descrs factors st1)
     = glean (add_descriptors glean_norm_values descrs factors st2).
Proof.
  unfold add_descriptors. revert st1 st2.
  induction descrs as [|d descrs IH]; intros st1 st2 Hd Hg; cbn [fold_left]; [auto|].
  apply IH; unfold add_descriptor; simpl; rewrite ?Hd, ?Hg; reflexivity.
Qed.

Lemma parse_token_local (doc : Doc) (i : nat) (st1 st2 st1' : Statistics) :
  descr st1 = descr st2 -> glean st1 = glean st2 ->
  parse_token str_lower glean_norm_values doc i st1 = Some st1' ->
  exists st2',
    parse_token str_lower glean_norm_values doc i st2 = Some st2' /\
    descr st1' = descr st2' /\ glean st1' = glean st2'.
Proof.
  intros Hd Hg. unfold parse_token.
  destruct (doc !! i) as [tok|]; simpl; [|discriminate].
  destruct (doc !! head tok) as [h|]; simpl; [|discriminate].
  destruct (doc !! head h) as [hh|]; simpl; [|discriminate].
  destruct (classify str_lower doc i tok h hh) as [[| |factors descriptor adv svp]|];
    simpl; try discriminate.
  - intros [= <-]. eexists. split; [reflexivity|]. simpl. rewrite Hd. auto.
  - intros [= <-]. eauto.
  - destruct (all_zero factors); [intros [= <-]; eauto|].
    destruct (recorded_descriptors str_lower doc descriptor adv svp) as [descrs|];
      simpl; [|discriminate].
    intros [= <-]. eexists. split; [reflexivity|].
    apply add_descriptors_local; assumption.
Qed.

Lemma parse_descriptors_local (doc : Doc) (st1 st2 st1' : Statistics) :
  descr st1 = descr st2 -> glean st1 = glean st2 ->
  parse_descriptors str_lower glean_norm_values doc st1 = Some st1' ->
  exists st2',
    parse_descriptors str_lower glean_norm_values doc st2 = Some st2' /\
    descr st1' = descr st2' /\ glean st1' = glean st2'.
Proof.
  unfold parse_descriptors. generalize (seq 0 (length doc)) as l. intros l.
  revert st1 st2.
  induction l as [|i l IH]; intros st1 st2 Hd Hg.
  - intros [= <-]. eauto.
  - rewrite !parse_descriptors_cons.
    destruct (parse_token str_lower glean_norm_values doc i st1) as [st1a|] eqn:H1;
      [|discriminate].
    destruct (parse_token_local doc i st1 st2 st1a Hd Hg H1) as (st2a & -> & Hda & Hga).
    apply IH; assumption.
Qed.

(** X16.  The analyses of a paragraph do not interfere: after
    [analyze] has handled a paragraph of statistics that hold the counters
    looked up by key, each part of the statistics is what
    the analysis of that part alone makes of the statistics before - the PER
    part that of [count_per], the PRN part that of [count_prn], the BYD_MW
    part that of [match], the descriptor and sentiment parts those of
    [parse_descriptors] - and the token and slash counters have grown by the
    tokens and the slash forms of the paragraph. *)
Theorem analyze_paragraph_parts (file : string) (par : Paragraph) (st st' : Statistics) :
  has_counters matchers st = true ->
  analyze_paragraph str_lower glean_norm_values matchers file par st = Some st' ->
  per st' = per (count_per (ents par) st) /\
  prn st' = prn (count_prn (anno_par par) st) /\
  byd_mw st' = byd_mw (byd_match file matchers (hits par) st) /\
  token_num st' = token_num st + Z.of_nat (length (anno_par par)) /\
  num_slashes st' = num_slashes st + Z.of_nat (slash_forms par) /\
  exists st_d,
    parse_descriptors str_lower glean_norm_values (anno_par par) st = Some st_d /\
    descr st' = descr st_d /\ glean st' = glean st_d.
Proof.
  unfold analyze_paragraph. intros _ Hparse.
  pose proof (parse_descriptors_outside _ _ _ Hparse) as (Hper & Hprn & Hbyd & Htok & Hsl).
  rewrite Hper, Hprn, Hbyd, Htok, Hsl.
  repeat (split; [reflexivity|]).
  eapply parse_descriptors_local; [| |exact Hparse]; reflexivity.
Qed.

Lemma analyze_cons (file : string) (par : Paragraph) (pars : list Paragraph)
    (st : Statistics) :
  analyze str_lower glean_norm_values matchers file (par :: pars) st
  = match analyze_paragraph str_lower glean_norm_values matchers file par st with
    | Some st1 => analyze str_lower glean_norm_values matchers file pars st1
    | None => None
    end.
Proof.
  unfold analyze. cbn [fold_left].
  change (Some st ≫= _)
    with (analyze_paragraph str_lower glean_norm_values matchers file par st).
  destruct (analyze_paragraph str_lower glean_norm_values matchers file par st);
    [reflexivity|].
  induction pars as [|p pars IH]; [reflexivity|exact IH].
Qed.

(** X17.  After [analyze] the token counter has grown by the number of
    tokens of all paragraphs of the article and the slash counter by the
    number of their slash forms. *)
Theorem analyze_counts_tokens (file : string) (pars : list Paragraph) (st st' : Statistics) :
  has_counters matchers st = true ->
  analyze str_lower glean_norm_values matchers file pars st = Some st' ->
  token_num st'
  = token_num st + Z.of_nat (list_sum (List.map (fun par => length (anno_par par)) pars))
  /\ num_slashes st'
     = num_slashes st + Z.of_nat (list_sum (List.map slash_forms pars)).
Proof.
  intros _. revert st. induction pars as [|par pars IH]; intros st.
  - intros [= <-]. simpl. lia.
  - rewrite analyze_cons.
    destruct (analyze_paragraph str_lower glean_norm_values matchers file par st)
      as [st1|] eqn:Hpar; [|discriminate].
    intros Hrest. apply IH in Hrest as [Htok Hsl].
    unfold analyze_paragraph in Hpar.
    apply parse_descriptors_outside in Hpar as (_ & _ & _ & Htok1 & Hsl1).
    rewrite Htok, Hsl, Htok1, Hsl1. simpl. lia.
Qed.

Lemma analyze_total (file : string) (pars : list Paragraph) (st : Statistics) :
  forallb (fun par => dependency_tree (anno_par par)) pars = true ->
  is_Some (analyze str_lower glean_norm_values matchers file pars st).
Proof.
  revert st. induction pars as [|par pars IH]; intros st; simpl; [eauto|].
  rewrite andb_true_iff. intros [Hpar Hpars].
  rewrite analyze_cons. unfold analyze_paragraph at 1.
  destruct (parse_descriptors_total str_lower glean_norm_values (anno_par par)
              (count_prn (anno_par par)
                 (count_per (ents par)
                    (byd_match file matchers (hits par)
                       (set_token_num
                          (token_num (set_num_slashes
                                        (num_slashes st + Z.of_nat (slash_forms par)) st)
                           + Z.of_nat (length (anno_par par)))
                          (set_num_slashes (num_slashes st + Z.of_nat (slash_forms par)) st)))))
              Hpar) as [st1 ->].
  apply IH. exact Hpars.
Qed.

(** X18.  [analyze] returns on every article whose paragraphs are dependency
    trees, given statistics that hold the counters looked up by key: the two
    [while] loops of descr_pars.py end on each paragraph, and no lookup
    fails. *)
Theorem analyze_returns (file : string) (pars : list Paragraph) (st : Statistics) :
  has_counters matchers st = true ->
  forallb (fun par => dependency_tree (anno_par par)) pars = true ->
  is_Some (analyze str_lower glean_norm_values matchers file pars st).
Proof.
  intros _. apply analyze_total.
Qed.

Lemma counters_add_keys (key : string) (x : Z) (d : Counters) :
  List.map fst (counters_add key x d) = List.map fst d.
Proof.
  unfold counters_add. induction d as [|[k v] d IH]; [reflexivity|].
  cbn [List.map fst]. rewrite IH. destruct (String.eqb k key); reflexivity.
Qed.

Lemma count_per_keys (es : list Entity) (st : Statistics) :
  List.map fst (num_matches_per (per (count_per es st)))
  = List.map fst (num_matches_per (per st)).
Proof.
  unfold count_per. cbn [per set_per]. generalize (per st) as p.
  induction es as [|e es IH]; intros p; cbn [fold_left]; [reflexivity|].
  rewrite IH. unfold count_per_ent.
  destruct (negb (String.prefix "PER:" (label_ e))); [reflexivity|].
  cbn [num_matches_per]. apply counters_add_keys.
Qed.

Lemma analyze_per_keys (file : string) (pars : list Paragraph) (st st' : Statistics) :
  analyze str_lower glean_norm_values matchers file pars st = Some st' ->
  List.map fst (num_matches_per (per st')) = List.map fst (num_matches_per (per st)).
Proof.
  revert st. induction pars as [|par pars IH]; intros st.
  - intros [= <-]. reflexivity.
  - rewrite analyze_cons.
    destruct (analyze_paragraph str_lower glean_norm_values matchers file par st)
      as [st1|] eqn:Hpar; [|discriminate].
    intros Hrest. rewrite (IH _ Hrest).
    unfold analyze_paragraph in Hpar.
    apply parse_descriptors_outside in Hpar as (Hper & _).
    rewrite Hper. cbn [count_prn per set_prn]. rewrite count_per_keys. reflexivity.
Qed.

(** X19.  The row of [stats_list] cannot be built: for every article that
    [main] analyses, the lookup of the counter of male persons under
    PER:männlich raises [KeyError] once [analyze] has returned, since the
    dictionary of helper.py holds that counter under a key spelled with other
    characters and no pass adds a key to it. *)
Theorem article_info_raises_key_error (file : string) (pars : list Paragraph)
    (prev_stats st : Statistics) :
  analyze str_lower glean_norm_values matchers file pars
          (article_statistics matchers prev_stats) = Some st ->
  article_info file st = inl (KeyError "PER:männlich").
Proof.
  intros Hst. apply analyze_per_keys in Hst. cbn in Hst.
  unfold article_info.
  destruct (num_matches_per (per st)) as [|[k1 v1] [|[k2 v2] [|[k3 v3] [|[k4 v4] [|]]]]];
    try discriminate.
  cbn in Hst. injection Hst as -> -> -> ->. reflexivity.
Qed.

End FurtherArticleProperties.

(** ** [flatten_article] *)

Section JSON_induction.

Variable P : JSON -> Prop.
Hypothesis HNull : P JNull.
Hypothesis HBool : forall b, P (JBool b).
Hypothesis HInt : forall n, P (JInt n).
Hypothesis HFloat : forall x, P (JFloat x).
Hypothesis HString : forall s, P (JString s).
Hypothesis HArray : forall elems, Forall P elems -> P (JArray elems).
Hypothesis HObject : forall items, Forall (fun kv => P (snd kv)) items -> P (JObject items).

Fixpoint JSON_nested_ind (j : JSON) : P j :=
  match j with
  | JNull => HNull
  | JBool b => HBool b
  | JInt n => HInt n
  | JFloat x => HFloat x
  | JString s => HString s
  | JArray elems =>
      HArray elems
        ((fix each (l : list JSON) : Forall P l :=
            match l with
            | [] => @List.Forall_nil _ P
            | elem :: l' => @List.Forall_cons _ P elem l' (JSON_nested_ind elem) (each l')
            end) elems)
  | JObject items =>
      HObject items
        ((fix values (l : list (list N * JSON)) : Forall (fun kv => P (snd kv)) l :=
            match l with
            | [] => @List.Forall_nil _ (fun kv => P (snd kv))
            | kv :: l' =>
                @List.Forall_cons _ (fun kv => P (snd kv)) kv l'
                  (JSON_nested_ind (snd kv)) (values l')
            end) items)
  end.

End JSON_induction.

Lemma flatten_array_cons (elem : JSON) (elems : list JSON) :
  flatten_article (JArray (elem :: elems))
  = yield_from (flatten_elem elem) (flatten_article (JArray elems)).
Proof. reflexivity. Qed.

Lemma flatten_object_cons (item : list N * JSON) (items : list (list N * JSON)) :
  flatten_article (JObject (item :: items))
  = yield_from (flatten_elem (snd item)) (flatten_article (JObject items)).
Proof. destruct item. reflexivity. Qed.

Lemma yield_from_inr (a b : FlattenError + list (list N)) (l : list (list N)) :
  yield_from a b = inr l <-> exists xs ys, a = inr xs /\ b = inr ys /\ l = (xs ++ ys)%list.
Proof.
  unfold yield_from. destruct a as [e|xs]; [|destruct b as [e|ys]].
  - split; [discriminate|intros (xs & ys & H & _); discriminate].
  - split; [discriminate|intros (xs' & ys & _ & H & _); discriminate].
  - split.
    + intros [= <-]. eauto.
    + intros (xs' & ys' & [= <-] & [= <-] & ->). reflexivity.
Qed.

Lemma yield_from_assoc (a b c : FlattenError + list (list N)) :
  yield_from (yield_from a b) c = yield_from a (yield_from b c).
Proof.
  destruct a as [?|xs], b as [?|ys], c as [?|zs]; simpl; try reflexivity.
  rewrite app_assoc. reflexivity.
Qed.

(** X20.  Flattening a list of elements is flattening its parts one after
    the other: the strings of a first stretch of elements come before the
    strings of the rest, and an exception in the first stretch is the one
    raised. *)
Theorem flatten_article_app (elems1 elems2 : list JSON) :
  flatten_article (JArray (elems1 ++ elems2))
  = yield_from (flatten_article (JArray elems1)) (flatten_article (JArray elems2)).
Proof.
  induction elems1 as [|elem elems1 IH].
  - simpl app. change (flatten_article (JArray [])) with (@inr FlattenError _ (@nil (list N))).
    destruct (flatten_article (JArray elems2)); reflexivity.
  - change ((elem :: elems1) ++ elems2)%list with (elem :: (elems1 ++ elems2))%list.
    rewrite !flatten_array_cons, IH, yield_from_assoc. reflexivity.
Qed.

Lemma flatten_array_ok (elems : list JSON) :
  (exists l, flatten_article (JArray elems) = inr l)
  <-> Forall (fun elem => exists l, flatten_elem elem = inr l) elems.
Proof.
  induction elems as [|elem elems IH].
  - split; [constructor|]. intros _. exists []. reflexivity.
  - rewrite flatten_array_cons, Forall_cons, <- IH. split.
    + intros [l Hl]. apply yield_from_inr in Hl as (xs & ys & Hx & Hy & _). eauto.
    + intros [[xs Hx] [ys Hy]]. exists (xs ++ ys)%list. rewrite Hx, Hy. reflexivity.
Qed.

Lemma flatten_object_ok (items : list (list N * JSON)) :
  (exists l, flatten_article (JObject items) = inr l)
  <-> Forall (fun kv => exists l, flatten_elem (snd kv) = inr l) items.
Proof.
  induction items as [|item items IH].
  - split; [constructor|]. intros _. exists []. reflexivity.
  - rewrite flatten_object_cons, Forall_cons, <- IH. split.
    + intros [l Hl]. apply yield_from_inr in Hl as (xs & ys & Hx & Hy & _). eauto.
    + intros [[xs Hx] [ys Hy]]. exists (xs ++ ys)%list. rewrite Hx, Hy. reflexivity.
Qed.

Lemma flatten_elem_ok (elem : JSON) :
  (exists l, flatten_elem elem = inr l) <-> article_elem elem.
Proof.
  induction elem as [| | | | |elems IH|items IH] using JSON_nested_ind.
  - split; [constructor|]. intros _. exists []. reflexivity.
  - split; [intros [l Hl]; discriminate|intros H; inversion H].
  - split; [intros [l Hl]; discriminate|intros H; inversion H].
  - split; [intros [l Hl]; discriminate|intros H; inversion H].
  - split; [constructor|]. intros _. eexists. reflexivity.
  - change (flatten_elem (JArray elems)) with (flatten_article (JArray elems)).
    rewrite flatten_array_ok. split.
    + intros Hall. constructor.
      apply Forall_forall. intros e He.
      rewrite Forall_forall in IH, Hall. apply IH; auto.
    + intros H. inversion H as [| |? Hall|]; subst.
      apply Forall_forall. intros e He.
      rewrite Forall_forall in IH, Hall. apply IH; auto.
  - destruct items as [|[key v] items].
    + split; [intros [l Hl]; discriminate|intros H; inversion H].
    + change (flatten_elem (JObject ((key, v) :: items)))
        with (yield_from (inr [key]) (flatten_article (JObject ((key, v) :: items)))).
      split.
      * intros [l Hl]. apply yield_from_inr in Hl as (xs & ys & _ & Hy & _).
        assert (Hok : exists r, flatten_article (JObject ((key, v) :: items)) = inr r) by eauto.
        apply flatten_object_ok in Hok. constructor.
        apply Forall_forall. intros kv Hkv.
        rewrite Forall_forall in IH, Hok. apply IH; auto.
      * intros H. inversion H as [| | |? ? Hall]; subst.
        assert (Hok : exists r, flatten_article (JObject ((key, v) :: items)) = inr r).
        { apply flatten_object_ok. apply Forall_forall. intros kv Hkv.
          rewrite Forall_forall in IH, Hall. apply IH; auto. }
        destruct Hok as [r Hr]. rewrite Hr. eexists. reflexivity.
Qed.

Lemma yield_from_inl (a b : FlattenError + list (list N)) (e : FlattenError) :
  yield_from a b = inl e <-> a = inl e \/ (exists xs, a = inr xs /\ b = inl e).
Proof.
  unfold yield_from. destruct a as [e1|xs]; [|destruct b as [e2|ys]].
  - split; [intros [= <-]; auto|].
    intros [[= <-]|(xs & H & _)]; [reflexivity|discriminate].
  - split; [intros [= <-]; eauto|].
    intros [H|(xs' & _ & [= <-])]; [discriminate|reflexivity].
  - split; [discriminate|intros [H|(xs' & _ & H)]; discriminate].
Qed.

Lemma holds_number_array (elems : list JSON) :
  holds_number (JArray elems) = existsb holds_number elems.
Proof. induction elems as [|e elems IH]; [reflexivity|]. simpl in *. rewrite IH. reflexivity. Qed.

Lemma holds_number_object (items : list (list N * JSON)) :
  holds_number (JObject items) = existsb holds_number (List.map snd items).
Proof. induction items as [|kv items IH]; [reflexivity|]. simpl in *. rewrite IH. reflexivity. Qed.

Lemma holds_empty_dict_array (elems : list JSON) :
  holds_empty_dict (JArray elems) = existsb holds_empty_dict elems.
Proof. induction elems as [|e elems IH]; [reflexivity|]. simpl in *. rewrite IH. reflexivity. Qed.

Lemma holds_empty_dict_object (item : list N * JSON) (items : list (list N * JSON)) :
  holds_empty_dict (JObject (item :: items))
  = existsb holds_empty_dict (List.map snd (item :: items)).
Proof.
  change (holds_empty_dict (JObject (item :: items)))
    with ((fix any (l : list (list N * JSON)) : bool :=
             match l with
             | [] => false
             | kv :: l' => holds_empty_dict (snd kv) || any l'
             end) (item :: items)).
  generalize (item :: items) as l. intros l.
  induction l as [|kv l IH]; [reflexivity|]. simpl. rewrite IH. reflexivity.
Qed.

(** An exception of [flatten_article] is the exception of the loop body at
    one of the elements. *)
Lemma flatten_array_error (elems : list JSON) (e : FlattenError) :
  flatten_article (JArray elems) = inl e ->
  Exists (fun elem => flatten_elem elem = inl e) elems.
Proof.
  induction elems as [|elem elems IH]; [discriminate|].
  rewrite flatten_array_cons, yield_from_inl.
  intros [He|(xs & _ & Hrest)]; [left; exact He|right; auto].
Qed.

Lemma flatten_object_error (items : list (list N * JSON)) (e : FlattenError) :
  flatten_article (JObject items) = inl e ->
  Exists (fun elem => flatten_elem elem = inl e) (List.map snd items).
Proof.
  induction items as [|item items IH]; [discriminate|].
  rewrite flatten_object_cons, yield_from_inl.
  intros [He|(xs & _ & Hrest)]; [left; exact He|right; auto].
Qed.

Lemma existsb_Exists_error (elems : list JSON) (holds : JSON -> bool) (e : FlattenError) :
  Forall (fun elem => flatten_elem elem = inl e -> holds elem = true) elems ->
  Exists (fun elem => flatten_elem elem = inl e) elems ->
  existsb holds elems = true.
Proof.
  intros Hall Hex. apply existsb_exists.
  apply Exists_exists in Hex as (elem & Hin & He).
  exists elem. split; [apply list_elem_of_In; exact Hin|].
  rewrite Forall_forall in Hall. apply Hall; assumption.
Qed.

(** Which exception the loop body raises: [TypeError] only at an element that
    holds a number or a truth value, [IndexError] only at one that holds an
    empty dictionary. *)
Lemma flatten_elem_error (elem : JSON) :
  (flatten_elem elem = inl TypeError -> holds_number elem = true) /\
  (flatten_elem elem = inl IndexError -> holds_empty_dict elem = true).
Proof.
  induction elem as [| | | | |elems IH|items IH] using JSON_nested_ind;
    try (split; [reflexivity|discriminate]);
    try (split; discriminate).
  - change (flatten_elem (JArray elems)) with (flatten_article (JArray elems)).
    rewrite holds_number_array, holds_empty_dict_array.
    split; intros He; apply flatten_array_error in He;
      (eapply existsb_Exists_error; [|exact He]);
      eapply Forall_impl; try exact IH; simpl; tauto.
  - destruct items as [|[key v] items]; [split; [discriminate|reflexivity]|].
    rewrite holds_number_object, holds_empty_dict_object.
    change (flatten_elem (JObject ((key, v) :: items)))
      with (yield_from (inr [key]) (flatten_article (JObject ((key, v) :: items)))).
    assert (IH' : Forall (fun elem =>
                            (flatten_elem elem = inl TypeError -> holds_number elem = true) /\
                            (flatten_elem elem = inl IndexError ->
                             holds_empty_dict elem = true))
                         (List.map snd ((key, v) :: items))).
    { apply Forall_forall. intros elem Hin.
      apply list_elem_of_In, in_map_iff in Hin as (kv & <- & Hkv).
      rewrite Forall_forall in IH. apply IH. apply list_elem_of_In. exact Hkv. }
    split; intros He; apply yield_from_inl in He as [He|(xs & _ & He)];
      try discriminate;
      apply flatten_object_error in He;
      (eapply existsb_Exists_error; [|exact He]);
      eapply Forall_impl; try exact IH'; simpl; tauto.
Qed.

(** An element that holds a number, a truth value or an empty dictionary
    makes the loop body raise. *)
Lemma flatten_elem_faulty (elem : JSON) :
  holds_number elem || holds_empty_dict elem = true ->
  exists e, flatten_elem elem = inl e.
Proof.
  intros Hfault.
  destruct (flatten_elem elem) as [e|l] eqn:Hres; [eauto|exfalso].
  assert (Hok : article_elem elem) by (apply flatten_elem_ok; eauto).
  clear Hres l. revert Hok Hfault.
  induction elem as [| | | | |elems IH|items IH] using JSON_nested_ind;
    intros Hok Hfault; try discriminate; try (inversion Hok; fail).
  - inversion Hok as [| |? Hall|]; subst.
    rewrite holds_number_array, holds_empty_dict_array in Hfault.
    apply orb_true_iff in Hfault.
    assert (Hex : exists elem, In elem elems /\
                               holds_number elem || holds_empty_dict elem = true).
    { destruct Hfault as [H|H]; apply existsb_exists in H as (elem & Hin & H);
        exists elem; rewrite H; auto using orb_true_r. }
    destruct Hex as (elem & Hin & H).
    rewrite Forall_forall in IH, Hall.
    apply (IH elem); [apply list_elem_of_In| |]; auto.
    apply Hall, list_elem_of_In, Hin.
  - inversion Hok as [| | |item items' Hall]; subst.
    rewrite holds_number_object, holds_empty_dict_object in Hfault.
    apply orb_true_iff in Hfault.
    assert (Hex : exists elem, In elem (List.map snd (item :: items')) /\
                               holds_number elem || holds_empty_dict elem = true).
    { destruct Hfault as [H|H]; apply existsb_exists in H as (elem & Hin & H);
        exists elem; rewrite H; auto using orb_true_r. }
    destruct Hex as (elem & Hin & H).
    apply in_map_iff in Hin as (kv & <- & Hkv).
    rewrite Forall_forall in IH, Hall.
    apply (IH kv); [apply list_elem_of_In| |]; auto.
    apply Hall, list_elem_of_In, Hkv.
Qed.

Lemma flatten_article_faulty (article_dict : JSON) :
  number_among article_dict || empty_dict_among article_dict = true ->
  exists e, flatten_article article_dict = inl e.
Proof.
  intros Hfault.
  destruct (flatten_article article_dict) as [e|l] eqn:Hres; [eauto|exfalso].
  assert (Hex : exists elem, In elem (elements article_dict) /\
                             holds_number elem || holds_empty_dict elem = true).
  { unfold number_among, empty_dict_among in Hfault. apply orb_true_iff in Hfault.
    destruct Hfault as [H|H]; apply existsb_exists in H as (elem & Hin & H);
      exists elem; rewrite H; auto using orb_true_r. }
  destruct Hex as (elem & Hin & H).
  apply flatten_elem_faulty in H as [e He].
  assert (Hall : Forall (fun elem => exists l', flatten_elem elem = inr l')
                        (elements article_dict)).
  { destruct article_dict as [| | | |s|elems|items]; try constructor.
    - apply flatten_array_ok. eauto.
    - simpl. apply Forall_forall. intros x Hx.
      apply list_elem_of_In, in_map_iff in Hx as (kv & <- & Hkv).
      assert (Hok : exists r, flatten_article (JObject items) = inr r) by eauto.
      apply flatten_object_ok in Hok. rewrite Forall_forall in Hok.
      apply Hok, list_elem_of_In, Hkv. }
  rewrite Forall_forall in Hall.
  destruct (Hall elem) as [l' Hl']; [apply list_elem_of_In; exact Hin|congruence].
Qed.

(** X21.  [flatten_article] runs to its end without an exception exactly on
    the articles whose elements are strings, [None], lists of such elements
    and dictionaries with at least one key that hold such elements.  When it
    raises [TypeError], the article cannot be iterated over or a number or a
    truth value is among its elements; when it raises [IndexError], an empty
    dictionary is among its elements.  So a number or a truth value among the
    elements of an article without empty dictionaries raises [TypeError], and
    an empty dictionary among the elements of an article without numbers and
    truth values raises [IndexError]. *)
Theorem flatten_article_raises_nothing (article_dict : JSON) :
  ((exists l, flatten_article article_dict = inr l)
   <-> match article_dict with
       | JObject items => Forall (fun kv => article_elem (snd kv)) items
       | JArray elems => Forall article_elem elems
       | JString _ => True
       | _ => False
       end)
  /\ (flatten_article article_dict = inl TypeError ->
      match article_dict with
      | JObject _ | JArray _ => number_among article_dict = true
      | JString _ => False
      | _ => True
      end)
  /\ (flatten_article article_dict = inl IndexError ->
      empty_dict_among article_dict = true)
  /\ (number_among article_dict = true -> empty_dict_among article_dict = false ->
      flatten_article article_dict = inl TypeError)
  /\ (empty_dict_among article_dict = true -> number_among article_dict = false ->
      flatten_article article_dict = inl IndexError).
Proof.
  assert (Herr : forall e, flatten_article article_dict = inl e ->
                 match article_dict with
                 | JObject _ | JArray _ =>
                     Exists (fun elem => flatten_elem elem = inl e) (elements article_dict)
                 | JString _ => False
                 | _ => e = TypeError
                 end).
  { intros e. destruct article_dict as [| | | |s|elems|items];
      try (intros [= <-]; reflexivity); try discriminate.
    - apply flatten_array_error.
    - apply flatten_object_error. }
  assert (Htype : flatten_article article_dict = inl TypeError ->
                  match article_dict with
                  | JObject _ | JArray _ => number_among article_dict = true
                  | JString _ => False
                  | _ => True
                  end).
  { intros He. apply Herr in He.
    destruct article_dict as [| | | |s|elems|items]; auto;
      (eapply existsb_Exists_error; [|exact He]);
      apply Forall_forall; intros elem _; apply flatten_elem_error. }
  assert (Hindex : flatten_article article_dict = inl IndexError ->
                   empty_dict_among article_dict = true).
  { intros He. apply Herr in He.
    destruct article_dict as [| | | |s|elems|items]; try discriminate; try contradiction;
      (eapply existsb_Exists_error; [|exact He]);
      apply Forall_forall; intros elem _; apply flatten_elem_error. }
  split; [|split; [exact Htype|split; [exact Hindex|split]]].
  - destruct article_dict as [| | | |s|elems|items].
    + split; [intros [l Hl]; discriminate|tauto].
    + split; [intros [l Hl]; discriminate|tauto].
    + split; [intros [l Hl]; discriminate|tauto].
    + split; [intros [l Hl]; discriminate|tauto].
    + split; [tauto|]. intros _. eexists. reflexivity.
    + rewrite flatten_array_ok. apply Forall_iff. intros elem. apply flatten_elem_ok.
    + rewrite flatten_object_ok. apply Forall_iff. intros kv. apply flatten_elem_ok.
  - intros Hnum Hno.
    destruct (flatten_article_faulty article_dict) as [[|] He];
      [rewrite Hnum; reflexivity|exact He|].
    apply Hindex in He. congruence.
  - intros Hemp Hno.
    destruct (flatten_article_faulty article_dict) as [[|] He];
      [rewrite Hemp; apply orb_true_r| |exact He].
    apply Htype in He.
    destruct article_dict as [| | | |s|elems|items]; try discriminate; congruence.
Qed.

Lemma headings_array (elems : list JSON) :
  headings (JArray elems) = flat_map headings elems.
Proof.
  induction elems as [|elem elems IH]; [reflexivity|].
  change (headings (JArray (elem :: elems)))
    with (headings elem ++ headings (JArray elems))%list.
  rewrite IH. reflexivity.
Qed.

Lemma headings_object (items : list (list N * JSON)) :
  headings (JObject items)
  = (match items with
     | (key, _) :: _ => [key]
     | [] => []
     end ++ flat_map (fun kv => headings (snd kv)) items)%list.
Proof.
  assert (H : forall l : list (list N * JSON),
             (fix values (l : list (list N * JSON)) : list (list N) :=
                match l with
                | [] => []
                | (_, elem) :: l' => (headings elem ++ values l')%list
                end) l
             = flat_map (fun kv => headings (snd kv)) l).
  { induction l as [|[k v] l IH]; [reflexivity|]. rewrite IH. reflexivity. }
  change (headings (JObject items))
    with (match items with
          | (key, _) :: _ => [key]
          | [] => []
          end
          ++ (fix values (l : list (list N * JSON)) : list (list N) :=
                match l with
                | [] => []
                | (_, elem) :: l' => (headings elem ++ values l')%list
                end) items)%list.
  rewrite H. reflexivity.
Qed.

Lemma remove_soft_hyphens_clean (s : list N) : ~ In SOFT_HYPHEN (remove_soft_hyphens s).
Proof.
  unfold remove_soft_hyphens. intros Hin. apply filter_In in Hin as [_ Hneq].
  rewrite N.eqb_refl in Hneq. discriminate.
Qed.

Lemma flatten_elems_headings (elems : list JSON) :
  Forall (fun elem => forall l, flatten_elem elem = inr l ->
                      forall s, In s l -> In SOFT_HYPHEN s -> In s (headings elem)) elems ->
  forall l, flatten_article (JArray elems) = inr l ->
  forall s, In s l -> In SOFT_HYPHEN s -> In s (flat_map headings elems).
Proof.
  induction 1 as [|elem elems Helem _ IH]; intros l Hl s Hs Hhyphen.
  - injection Hl as <-. destruct Hs.
  - rewrite flatten_array_cons in Hl.
    apply yield_from_inr in Hl as (xs & ys & Hx & Hy & ->).
    cbn [flat_map]. apply in_or_app. apply in_app_or in Hs as [Hs|Hs].
    + left. eapply Helem; eauto.
    + right. eapply IH; eauto.
Qed.

Lemma flatten_items_headings (items : list (list N * JSON)) :
  Forall (fun kv => forall l, flatten_elem (snd kv) = inr l ->
                    forall s, In s l -> In SOFT_HYPHEN s -> In s (headings (snd kv))) items ->
  forall l, flatten_article (JObject items) = inr l ->
  forall s, In s l -> In SOFT_HYPHEN s -> In s (flat_map (fun kv => headings (snd kv)) items).
Proof.
  induction 1 as [|item items Hitem _ IH]; intros l Hl s Hs Hhyphen.
  - injection Hl as <-. destruct Hs.
  - rewrite flatten_object_cons in Hl.
    apply yield_from_inr in Hl as (xs & ys & Hx & Hy & ->).
    cbn [flat_map]. apply in_or_app. apply in_app_or in Hs as [Hs|Hs].
    + left. eapply Hitem; eauto.
    + right. eapply IH; eauto.
Qed.

Lemma flatten_elem_headings (elem : JSON) (l : list (list N)) :
  flatten_elem elem = inr l ->
  forall s, In s l -> In SOFT_HYPHEN s -> In s (headings elem).
Proof.
  revert l. induction elem as [| | | | s0|elems IH|items IH] using JSON_nested_ind;
    intros l Hl s Hs Hhyphen; try discriminate.
  - injection Hl as <-. destruct Hs.
  - injection Hl as <-. destruct Hs as [<-|[]].
    exfalso. exact (remove_soft_hyphens_clean s0 Hhyphen).
  - rewrite headings_array. eapply flatten_elems_headings; eauto.
  - destruct items as [|[key v] items]; [discriminate|].
    change (flatten_elem (JObject ((key, v) :: items)))
      with (yield_from (inr [key]) (flatten_article (JObject ((key, v) :: items)))) in Hl.
    apply yield_from_inr in Hl as (xs & ys & [= <-] & Hy & ->).
    rewrite headings_object. apply in_or_app.
    destruct Hs as [<-|Hs]; [left; left; reflexivity|].
    right. eapply flatten_items_headings; eauto.
Qed.

(** X22.  Soft hyphens are taken out of every paragraph: a string yielded by
    [flatten_article] that still holds a soft hyphen is a heading, the first
    key of a dictionary of the article, which is yielded as it is. *)
Theorem flatten_article_cleans_paragraphs (article_dict : JSON) (l : list (list N)) :
  flatten_article article_dict = inr l ->
  forall s, In s l -> In SOFT_HYPHEN s -> In s (headings article_dict).
Proof.
  destruct article_dict as [| | | |s0|elems|items]; intros Hl s Hs Hhyphen;
    try discriminate.
  - injection Hl as <-. apply in_map_iff in Hs as (c & <- & _).
    exfalso. exact (remove_soft_hyphens_clean [c] Hhyphen).
  - rewrite headings_array. eapply flatten_elems_headings; eauto.
    apply Forall_forall. intros elem _ l0. apply flatten_elem_headings.
  - rewrite headings_object. apply in_or_app. right.
    eapply flatten_items_headings; eauto.
    apply Forall_forall. intros kv _ l0. apply flatten_elem_headings.
Qed.

(** ** The properties at example inputs *)

Lemma parse_descriptors_frame_witness :
  let st := count_prn doctor_gets_up (initial_statistics []) in
  let st' := default st (parse_descriptors ascii_lower lexicon_example doctor_gets_up st) in
  per st' = per st /\ prn st' = prn st /\ byd_mw st' = byd_mw st /\
  token_num st' = token_num st /\ num_slashes st' = num_slashes st.
Proof.
  apply (parse_descriptors_frame ascii_lower lexicon_example doctor_gets_up).
  vm_compute. reflexivity.
Defined.

Lemma parse_descriptors_counts_negations_witness :
  let st := initial_statistics [] in
  let st' := default st (parse_descriptors ascii_lower lexicon_example doctor_sleeps_not st) in
  num_neg (descr st') = num_neg (descr st) + Z.of_nat (negation_tokens doctor_sleeps_not)
  /\ negation_tokens doctor_sleeps_not = 1%nat.
Proof.
  split; [|reflexivity].
  apply (parse_descriptors_counts_negations ascii_lower lexicon_example doctor_sleeps_not).
  vm_compute. reflexivity.
Defined.

Lemma parse_descriptors_counters_match_dictionaries_witness :
  let st := initial_statistics [] in
  let st' := default st (parse_descriptors ascii_lower lexicon_example two_teachers st) in
  exists a' b' c',
    num_matches_descr (descr st') = [("DESCR:F", a'); ("DESCR:M", b'); ("DESCR:NA", c')] /\
    a' - 0 = dict_total (female_descriptors (descr st'))
             - dict_total (female_descriptors (descr st)) /\
    b' - 0 = dict_total (male_descriptors (descr st'))
             - dict_total (male_descriptors (descr st)) /\
    c' - 0 = dict_total (ud_descriptors (descr st'))
             - dict_total (ud_descriptors (descr st)).
Proof.
  apply (parse_descriptors_counters_match_dictionaries ascii_lower lexicon_example
           two_teachers (initial_statistics []) _ 0 0 0 eq_refl).
  vm_compute. reflexivity.
Defined.

Lemma parse_descriptors_not_found_bounded_witness :
  let st := initial_statistics [] in
  let st' := default st (parse_descriptors ascii_lower lexicon_example two_teachers st) in
  exists a' b' c' na' nb' nc',
    num_matches_descr (descr st') = [("DESCR:F", a'); ("DESCR:M", b'); ("DESCR:NA", c')] /\
    glean_not_found (glean st') = [("DESCR:F", na'); ("DESCR:M", nb'); ("DESCR:NA", nc')] /\
    0 <= na' - 0 <= a' - 0 /\ 0 <= nb' - 0 <= b' - 0 /\ 0 <= nc' - 0 <= c' - 0.
Proof.
  apply (parse_descriptors_not_found_bounded ascii_lower lexicon_example
           two_teachers (initial_statistics []) _ 0 0 0 0 0 0 eq_refl eq_refl).
  vm_compute. reflexivity.
Defined.

Lemma add_descriptors_lookup_witness :
  let st' := add_descriptors lexicon_example ["klug"; "mutig"; "klug"] (mkFactors 2 0 1)
               (initial_statistics []) in
  is_Some (female_descriptors (descr st') !! "klug")
  /\ is_Some (male_descriptors (descr st') !! "klug")
  /\ is_Some (ud_descriptors (descr st') !! "klug").
Proof.
  apply (proj2 (add_descriptors_lookup lexicon_example ["klug"; "mutig"; "klug"]
                  (mkFactors 2 0 1) (initial_statistics []) "klug")).
  left. reflexivity.
Defined.

Lemma gender_vector_bounded_witness :
  f (mkFactors 2 0 0) + m (mkFactors 2 0 0) + ud (mkFactors 2 0 0)
  <= Z.of_nat (length two_teachers).
Proof.
  apply (gender_vector_bounded two_teachers (Some 1%nat) (mkFactors 2 0 0)); reflexivity.
Defined.

Lemma count_prn_counts_tags_witness :
  let st := initial_statistics [] in
  let st' := count_prn two_teachers st in
  num_matches_prn (prn st')
  = [("PRN:F", 0 + Z.of_nat (tagged "PRN:F" two_teachers));
     ("PRN:M", 0 + Z.of_nat (tagged "PRN:M" two_teachers))]
  /\ dict_total (female_prn (prn st'))
     = dict_total (female_prn (prn st)) + Z.of_nat (tagged "PRN:F" two_teachers)
  /\ dict_total (male_prn (prn st'))
     = dict_total (male_prn (prn st)) + Z.of_nat (tagged "PRN:M" two_teachers)
  /\ per st' = per st /\ descr st' = descr st /\ glean st' = glean st
  /\ byd_mw st' = byd_mw st /\ token_num st' = token_num st
  /\ num_slashes st' = num_slashes st.
Proof.
  exact (count_prn_counts_tags two_teachers (initial_statistics []) 0 0 eq_refl).
Defined.

Lemma count_prn_branches_agree_witness :
  count_prn_result two_teachers (initial_statistics []) = Some (count_prn_plain two_teachers)
  /\ count_prn_plain two_teachers
     = [("PRN:F", Z.of_nat (tagged "PRN:F" two_teachers));
        ("PRN:M", Z.of_nat (tagged "PRN:M" two_teachers))].
Proof.
  exact (count_prn_branches_agree two_teachers (initial_statistics []) eq_refl).
Defined.

Lemma count_prn_after_gender_prn_witness :
  count_prn_plain (gender_prn ["Arzt"; "Lehrer"] ["Ärztin"; "Lehrerin"; "Arzt"] untagged_sentence)
  = [("PRN:F", 1); ("PRN:M", 1)].
Proof.
  apply (count_prn_after_gender_prn ["Arzt"; "Lehrer"] ["Ärztin"; "Lehrerin"; "Arzt"]
           untagged_sentence).
  repeat constructor.
Defined.

Lemma count_per_male_counter_stays_witness :
  let p := per (initial_statistics []) in
  let e := mkEntity "Max Muster" "PER:männlich" in
  num_matches_per (count_per_ent e p) = num_matches_per p /\
  default 0 (male_per (count_per_ent e p) !! ent_text e)
  = default 0 (male_per p !! ent_text e) + 1.
Proof.
  exact (proj1 (count_per_male_counter_stays (mkEntity "Max Muster" "PER:männlich")
                  (per (initial_statistics [])) 0 0 0 0 eq_refl) eq_refl).
Defined.

(** "größe" has five characters and seven bytes. *)
Lemma strip_extension_cuts_five_witness :
  strip_extension ("größe" ++ ".json") = "größe" /\ strip_extension "größe" = "".
Proof.
  split.
  - apply (proj1 (strip_extension_cuts_five "größe" ".json")); reflexivity.
  - apply (proj2 (strip_extension_cuts_five "größe" ".json")). vm_compute. lia.
Defined.

Lemma byd_match_counts_hits_witness :
  let matchers := ["binary"; "gender_incl"] in
  let st := initial_statistics matchers in
  let st' := byd_match "eins.json" matchers hits_example st in
  num_matches (byd_mw st')
  = List.map (fun kv => (fst kv, snd kv + Z.of_nat (length (hits_example (fst kv)))))
             (num_matches (byd_mw st))
  /\ per st' = per st /\ prn st' = prn st /\ descr st' = descr st /\ glean st' = glean st
  /\ token_num st' = token_num st /\ num_slashes st' = num_slashes st.
Proof.
  apply (byd_match_counts_hits "eins.json" ["binary"; "gender_incl"] hits_example
           (initial_statistics ["binary"; "gender_incl"])); [|reflexivity].
  repeat constructor; simpl; intuition discriminate.
Defined.

Lemma analyze_paragraph_parts_witness :
  let matchers := ["binary"; "gender_incl"] in
  let st := initial_statistics matchers in
  let st' := default st (analyze_paragraph ascii_lower lexicon_example matchers "eins.json"
                           paragraph_example st) in
  per st' = per (count_per (ents paragraph_example) st) /\
  prn st' = prn (count_prn (anno_par paragraph_example) st) /\
  byd_mw st' = byd_mw (byd_match "eins.json" matchers (hits paragraph_example) st) /\
  token_num st' = token_num st + Z.of_nat (length (anno_par paragraph_example)) /\
  num_slashes st' = num_slashes st + Z.of_nat (slash_forms paragraph_example) /\
  exists st_d,
    parse_descriptors ascii_lower lexicon_example (anno_par paragraph_example) st = Some st_d /\
    descr st' = descr st_d /\ glean st' = glean st_d.
Proof.
  apply (analyze_paragraph_parts ascii_lower lexicon_example ["binary"; "gender_incl"]
           "eins.json" paragraph_example); [reflexivity|].
  vm_compute. reflexivity.
Defined.

Lemma analyze_counts_tokens_witness :
  let st := initial_statistics [] in
  let pars := [paragraph_example; paragraph_example] in
  let st' := default st (analyze ascii_lower lexicon_example [] "eins.json" pars st) in
  token_num st'
  = token_num st + Z.of_nat (list_sum (List.map (fun par => length (anno_par par)) pars))
  /\ num_slashes st' = num_slashes st + Z.of_nat (list_sum (List.map slash_forms pars)).
Proof.
  apply (analyze_counts_tokens ascii_lower lexicon_example [] "eins.json"
           [paragraph_example; paragraph_example]); [reflexivity|].
  vm_compute. reflexivity.
Defined.

Lemma analyze_returns_witness :
  is_Some (analyze ascii_lower lexicon_example ["binary"; "gender_incl"] "eins.json"
             [paragraph_example; paragraph_example]
             (initial_statistics ["binary"; "gender_incl"])).
Proof.
  apply (analyze_returns ascii_lower lexicon_example ["binary"; "gender_incl"] "eins.json"
           [paragraph_example; paragraph_example]
           (initial_statistics ["binary"; "gender_incl"])); reflexivity.
Defined.

Lemma article_info_raises_key_error_witness :
  let st0 := article_statistics [] (initial_statistics []) in
  let st := default st0 (analyze ascii_lower lexicon_example [] "eins.json"
                           [paragraph_example] st0) in
  article_info "eins.json" st = inl (KeyError "PER:männlich").
Proof.
  apply (article_info_raises_key_error ascii_lower lexicon_example [] "eins.json"
           [paragraph_example] (initial_statistics [])).
  vm_compute. reflexivity.
Defined.

(** The example article is flattened without an exception; a number among
    the elements raises [TypeError], an empty dictionary [IndexError]. *)
Lemma flatten_article_raises_nothing_witness :
  (exists l, flatten_article json_example = inr l)
  /\ flatten_article (JArray [JString [97]%N; JArray [JInt 3]]) = inl TypeError
  /\ flatten_article (JObject [([97]%N, JArray [JNull; JObject []])]) = inl IndexError.
Proof.
  split; [|split].
  - apply (proj2 (proj1 (flatten_article_raises_nothing json_example))).
    repeat constructor.
  - apply (proj1 (proj2 (proj2 (proj2
             (flatten_article_raises_nothing (JArray [JString [97]%N; JArray [JInt 3]]))))));
      reflexivity.
  - apply (proj2 (proj2 (proj2 (proj2
             (flatten_article_raises_nothing
                (JObject [([97]%N, JArray [JNull; JObject []])]))))));
      reflexivity.
Defined.

Lemma flatten_article_cleans_paragraphs_witness :
  flatten_article json_example
  = inr [ [69; 105; 110; 32; 65; 98; 115; 97; 116; 122]%N;
          [220; 98; 101; 114; 173; 115; 99; 104; 114; 105; 102; 116]%N;
          [84; 101; 120; 116]%N ]
  /\ In [220; 98; 101; 114; 173; 115; 99; 104; 114; 105; 102; 116]%N (headings json_example).
Proof.
  split; [reflexivity|].
  apply (flatten_article_cleans_paragraphs json_example _ eq_refl).
  - right. left. reflexivity.
  - simpl. tauto.
Defined.
